(** * Link-sharing gateway: request routing and access resolution

    A shallow embedding of [sharing/handler.go]: host comparison, the
    traditional path parser, the credential decoder, the bucket/key mapper
    and the request handlers, together with the properties the design
    document states about them.

    Go strings are byte strings; they are modelled by [string] (a list of
    8-bit [ascii] characters).  Functions of Go's standard library that the
    handler calls ([strings], [net]) are modelled in modules of the same
    name. *)

From Stdlib Require Import String Ascii List ZArith Lia Bool PeanoNat.
Import ListNotations.
Open Scope list_scope.
Open Scope string_scope.

(* ================================================================== *)
(** * Go's [strings] package (the functions the handler uses)          *)
(* ================================================================== *)

Module strings.

(** [s[n:]] for [n <= len(s)]. *)
Fixpoint drop (n : nat) (s : string) : string :=
  match n, s with
  | O, _ => s
  | S n', String _ s' => drop n' s'
  | S _, EmptyString => EmptyString
  end.

(** [s[:n]] for [n <= len(s)]. *)
Fixpoint take (n : nat) (s : string) : string :=
  match n, s with
  | O, _ => EmptyString
  | S n', String c s' => String c (take n' s')
  | S _, EmptyString => EmptyString
  end.

(** [HasPrefix]: [len(s) >= len(prefix) && s[:len(prefix)] == prefix]. *)
Definition HasPrefix (s prefix : string) : bool := String.prefix prefix s.

(** [HasSuffix]: [len(s) >= len(suffix) && s[len(s)-len(suffix):] == suffix]. *)
Definition HasSuffix (s suffix : string) : bool :=
  (String.length suffix <=? String.length s)%nat
  && (drop (String.length s - String.length suffix) s =? suffix).

(** [TrimPrefix]: [s] without the leading [prefix], or [s] itself. *)
Definition TrimPrefix (s prefix : string) : string :=
  if HasPrefix s prefix then drop (String.length prefix) s else s.

(** [Cut]: the text before and after the first instance of [sep]. *)
Fixpoint Cut (s sep : string) : option (string * string) :=
  if String.prefix sep s then Some (EmptyString, drop (String.length sep) s)
  else match s with
       | EmptyString => None
       | String c s' =>
           match Cut s' sep with
           | Some (before, after) => Some (String c before, after)
           | None => None
           end
       end.

(** [Index]: position of the first instance of [substr], or -1. *)
Definition Index (s substr : string) : Z :=
  match Cut s substr with
  | Some (before, _) => Z.of_nat (String.length before)
  | None => (-1)%Z
  end.

(** [Contains]: [Index(s, substr) >= 0]. *)
Definition Contains (s substr : string) : bool := (0 <=? Index s substr)%Z.

(** The loop of [genSplit] for a non-empty separator: at most [n] cuts,
    the last element is the unsplit remainder. *)
Fixpoint splitLoop (n : nat) (s sep : string) : list string :=
  match n with
  | O => [s]
  | S n' =>
      match Cut s sep with
      | None => [s]
      | Some (before, after) => before :: splitLoop n' after sep
      end
  end.

(** [explode] for an empty separator, byte by byte (Go splits into UTF-8
    sequences; the two agree on ASCII text).  The handler never splits on
    an empty separator. *)
Fixpoint explode (n : nat) (s : string) : list string :=
  match s with
  | EmptyString => []
  | String c s' =>
      match n with
      | O => []
      | S O => [s]
      | S n' => String c EmptyString :: explode n' s'
      end
  end.

(** [SplitN(s, sep, n)]: [n = 0] gives nil, [n < 0] all substrings,
    [n > 0] at most [n] substrings. *)
Definition SplitN (s sep : string) (n : Z) : list string :=
  if (n =? 0)%Z then []
  else if sep =? EmptyString then
    explode (if (n <? 0)%Z then String.length s else Z.to_nat n) s
  else if (n <? 0)%Z then splitLoop (String.length s) s sep
  else splitLoop (Z.to_nat (n - 1)) s sep.

(** [Split(s, sep) = genSplit(s, sep, 0, -1)]. *)
Definition Split (s sep : string) : list string := SplitN s sep (-1).

(** Membership of a byte in a cutset. *)
Fixpoint inCutset (c : ascii) (cutset : string) : bool :=
  match cutset with
  | EmptyString => false
  | String d rest => Ascii.eqb c d || inCutset c rest
  end.

(** [TrimRight]: [s] without its trailing bytes that are in [cutset]
    (an ASCII cutset, as at the call site). *)
Fixpoint TrimRight (s cutset : string) : string :=
  match s with
  | EmptyString => EmptyString
  | String c s' =>
      let t := TrimRight s' cutset in
      if (t =? EmptyString) && inCutset c cutset then EmptyString
      else String c t
  end.

End strings.

(* ================================================================== *)
(** * Errors                                                           *)
(* ================================================================== *)

(** The sentinel errors of the storage client that the handler tests for
    with [errors.Is]. *)
Inductive Sentinel := ErrBucketNotFound | ErrObjectNotFound.

(** Go [error] values, as far as the handler distinguishes them. *)
Inductive error :=
| New (msg : string)
    (** [errors.New], [errs.New], [fmt.Errorf] without wrapping, and any
        collaborator error that wraps no sentinel *)
| AddrError (Err Addr : string)
    (** [*net.AddrError] *)
| Wraps (sentinel : Sentinel) (msg : string)
    (** a collaborator error for which [errors.Is(err, sentinel)] holds *).

(** [err.Error()]. *)
Definition Error (e : error) : string :=
  match e with
  | New msg => msg
  | AddrError why addr =>
      if addr =? "" then why else "address " ++ addr ++ ": " ++ why
  | Wraps _ msg => msg
  end.

Definition sentinel_eqb (a b : Sentinel) : bool :=
  match a, b with
  | ErrBucketNotFound, ErrBucketNotFound => true
  | ErrObjectNotFound, ErrObjectNotFound => true
  | _, _ => false
  end.

(** [errors.Is(err, sentinel)]. *)
Definition errors_Is (e : error) (s : Sentinel) : bool :=
  match e with
  | Wraps s' _ => sentinel_eqb s' s
  | _ => false
  end.

(* ================================================================== *)
(** * Go's [net.SplitHostPort]                                         *)
(* ================================================================== *)

Module net.

Definition missingPort := "missing port in address".
Definition tooManyColons := "too many colons in address".

(** [bytealg.IndexByteString]; [None] stands for -1. *)
Fixpoint IndexByte (s : string) (c : ascii) : option nat :=
  match s with
  | EmptyString => None
  | String a s' =>
      if Ascii.eqb a c then Some O
      else match IndexByte s' c with
           | Some i => Some (S i)
           | None => None
           end
  end.

(** [bytealg.LastIndexByteString]; [None] stands for -1. *)
Fixpoint LastIndexByte (s : string) (c : ascii) : option nat :=
  match s with
  | EmptyString => None
  | String a s' =>
      match LastIndexByte s' c with
      | Some i => Some (S i)
      | None => if Ascii.eqb a c then Some O else None
      end
  end.

Definition addrErr (addr why : string) : string * string * option error :=
  ("", "", Some (AddrError why addr)).

Definition byteAt (s : string) (i : nat) (c : ascii) : bool :=
  match String.get i s with
  | Some a => Ascii.eqb a c
  | None => false
  end.

(** The common tail of [SplitHostPort]: no stray bracket after positions
    [j] resp. [k], then the port is what follows the last colon [i]. *)
Definition finish (hostport host : string) (i j k : nat)
  : string * string * option error :=
  match IndexByte (strings.drop j hostport) "[" with
  | Some _ => addrErr hostport "unexpected '[' in address"
  | None =>
      match IndexByte (strings.drop k hostport) "]" with
      | Some _ => addrErr hostport "unexpected ']' in address"
      | None => (host, strings.drop (i + 1) hostport, None)
      end
  end.

Definition SplitHostPort (hostport : string) : string * string * option error :=
  match LastIndexByte hostport ":" with
  | None => addrErr hostport missingPort
  | Some i =>
      if byteAt hostport 0 "[" then
        match IndexByte hostport "]" with
        | None => addrErr hostport "missing ']' in address"
        | Some end_ =>
            if (end_ + 1 =? String.length hostport)%nat then
              addrErr hostport missingPort
            else if (end_ + 1 =? i)%nat then
              finish hostport
                (strings.take (end_ - 1) (strings.drop 1 hostport))
                i 1 (end_ + 1)
            else if byteAt hostport (end_ + 1) ":" then
              addrErr hostport tooManyColons
            else addrErr hostport missingPort
        end
      else
        let host := strings.take i hostport in
        match IndexByte host ":" with
        | Some _ => addrErr hostport tooManyColons
        | None => finish hostport host i 0 0
        end
  end.

End net.

(* ================================================================== *)
(** * The pure helpers of the handler                                  *)
(* ================================================================== *)

(** [compareHosts]: both hosts without their ports, compared. *)
Definition compareHosts (url1 url2 : string) : bool * option error :=
  let '(host1, _, err1) := net.SplitHostPort url1 in
  let '(host2, _, err2) := net.SplitHostPort url2 in
  let step2 (host1 : string) :=
    let cmp (host2 : string) :=
      if negb (host1 =? host2) then (false, None) else (true, None) in
    match err2 with
    | Some e2 =>
        if strings.Contains (Error e2) "missing port in address"
        then cmp url2
        else (false, Some e2)
    | None => cmp host2
    end in
  match err1 with
  | Some e1 =>
      if strings.Contains (Error e1) "missing port in address"
      then step2 url1
      else (false, Some e1)
  | None => step2 host1
  end.

(** [determineBucketAndObjectKey]: [parts[0]] is the bucket ([SplitN] never
    returns an empty slice here, see [SplitN_root_nonempty]); what follows
    the first slash, closed by a slash when non-empty, prefixes the URL path
    without its first slash. *)
Definition determineBucketAndObjectKey (root urlPath : string) : string * string :=
  let parts := strings.SplitN root "/" 2 in
  let bucket := nth 0 parts "" in
  let prefix := "" in
  let prefix := if (1 <? List.length parts)%nat then nth 1 parts "" else prefix in
  let prefix :=
    if negb (prefix =? "") && negb (strings.HasSuffix prefix "/")
    then prefix ++ "/" else prefix in
  (bucket, prefix ++ strings.TrimPrefix urlPath "/").

(* ================================================================== *)
(** * Collaborators                                                    *)
(* ================================================================== *)

(** A Go [(value, error)] pair of which the value is used only when the
    error is nil. *)
Inductive result (A : Type) :=
| Ok (a : A)
| Err (e : error).
Arguments Ok {A} a.
Arguments Err {A} e.

(** [url.URL], the fields the handler touches. *)
Record URL := {
  url_Scheme : string;
  url_Host : string;
  url_Path : string;
  url_RawQuery : string;
  url_Fragment : string
}.

(** [http.Request], the fields the handler reads. *)
Record Request := {
  Method : string;
  Host : string;
  URL_Path : string;
  URL_Query : list (string * list string)
}.

(** [AuthServiceResponse], the fields [parseAccess] reads. *)
Record AuthServiceResponse := {
  AccessGrant : string;
  Public : bool
}.

(** What the handler takes from outside its own file: the opaque types of
    the storage client and the pure library functions it calls. *)
Class Externals := {
  Access : Type;       (** [uplink.Access] *)
  Project : Type;      (** [uplink.Project] *)
  IPDB : Type;         (** [objectmap.IPDB] *)
  time_Time : Type;    (** [time.Time] *)
  float64 : Type;
  (** [base58.CheckDecode]: payload, version byte, error *)
  CheckDecode : string -> list Byte.byte * Byte.byte * option error;
  (** [path.Join] of two elements *)
  path_Join : string -> string -> string;
  (** the [String] method of [url.URL] *)
  URL_String : URL -> string;
  (** [memory.Size(n).Base10String()] *)
  Base10String : Z -> string
}.

Definition versionAccessKeyID : Byte.byte := Byte.x01.

(** The double-quote character. *)
Definition dquote : string := String (ascii_of_nat 34) EmptyString.

Section Gateway.

Context {ext : Externals}.

(** [uplink.Object]: [Key], [System.ContentLength], [System.Created],
    [IsPrefix]. *)
Record Object := {
  obj_Key : string;
  obj_ContentLength : Z;
  obj_Created : time_Time;
  obj_IsPrefix : bool
}.

Record Location := {
  Latitude : float64;
  Longitude : float64
}.

Record breadcrumb := {
  Prefix : string;
  crumb_URL : string
}.

(** The [Object] struct local to [servePrefix]. *)
Record ListedObject := {
  lo_Key : string;
  lo_Size : string;
  lo_Prefix : bool
}.

(** The data handed to [templates.ExecuteTemplate]. *)
Inductive TemplateData :=
| Message (text : string)
| SingleObject (Key Size : string) (Locations : list Location) (Pieces : Z)
| PrefixListing (Title : string) (Breadcrumbs : list breadcrumb)
                (Objects : list ListedObject).

Inductive LogField :=
| zap_String (key value : string)
| zap_Error (err : error).

Inductive LogLevel := LevelError | LevelWarn.

(** The calls the handler makes on its collaborators: the authorization
    resolver, the storage client, the TXT-record resolver, the geo-IP
    database, the response writer, the templates and the logger. *)
Inductive Op :=
| Resolve (accessKeyID : string)
| ParseAccess (serialized : string)
| FetchAccessForHost (host : string)
| OpenProject (access : Access)
| CloseProject (project : Project)
| StatObject (project : Project) (bucket key : string)
| ListObjects (project : Project) (bucket prefix : string)
| GetObjectIPs (access : Access) (bucket key : string)
| GetIPInfos (db : IPDB) (ip : string)
| HttpError (msg : string) (code : Z)
| HttpRedirect (url : string) (code : Z)
| WriteHeader (code : Z)
| SetHeader (key value : string)
| ExecuteTemplate (name : string) (data : TemplateData)
| ServeContent (name : string) (modtime : time_Time) (project : Project)
               (o : Object) (bucket : string)
| Log (level : LogLevel) (msg : string) (fields : list LogField).

(** What each call returns.  [ListObjects] stands for the whole
    iteration: the items yielded until [Next] returns false, and the
    iterator's final [Err]. *)
Definition Resp (o : Op) : Type :=
  match o with
  | Resolve _ => result AuthServiceResponse
  | ParseAccess _ => result Access
  | FetchAccessForHost _ => result (Access * string)
  | OpenProject _ => result Project
  | CloseProject _ => option error
  | StatObject _ _ _ => result Object
  | ListObjects _ _ _ => (list Object * option error)%type
  | GetObjectIPs _ _ _ => result (list string)
  | GetIPInfos _ _ => result Location
  | ExecuteTemplate _ _ => option error
  | HttpError _ _ | HttpRedirect _ _ | WriteHeader _ | SetHeader _ _
  | ServeContent _ _ _ _ _ | Log _ _ _ => unit
  end.

(** Handler code: a tree of collaborator calls that ends in a value or
    in a run-time panic. *)
Inductive Prog (R : Type) : Type :=
| Ret (r : R)
| Panic (reason : string)
| Vis (o : Op) (k : Resp o -> Prog R).
Arguments Ret {R} r.
Arguments Panic {R} reason.
Arguments Vis {R} o k.

Fixpoint bind {A B : Type} (m : Prog A) (f : A -> Prog B) : Prog B :=
  match m with
  | Ret a => f a
  | Panic reason => Panic reason
  | Vis o k => Vis o (fun x => bind (k x) f)
  end.

Definition call (o : Op) : Prog (Resp o) := Vis o Ret.

(** [defer cleanup] around [body]: the cleanup runs when the body
    returns, and also when it panics. *)
Fixpoint defer {R : Type} (cleanup : Prog unit) (body : Prog R) : Prog R :=
  match body with
  | Ret r => bind cleanup (fun _ => Ret r)
  | Panic reason => bind cleanup (fun _ => Panic reason)
  | Vis o k => Vis o (fun x => defer cleanup (k x))
  end.

End Gateway.

Arguments Ret {ext R} r.
Arguments Panic {ext R} reason.
Arguments Vis {ext R} o k.

Declare Scope prog_scope.
Delimit Scope prog_scope with prog.
Notation "x <- c1 ;; c2" := (bind c1 (fun x => c2))
  (at level 61, c1 at next level, right associativity) : prog_scope.
Notation "' pat <- c1 ;; c2" := (bind c1 (fun x => match x with pat => c2 end))
  (at level 61, pat pattern, c1 at next level, right associativity) : prog_scope.
Notation "c1 ;; c2" := (bind c1 (fun _ => c2))
  (at level 61, right associativity) : prog_scope.
Open Scope prog_scope.

(* ================================================================== *)
(** * The handler                                                      *)
(* ================================================================== *)

(** What [parseRequestPath] returns beside [rawRequest] when its error is
    nil. *)
Record Parsed {ext : Externals} := {
  access : Access;
  serializedAccess : string;
  bucket : string;
  key : string
}.

(** [Handler], the fields the request path reads; the templates, the logger
    and the TXT-record resolver are collaborators (see [Op]). *)
Record Handler {ext : Externals} := {
  urlBase : URL;
  mapper : option IPDB
}.

Section Handlers.

Context {ext : Externals}.

(** [segments[i] = v]. *)
Fixpoint setAt (i : nat) (v : string) (l : list string) : list string :=
  match l, i with
  | [], _ => []
  | _ :: rest, O => v :: rest
  | x :: rest, S i' => x :: setAt i' v rest
  end.

(** [parseAccess]: an access key id (version 1) is resolved and must be
    public, version 0 is an access grant as it is, any other version is
    refused; what remains is parsed by the storage client. *)
Definition parseAccess (access : string) : Prog (result Access) :=
  let '(_, version, err) := CheckDecode access in
  access <-
    match err with
    | Some _ => Ret (Err (New "invalid access"))
    | None =>
        if Byte.eqb version versionAccessKeyID then
          authResp <- call (Resolve access) ;;
          match authResp with
          | Err err => Ret (Err err)
          | Ok authResp =>
              if negb (Public authResp)
              then Ret (Err (New "non-public access key id"))
              else Ret (Ok (AccessGrant authResp))
          end
        else if Byte.eqb version Byte.x00 then Ret (Ok access)
        else Ret (Err (New "invalid access version"))
    end ;;
  match access with
  | Err err => Ret (Err err)
  | Ok access => call (ParseAccess access)
  end.

(** [parseRequestPath].  The indices are in range wherever the code
    indexes [segments] (see [SplitN_slash_4_length]). *)
Definition parseRequestPath (p : string) : Prog (bool * result Parsed) :=
  let p := strings.TrimPrefix p "/" in
  let segments := strings.SplitN p "/" 4 in
  let '(rawRequest, segments) :=
    if (List.length segments =? 4)%nat then
      if nth 0 segments "" =? "raw" then (true, skipn 1 segments)
      else
        let segments :=
          setAt 2 (nth 2 segments "" ++ "/" ++ nth 3 segments "") segments in
        (false, firstn (List.length segments - 1) segments)
    else (false, segments) in
  if (List.length segments =? 1)%nat then
    if nth 0 segments "" =? "" then Ret (rawRequest, Err (New "missing access"))
    else Ret (rawRequest, Err (New "missing bucket"))
  else
    let serializedAccess := nth 0 segments "" in
    let bucket := nth 1 segments "" in
    let key := if (List.length segments =? 3)%nat then nth 2 segments "" else "" in
    access <- parseAccess serializedAccess ;;
    match access with
    | Err err => Ret (rawRequest, Err err)
    | Ok access =>
        Ret (rawRequest,
             Ok {| access := access; serializedAccess := serializedAccess;
                   bucket := bucket; key := key |})
    end.

(** [makeLocation]: the base URL with the request path joined to its
    path. *)
Definition makeLocation (base : URL) (reqPath : string) : string :=
  URL_String
    {| url_Scheme := url_Scheme base; url_Host := url_Host base;
       url_Path := path_Join (url_Path base) reqPath;
       url_RawQuery := url_RawQuery base; url_Fragment := url_Fragment base |}.

(** [handleUplinkErr]: a not-found page for the two sentinels, a plain
    500 for anything else. *)
Definition handleUplinkErr (action : string) (err : error) : Prog unit :=
  if errors_Is err ErrBucketNotFound then
    call (WriteHeader 404) ;;
    err <- call (ExecuteTemplate "404.html" (Message "Oops! Bucket not found.")) ;;
    match err with
    | Some err => call (Log LevelError "error while executing template" [zap_Error err])
    | None => Ret tt
    end
  else if errors_Is err ErrObjectNotFound then
    call (WriteHeader 404) ;;
    err <- call (ExecuteTemplate "404.html" (Message "Oops! Object not found.")) ;;
    match err with
    | Some err => call (Log LevelError "error while executing template" [zap_Error err])
    | None => Ret tt
    end
  else
    call (Log LevelError "unable to handle request"
            [zap_String "action" action; zap_Error err]) ;;
    call (HttpError "unable to handle request" 500).

(** [s[n:]], which panics when [n > len(s)]. *)
Definition sliceFrom (s : string) (n : nat) : Prog string :=
  if (n <=? String.length s)%nat then Ret (strings.drop n s)
  else Panic "slice bounds out of range".

(** The breadcrumbs of [servePrefix]: the root, then one per segment of
    the visible prefix, each URL extending [Breadcrumbs[i].URL]. *)
Fixpoint addBreadcrumbs (i : nat) (prefixes : list string)
         (crumbs : list breadcrumb) (root : breadcrumb) : list breadcrumb :=
  match prefixes with
  | [] => crumbs
  | prefix :: rest =>
      addBreadcrumbs (S i) rest
        (crumbs ++ [ {| Prefix := prefix;
                        crumb_URL := crumb_URL (nth i crumbs root) ++ prefix ++ "/" |} ])%list
        root
  end.

(** The loop of [servePrefix] over the listed items. *)
Fixpoint listedObjects (items : list Object) (realPrefix : string)
         (objects : list ListedObject) : Prog (list ListedObject) :=
  match items with
  | [] => Ret objects
  | item :: rest =>
      key <- sliceFrom (obj_Key item) (String.length realPrefix) ;;
      listedObjects rest realPrefix
        (objects ++ [ {| lo_Key := key;
                         lo_Size := Base10String (obj_ContentLength item);
                         lo_Prefix := obj_IsPrefix item |} ])%list
  end.

Definition servePrefix (project : Project) (root : breadcrumb)
           (title bucket realPrefix visiblePrefix : string) : Prog (option error) :=
  let crumbs := [root] in
  let crumbs :=
    if negb (visiblePrefix =? "") then
      let trimmed := strings.TrimRight visiblePrefix "/" in
      addBreadcrumbs 0 (strings.Split trimmed "/") crumbs root
    else crumbs in
  '(items, iterErr) <- call (ListObjects project bucket realPrefix) ;;
  objects <- listedObjects items realPrefix [] ;;
  match iterErr with
  | Some err => Ret (Some err)
  | None =>
      call (ExecuteTemplate "prefix-listing.html"
              (PrefixListing title crumbs objects))
  end.

(** The deferred [p.Close()] with its warning. *)
Definition closeProject (p : Project) : Prog unit :=
  err <- call (CloseProject p) ;;
  match err with
  | Some err => call (Log LevelWarn "unable to close project" [zap_Error err])
  | None => Ret tt
  end.

(** [_, ok := r.URL.Query()[name]]. *)
Definition queryHas (name : string) (query : list (string * list string)) : bool :=
  existsb (fun kv => fst kv =? name) query.

(** The geo-IP loop of [handleTraditional]. *)
Fixpoint locate (db : IPDB) (ipBytes : list string) (locations : list Location)
  : Prog (list Location) :=
  match ipBytes with
  | [] => Ret locations
  | ip :: rest =>
      info <- call (GetIPInfos db ip) ;;
      match info with
      | Err err =>
          call (Log LevelError "failed to get IP info" [zap_Error err]) ;;
          locate db rest locations
      | Ok info =>
          let location :=
            {| Latitude := Latitude info; Longitude := Longitude info |} in
          locate db rest (locations ++ [location])%list
      end
  end.

(** [handleTraditional]: the request path carries the credential. *)
Definition handleTraditional (handler : Handler) (r : Request) (locationOnly : bool)
  : Prog (option error) :=
  '(rawRequest, parsed) <- parseRequestPath (URL_Path r) ;;
  match parsed with
  | Err err =>
      let err := New ("invalid request: " ++ Error err) in
      call (HttpError (Error err) 400) ;;
      Ret (Some err)
  | Ok pr =>
      let access := access pr in
      let serializedAccess := serializedAccess pr in
      let bucket := bucket pr in
      let key := key pr in
      p <- call (OpenProject access) ;;
      match p with
      | Err err => handleUplinkErr "open project" err ;; Ret (Some err)
      | Ok p =>
          defer (closeProject p)
            (if (key =? "") || strings.HasSuffix key "/" then
               if negb (strings.HasSuffix (URL_Path r) "/") then
                 call (HttpRedirect (URL_Path r ++ "/") 301) ;;
                 Ret None
               else
                 err <- servePrefix p
                          {| Prefix := bucket;
                             crumb_URL := "/" ++ serializedAccess ++ "/" ++ bucket ++ "/" |}
                          bucket bucket key key ;;
                 match err with
                 | Some err => handleUplinkErr "list prefix" err
                 | None => Ret tt
                 end ;;
                 Ret None
             else
               o <- call (StatObject p bucket key) ;;
               match o with
               | Err err => handleUplinkErr "stat object" err ;; Ret (Some err)
               | Ok o =>
                   if locationOnly then
                     let location := makeLocation (urlBase handler) (URL_Path r) in
                     call (HttpRedirect location 302) ;;
                     Ret None
                   else
                     let download := queryHas "download" (URL_Query r) in
                     let view := queryHas "view" (URL_Query r) in
                     if negb download && negb view && negb rawRequest then
                       ipBytes <- call (GetObjectIPs access bucket key) ;;
                       match ipBytes with
                       | Err err =>
                           handleUplinkErr "get object IPs" err ;; Ret (Some err)
                       | Ok ipBytes =>
                           locations <-
                             match mapper handler with
                             | Some db => locate db ipBytes []
                             | None => Ret []
                             end ;;
                           call (ExecuteTemplate "single-object.html"
                                   (SingleObject (obj_Key o)
                                      (Base10String (obj_ContentLength o))
                                      locations
                                      (Z.of_nat (List.length locations))))
                       end
                     else
                       (if download then
                          let segments := strings.Split key "/" in
                          let obj := nth (List.length segments - 1) segments "" in
                          call (SetHeader "Content-Disposition"
                                  ("attachment; filename=" ++ dquote ++ obj ++ dquote))
                        else Ret tt) ;;
                       call (ServeContent key (obj_Created o) p o bucket) ;;
                       Ret None
               end)
      end
  end.

(** [handleHostingService]: the request host is a custom domain whose TXT
    record names the access and the storage root. *)
Definition handleHostingService (handler : Handler) (r : Request)
  : Prog (option error) :=
  let '(host, _, err) := net.SplitHostPort (Host r) in
  let host :=
    match err with
    | Some err =>
        if strings.Contains (Error err) "missing port in address"
        then Ok (Host r) else Err err
    | None => Ok host
    end in
  match host with
  | Err err =>
      call (Log LevelError "unable to handle request" [zap_Error err]) ;;
      call (HttpError "unable to handle request" 500) ;;
      Ret (Some err)
  | Ok host =>
      fetched <- call (FetchAccessForHost host) ;;
      match fetched with
      | Err err =>
          call (Log LevelError "unable to handle request" [zap_Error err]) ;;
          call (HttpError "unable to handle request" 500) ;;
          Ret (Some err)
      | Ok (access, root) =>
          project <- call (OpenProject access) ;;
          match project with
          | Err err => handleUplinkErr "open project" err ;; Ret (Some err)
          | Ok project =>
              defer (closeProject project)
                (let '(bucket, key) :=
                   determineBucketAndObjectKey root (URL_Path r) in
                 let indexOrListing :=
                   let k := key ++ "index.html" in
                   o <- call (StatObject project bucket k) ;;
                   match o with
                   | Ok o =>
                       call (ServeContent k (obj_Created o) project o bucket) ;;
                       Ret None
                   | Err err =>
                       if negb (errors_Is err ErrObjectNotFound) then
                         handleUplinkErr "stat object" err ;; Ret (Some err)
                       else
                         err <- servePrefix project
                                  {| Prefix := host; crumb_URL := "/" |}
                                  host bucket key
                                  (strings.TrimPrefix (URL_Path r) "/") ;;
                         match err with
                         | Some err =>
                             handleUplinkErr "list prefix" err ;; Ret (Some err)
                         | None => Ret None
                         end
                   end in
                 if negb (key =? "") then
                   o <- call (StatObject project bucket key) ;;
                   match o with
                   | Ok o =>
                       call (ServeContent key (obj_Created o) project o bucket) ;;
                       Ret None
                   | Err err =>
                       if negb (strings.HasSuffix key "/")
                          || negb (errors_Is err ErrObjectNotFound)
                       then handleUplinkErr "stat object" err ;; Ret (Some err)
                       else indexOrListing
                   end
                 else indexOrListing)
          end
      end
  end.

(** [serveHTTP]: requests for a foreign host go to the hosting service,
    requests for the base host are GET or HEAD on a traditional path. *)
Definition serveHTTP (handler : Handler) (r : Request) : Prog (option error) :=
  let '(equal, err) := compareHosts (Host r) (url_Host (urlBase handler)) in
  match err with
  | Some err => Ret (Some err)
  | None =>
      if negb equal then handleHostingService handler r
      else
        let locationOnly := false in
        if Method r =? "HEAD" then
          let locationOnly := true in
          handleTraditional handler r locationOnly
        else if Method r =? "GET" then
          handleTraditional handler r locationOnly
        else
          let err := New "method not allowed" in
          call (HttpError (Error err) 405) ;;
          Ret (Some err)
  end.

End Handlers.

(* ================================================================== *)
(** * Executions                                                       *)
(* ================================================================== *)

Section Executions.

Context {ext : Externals}.

(** One collaborator call with what it returned. *)
Definition Event : Type := { o : Op & Resp o }.

Definition event (o : Op) (x : Resp o) : Event := existT Resp o x.

Inductive Outcome (R : Type) :=
| Done (r : R)
| Panicked (reason : string).
Arguments Done {R} r.
Arguments Panicked {R} reason.

(** [exec p t out]: the handler code [p] can make the calls of [t], in
    this order and with these answers, and then end in [out].  The
    answers are whatever the collaborators give. *)
Fixpoint exec {R : Type} (p : Prog R) (t : list Event) (out : Outcome R) : Prop :=
  match p with
  | Ret r => t = [] /\ out = Done r
  | Panic reason => t = [] /\ out = Panicked reason
  | Vis o k => exists (x : Resp o) (t' : list Event),
                 t = event o x :: t' /\ exec (k x) t' out
  end.

(** Whether a call succeeded, and with which error it failed. *)
Inductive Status :=
| Succeeded
| Failed (e : error).

Definition result_status {A : Type} (r : result A) : Status :=
  match r with Ok _ => Succeeded | Err e => Failed e end.

Definition error_status (e : option error) : Status :=
  match e with None => Succeeded | Some e => Failed e end.

Definition status (o : Op) : Resp o -> Status :=
  match o as o' return Resp o' -> Status with
  | Resolve _ => result_status
  | ParseAccess _ => result_status
  | FetchAccessForHost _ => result_status
  | OpenProject _ => result_status
  | CloseProject _ => error_status
  | StatObject _ _ _ => result_status
  | ListObjects _ _ _ => fun x => error_status (snd x)
  | GetObjectIPs _ _ _ => result_status
  | GetIPInfos _ _ => result_status
  | ExecuteTemplate _ _ => error_status
  | HttpError _ _ | HttpRedirect _ _ | WriteHeader _ | SetHeader _ _
  | ServeContent _ _ _ _ _ | Log _ _ _ => fun _ => Succeeded
  end.

(** The calls of a trace, and the calls with their status. *)
Definition calls (t : list Event) : list Op := map (@projT1 Op Resp) t.

Definition observed (t : list Event) : list (Op * Status) :=
  map (fun ev : Event => (projT1 ev, status (projT1 ev) (projT2 ev))) t.

(** The calls that write to the HTTP response. *)
Definition isResponse (o : Op) : bool :=
  match o with
  | HttpError _ _ | HttpRedirect _ _ | WriteHeader _ | SetHeader _ _
  | ExecuteTemplate _ _ | ServeContent _ _ _ _ _ => true
  | _ => false
  end.


Definition response (t : list Event) : list Op := filter isResponse (calls t).

(** Every call a program can ever make satisfies [P]. *)
Fixpoint allCalls {R : Type} (P : Op -> Prop) (p : Prog R) : Prop :=
  match p with
  | Ret _ | Panic _ => True
  | Vis o k => P o /\ forall x, allCalls P (k x)
  end.

(** A deterministic environment: a state and an answer to every call. *)
Record World := {
  St : Type;
  respond : forall o : Op, St -> Resp o * St
}.

(** Running handler code in a world. *)
Fixpoint run (w : World) {R : Type} (p : Prog R) (s : St w)
  : list Event * Outcome R :=
  match p with
  | Ret r => ([], Done r)
  | Panic reason => ([], Panicked reason)
  | Vis o k =>
      let '(x, s') := respond w o s in
      let '(t, out) := run w (k x) s' in
      (event o x :: t, out)
  end.

End Executions.

Arguments Done {R} r.
Arguments Panicked {R} reason.

(* ================================================================== *)
(** * The mapper and the parser in the design document's words         *)
(* ================================================================== *)

(** The part of [s] before its first slash ([s] itself without one). *)
Fixpoint beforeSlash (s : string) : string :=
  match s with
  | EmptyString => EmptyString
  | String c s' => if Ascii.eqb c "/" then EmptyString else String c (beforeSlash s')
  end.

(** The remainder of [s] after its first slash (empty without one). *)
Fixpoint afterSlash (s : string) : string :=
  match s with
  | EmptyString => EmptyString
  | String c s' => if Ascii.eqb c "/" then s' else afterSlash s'
  end.

(** Whether [s] contains the byte [c]. *)
Fixpoint hasByte (c : ascii) (s : string) : bool :=
  match s with
  | EmptyString => false
  | String a s' => Ascii.eqb a c || hasByte c s'
  end.

Fixpoint lastByte (s : string) : option ascii :=
  match s with
  | EmptyString => None
  | String c EmptyString => Some c
  | String _ s' => lastByte s'
  end.

Definition endsInSlash (s : string) : bool :=
  match lastByte s with
  | Some c => Ascii.eqb c "/"
  | None => false
  end.

(** Step 2 of the mapper: a slash is appended exactly when [rest] is
    non-empty and does not already end in one. *)
Definition specPrefix (rest : string) : string :=
  if negb (rest =? "") && negb (endsInSlash rest) then rest ++ "/" else rest.

(** Step 3 of the mapper: exactly one leading slash is stripped. *)
Definition specSuffix (urlPath : string) : string :=
  match urlPath with
  | String c s' => if Ascii.eqb c "/" then s' else urlPath
  | EmptyString => EmptyString
  end.

(** A host that is a bare name or an IPv4 literal: no colon, no bracket. *)
Definition plainHost (h : string) : bool :=
  negb (hasByte ":" h) && negb (hasByte "[" h) && negb (hasByte "]" h).

(** The host of [u] once its port is stripped, when stripping succeeds or
    fails only because there is no port. *)
Definition bareHost (u h : string) : Prop :=
  (exists port, net.SplitHostPort u = (h, port, None))
  \/ (net.SplitHostPort u = net.addrErr u net.missingPort /\ h = u).

(* ================================================================== *)
(** * Predicates on calls and traces                                   *)
(* ================================================================== *)

(** Steps 5 and 6 of the path parser: the credential is decoded, and on
    success the segments are returned with it. *)
Definition decodeAs {ext : Externals} (rawRequest : bool)
           (credential bucket key : string) : Prog (bool * result Parsed) :=
  access <- parseAccess credential ;;
  match access with
  | Err err => Ret (rawRequest, Err err)
  | Ok access =>
      Ret (rawRequest,
           Ok {| access := access; serializedAccess := credential;
                 bucket := bucket; key := key |})
  end.

(** An answer to every call: every call can be answered. *)
Definition anAnswer {ext : Externals} (o : Op) : Resp o :=
  match o as o' return Resp o' with
  | Resolve _ => Err (New "")
  | ParseAccess _ => Err (New "")
  | FetchAccessForHost _ => Err (New "")
  | OpenProject _ => Err (New "")
  | CloseProject _ => None
  | StatObject _ _ _ => Err (New "")
  | ListObjects _ _ _ => ([], None)
  | GetObjectIPs _ _ _ => Err (New "")
  | GetIPInfos _ _ => Err (New "")
  | ExecuteTemplate _ _ => None
  | HttpError _ _ | HttpRedirect _ _ | WriteHeader _ | SetHeader _ _
  | ServeContent _ _ _ _ _ | Log _ _ _ => tt
  end.

(** The calls of the credential decoder: [Resolve] and [ParseAccess]. *)
Definition decoderCall {ext : Externals} (o : Op) : Prop :=
  match o with
  | Resolve _ | ParseAccess _ => True
  | _ => False
  end.

(** The other four reasons [net.SplitHostPort] fails with. *)
Definition otherReason (why : string) : Prop :=
  why = net.tooManyColons \/ why = "missing ']' in address"
  \/ why = "unexpected '[' in address" \/ why = "unexpected ']' in address".

(** A call that does not answer 405. *)
Definition not405 {ext : Externals} (o : Op) : Prop :=
  match o with
  | HttpError _ code => code <> 405%Z
  | _ => True
  end.

(** A call that is neither an object lookup nor the serving of object
    content. *)
Definition noObjectCall {ext : Externals} (o : Op) : Prop :=
  match o with
  | StatObject _ _ _ | ServeContent _ _ _ _ _ | GetObjectIPs _ _ _ => False
  | ExecuteTemplate name _ => name <> "single-object.html"
  | _ => True
  end.

(** A call that does not serve object content. *)
Definition noContentCall {ext : Externals} (o : Op) : Prop :=
  match o with
  | ServeContent _ _ _ _ _ | GetObjectIPs _ _ _ => False
  | ExecuteTemplate name _ => name <> "single-object.html"
  | _ => True
  end.

(** The lookups in the store: stat and listing. *)
Definition isLookup {ext : Externals} (o : Op) : bool :=
  match o with
  | StatObject _ _ _ | ListObjects _ _ _ => true
  | _ => false
  end.

(** The lookups of a trace, each with its status. *)
Definition lookups {ext : Externals} (t : list Event) : list (Op * Status) :=
  filter (fun x => isLookup (fst x)) (observed t).

(** What [handleUplinkErr] writes to the response for an error. *)
Definition errorPage {ext : Externals} (e : error) : list Op :=
  if errors_Is e ErrBucketNotFound then
    [WriteHeader 404; ExecuteTemplate "404.html" (Message "Oops! Bucket not found.")]
  else if errors_Is e ErrObjectNotFound then
    [WriteHeader 404; ExecuteTemplate "404.html" (Message "Oops! Object not found.")]
  else [HttpError "unable to handle request" 500].

(** The answer of a trace's call to the TXT-record resolver, resp. to
    [OpenProject]. *)
Definition fetchAnswer {ext : Externals} (ev : Event)
  : option (string * result (Access * string)) :=
  match ev with
  | existT _ o x =>
      match o as o' return Resp o' -> option (string * result (Access * string)) with
      | FetchAccessForHost host => fun x => Some (host, x)
      | _ => fun _ => None
      end x
  end.

Definition openAnswer {ext : Externals} (ev : Event)
  : option (Access * result Project) :=
  match ev with
  | existT _ o x =>
      match o as o' return Resp o' -> option (Access * result Project) with
      | OpenProject access => fun x => Some (access, x)
      | _ => fun _ => None
      end x
  end.

(* ================================================================== *)
(** * A small concrete instance                                        *)
(* ================================================================== *)

(** Accesses are their serialized text, there is one project, and a token
    decodes with the version its first byte names: ['1'] an access key id,
    ['2'] an unknown version, anything else an access grant. *)
Definition demo : Externals := {|
  Access := string;
  Project := unit;
  IPDB := unit;
  time_Time := unit;
  float64 := unit;
  CheckDecode := fun token =>
    match token with
    | String "1" _ => ([], Byte.x01, None)
    | String "2" _ => ([], Byte.x02, None)
    | EmptyString => ([], Byte.x00, Some (New "invalid format"))
    | _ => ([], Byte.x00, None)
    end;
  path_Join := fun a b => a ++ b;
  URL_String := fun u => url_Scheme u ++ "://" ++ url_Host u ++ url_Path u;
  Base10String := fun _ => "0 B"
|}.

Section DemoWorld.

#[local] Existing Instance demo.

Definition demoObject : @Object demo :=
{| obj_Key := "a/b.jpg"; obj_ContentLength := 0; obj_Created := tt;
   obj_IsPrefix := false |}.

(** A world in which every credential is valid and public, every project
  opens, every object exists and every listing is empty. *)
Definition happyWorld : @World demo :=
{| St := unit;
   respond := fun o s =>
     (match o as o' return @Resp demo o' with
      | Resolve id => Ok {| AccessGrant := "grant-of-" ++ id; Public := true |}
      | ParseAccess s => Ok s
      | FetchAccessForHost _ => Ok ("grant", "bucket/site")
      | OpenProject _ => Ok tt
      | CloseProject _ => None
      | StatObject _ _ _ => Ok demoObject
      | ListObjects _ _ _ => ([], None)
      | GetObjectIPs _ _ _ => Ok []
      | GetIPInfos _ _ => Err (New "no database")
      | ExecuteTemplate _ _ => None
      | HttpError _ _ | HttpRedirect _ _ | WriteHeader _ | SetHeader _ _
      | ServeContent _ _ _ _ _ | Log _ _ _ => tt
      end, s) |}.

Definition demoHandler : @Handler demo :=
{| urlBase := {| url_Scheme := "https"; url_Host := "link.test";
                 url_Path := ""; url_RawQuery := ""; url_Fragment := "" |};
   mapper := None |}.

Definition demoRequest (method host path : string) : Request :=
{| Method := method; Host := host; URL_Path := path; URL_Query := [] |}.

End DemoWorld.

(* ================================================================== *)
(** * More predicates on inputs, calls and traces                      *)
(* ================================================================== *)

(** The host that [compareHosts] and [handleHostingService] go on with:
    the host without its port, the input itself when the only complaint is
    a missing port, or the error. *)
Definition effectiveHost (u : string) : result string :=
  let '(host, _, err) := net.SplitHostPort u in
  match err with
  | Some err =>
      if strings.Contains (Error err) "missing port in address"
      then Ok u else Err err
  | None => Ok host
  end.

(** A path of four segments whose first is "raw". *)
Definition rawPath (p : string) : bool :=
  let p' := strings.TrimPrefix p "/" in
  (beforeSlash p' =? "raw")
  && hasByte "/" p'
  && hasByte "/" (afterSlash p')
  && hasByte "/" (afterSlash (afterSlash p')).

Section Discipline.

Context {ext : Externals}.

(** [safe P hist p]: every call [p] can make satisfies [P] of the calls
    made before it ([hist], the most recent first) and of itself. *)
Fixpoint safe {R : Type} (P : list Event -> Op -> Prop) (hist : list Event)
         (p : Prog R) : Prop :=
  match p with
  | Ret _ | Panic _ => True
  | Vis o k => P hist o /\ forall x, safe P (event o x :: hist) (k x)
  end.

(** The access was granted: it is the answer of the storage client's
    parser or of the TXT-record resolver. *)
Definition granted (hist : list Event) (a : Access) : Prop :=
  (exists s, In (event (ParseAccess s) (Ok a)) hist)
  \/ (exists host root, In (event (FetchAccessForHost host) (Ok (a, root))) hist).

(** The project was opened and has not been closed. *)
Definition isOpen (hist : list Event) (p : Project) : Prop :=
  (exists a, In (event (OpenProject a) (Ok p)) hist)
  /\ ~ In (CloseProject p) (calls hist).

Definition isLog (o : Op) : Prop :=
  match o with
  | Log _ _ _ => True
  | _ => False
  end.

Definition isClose (o : Op) : bool :=
  match o with
  | CloseProject _ => true
  | _ => false
  end.

(** The last segment of a key, as [handleTraditional] takes it for the
    name of a download. *)
Definition lastSegment (key : string) : string :=
  let segments := strings.Split key "/" in
  nth (List.length segments - 1) segments "".

(** The discipline of the handlers towards the store: a project is opened
    with a granted access only; objects are looked up, listed and served
    on an open project only; what is served, or located, is the object a
    lookup of the same bucket and key has just found; the only header set
    names a download after the last segment of such a key; and once a
    project is closed, nothing is called but the logger. *)
Definition disciplined (hist : list Event) (o : Op) : Prop :=
  (existsb isClose (calls hist) = true -> isLog o)
  /\ match o with
     | OpenProject a => granted hist a
     | CloseProject p => isOpen hist p
     | StatObject p _ _ => isOpen hist p
     | ListObjects p _ _ => isOpen hist p
     | ServeContent name modtime p ob b =>
         isOpen hist p
         /\ In (event (StatObject p b name) (Ok ob)) hist
         /\ modtime = obj_Created ob
     | GetObjectIPs a b k =>
         granted hist a
         /\ exists p ob, In (event (StatObject p b k) (Ok ob)) hist
     | SetHeader name value =>
         name = "Content-Disposition"
         /\ exists p b k ob,
             In (event (StatObject p b k) (Ok ob)) hist
             /\ value = "attachment; filename=" ++ dquote ++ lastSegment k ++ dquote
     | _ => True
     end.

(** A call that touches neither the store nor its projects. *)
Definition offStore (o : Op) : Prop :=
  match o with
  | OpenProject _ | CloseProject _ | StatObject _ _ _ | ListObjects _ _ _
  | ServeContent _ _ _ _ _ | GetObjectIPs _ _ _ | SetHeader _ _ => False
  | _ => True
  end.

End Discipline.

(** The project a call works on. *)
Definition projectOf {ext : Externals} (o : Op) : option Project :=
  match o with
  | StatObject p _ _ | ListObjects p _ _ | ServeContent _ _ p _ _
  | CloseProject p => Some p
  | _ => None
  end.

Definition isOpenProject {ext : Externals} (o : Op) : bool :=
  match o with
  | OpenProject _ => true
  | _ => false
  end.

Definition isGetIPInfos {ext : Externals} (o : Op) : bool :=
  match o with
  | GetIPInfos _ _ => true
  | _ => false
  end.

Definition isLogCall {ext : Externals} (o : Op) : bool :=
  match o with
  | Log _ _ _ => true
  | _ => false
  end.

(** The listed object [servePrefix] makes of an item: the key without the
    listing prefix, the size in base 10, the prefix flag. *)
Definition listed {ext : Externals} (realPrefix : string) (item : Object)
  : ListedObject :=
  {| lo_Key := strings.drop (String.length realPrefix) (obj_Key item);
     lo_Size := Base10String (obj_ContentLength item);
     lo_Prefix := obj_IsPrefix item |}.

(** Whether the key of an item is at least as long as the listing
    prefix. *)
Definition coversPrefix {ext : Externals} (realPrefix : string) (item : Object)
  : bool :=
  (String.length realPrefix <=? String.length (obj_Key item))%nat.

(** The segments of a path, each closed by a slash, put together. *)
Fixpoint slashed (segments : list string) : string :=
  match segments with
  | [] => ""
  | segment :: rest => segment ++ "/" ++ slashed rest
  end.

Section FurtherPredicates.

Context {ext : Externals}.

(** No project has been closed. *)
Definition noClose (hist : list Event) : Prop :=
  existsb isClose (calls hist) = false.

(** The project [p] is open and no project has been closed. *)
Definition working (hist : list Event) (p : Project) : Prop :=
  (exists a, In (event (OpenProject a) (Ok p)) hist) /\ noClose hist.

(** A call of the body of a handler that has project [p] open: no open,
    no close, and lookups on [p] alone; serving and locating are looked at
    where they occur. *)
Definition bodyCall (p : Project) (o : Op) : Prop :=
  match o with
  | OpenProject _ | CloseProject _ | ServeContent _ _ _ _ _
  | GetObjectIPs _ _ _ | SetHeader _ _ => False
  | StatObject p' _ _ | ListObjects p' _ _ => p' = p
  | _ => True
  end.

(** Every breadcrumb but the first extends the URL of the one before by
    its own prefix and a slash. *)
Definition chained (root : breadcrumb) (crumbs : list breadcrumb) : Prop :=
  forall i, (S i < List.length crumbs)%nat ->
            crumb_URL (nth (S i) crumbs root)
            = crumb_URL (nth i crumbs root) ++ Prefix (nth (S i) crumbs root) ++ "/".

(** A call that does not answer 400. *)
Definition not400 (o : Op) : Prop :=
  match o with
  | HttpError _ code => code <> 400%Z
  | _ => True
  end.

(** A call that does not redirect permanently. *)
Definition no301 (o : Op) : Prop :=
  match o with
  | HttpRedirect _ code => code <> 301%Z
  | _ => True
  end.

(** A call that neither serves content nor sets a header. *)
Definition pageCall (o : Op) : Prop :=
  match o with
  | ServeContent _ _ _ _ _ | SetHeader _ _ => False
  | _ => True
  end.

(** A call that neither asks where an object is stored nor renders the
    page of an object. *)
Definition directCall (o : Op) : Prop :=
  match o with
  | GetObjectIPs _ _ _ | GetIPInfos _ _ => False
  | ExecuteTemplate name _ => name <> "single-object.html"
  | _ => True
  end.

(** A call that is not a lookup in the TXT records. *)
Definition notFetch (o : Op) : Prop :=
  match o with
  | FetchAccessForHost _ => False
  | _ => True
  end.

End FurtherPredicates.

Section DemoRequests.

#[local] Existing Instance demo.

(** A request for the download of an object, and the key it names. *)
Definition demoDownload : Request :=
  {| Method := "GET"; Host := "link.test";
     URL_Path := "/ACCESS/bucket/a/b.jpg"; URL_Query := [("download", [])] |}.

(** The trace of a request in the world where everything succeeds. *)
Definition demoTrace (r : Request) : list Event :=
  fst (run happyWorld (serveHTTP demoHandler r) tt).

Definition demoOutcome (r : Request) : Outcome (option error) :=
  snd (run happyWorld (serveHTTP demoHandler r) tt).

(** A world whose TXT records know no host. *)
Definition strangerWorld : @World demo :=
  {| St := unit;
     respond := fun o s =>
       (match o as o' return @Resp demo o' with
        | FetchAccessForHost host => Err (New ("no TXT record for " ++ host))
        | o' => fst (respond happyWorld o' tt)
        end, s) |}.

End DemoRequests.

Section LocatingTerms.

Context {ext : Externals}.

(** What the geo-IP loop does with the answers of the database, one per
    address: every address is looked up, and an address that is not found
    is logged. *)
Fixpoint locateSteps (db : IPDB) (answers : list (string * result Location))
  : list Event :=
  match answers with
  | [] => []
  | (ip, Ok info) :: rest =>
      event (GetIPInfos db ip) (Ok info) :: locateSteps db rest
  | (ip, Err err) :: rest =>
      event (GetIPInfos db ip) (Err err)
        :: event (Log LevelError "failed to get IP info" [zap_Error err]) tt
        :: locateSteps db rest
  end.

(** The locations among the answers of the database, in order. *)
Fixpoint locationsOf (answers : list (string * result Location))
  : list Location :=
  match answers with
  | [] => []
  | (_, Ok info) :: rest =>
      {| Latitude := Latitude info; Longitude := Longitude info |}
        :: locationsOf rest
  | (_, Err _) :: rest => locationsOf rest
  end.

(** The location a call of the geo-IP database has answered with. *)
Definition locationAnswer (ev : Event) : list Location :=
  match ev with
  | existT _ o x =>
      match o as o' return Resp o' -> list Location with
      | GetIPInfos _ _ =>
          fun x => match x with
                   | Ok info =>
                       [ {| Latitude := Latitude info;
                            Longitude := Longitude info |} ]
                   | Err _ => []
                   end
      | _ => fun _ => []
      end x
  end.

(** The locations the geo-IP database has answered with in a trace, in
    order. *)
Definition locatedIn (t : list Event) : list Location :=
  flat_map locationAnswer t.

End LocatingTerms.

Section HostingAnswers.

Context {ext : Externals}.

(** The request has served the object found under [k]: the lookup of [k]
    has answered with an object, and the response is the content of that
    object under that key and its creation time, and nothing else; no
    error is returned. *)
Definition servesObject (project : Project) (bucket k : string)
           (t : list Event) (out : Outcome (option error)) : Prop :=
  exists o,
    In (event (StatObject project bucket k) (Ok o)) t
    /\ response t = [ServeContent k (obj_Created o) project o bucket]
    /\ out = Done None.

(** The request has surfaced the error: the response is its page, and the
    error is returned. *)
Definition surfacesError (e : error) (t : list Event)
           (out : Outcome (option error)) : Prop :=
  response t = errorPage e /\ out = Done (Some e).

(** The breadcrumbs [servePrefix] computes for a root breadcrumb and a
    visible prefix. *)
Definition crumbsOf (home : breadcrumb) (visiblePrefix : string)
  : list breadcrumb :=
  if negb (visiblePrefix =? "") then
    addBreadcrumbs 0 (strings.Split (strings.TrimRight visiblePrefix "/") "/")
                   [home] home
  else [home].

(** The request has answered with the listing of the prefix [key] for the
    site [host]: the prefix was listed; when the listing yields a key
    shorter than the prefix the handler panics with nothing written; when
    the iteration ends in an error that error is surfaced; otherwise the
    listing page is rendered, titled with the host, with the breadcrumbs
    from "/" along the visible prefix and one object per listed item, and
    an error of the template is surfaced after the page. *)
Definition listsPrefix (project : Project) (bucket host key visiblePrefix : string)
           (t : list Event) (out : Outcome (option error)) : Prop :=
  exists items iterErr,
    In (event (ListObjects project bucket key) (items, iterErr)) t
    /\ if forallb (coversPrefix key) items then
         match iterErr with
         | Some err => surfacesError err t out
         | None =>
             let page :=
               ExecuteTemplate "prefix-listing.html"
                 (PrefixListing host
                    (crumbsOf {| Prefix := host; crumb_URL := "/" |} visiblePrefix)
                    (map (listed key) items)) in
             exists answer : option error,
               In (event page answer) t
               /\ match answer with
                  | None => response t = [page] /\ out = Done None
                  | Some err =>
                      response t = page :: errorPage err /\ out = Done (Some err)
                  end
         end
       else response t = [] /\ out = Panicked "slice bounds out of range".

(** The second half of the hosting service, for the lookups [l] it makes:
    the index document is probed; when found it is served; a failure other
    than object-not-found is surfaced; and object-not-found is followed by
    the listing of the prefix. *)
Definition probesIndex (project : Project) (bucket host key visiblePrefix : string)
           (t : list Event) (out : Outcome (option error))
           (l : list (Op * Status)) : Prop :=
  let probe := key ++ "index.html" in
  (l = [(StatObject project bucket probe, Succeeded)]
   /\ servesObject project bucket probe t out)
  \/ (exists e, l = [(StatObject project bucket probe, Failed e)]
                /\ errors_Is e ErrObjectNotFound = false
                /\ surfacesError e t out)
  \/ (exists e st, l = [(StatObject project bucket probe, Failed e);
                        (ListObjects project bucket key, st)]
                   /\ errors_Is e ErrObjectNotFound = true
                   /\ listsPrefix project bucket host key visiblePrefix t out).

End HostingAnswers.

Section DemoSites.

#[local] Existing Instance demo.

(** A world in which no object exists: every lookup of an object reports
    object-not-found, and every listing is empty. *)
Definition emptySiteWorld : @World demo :=
  {| St := unit;
     respond := fun o s =>
       (match o as o' return @Resp demo o' with
        | StatObject _ _ _ => Err (Wraps ErrObjectNotFound "object not found")
        | o' => fst (respond happyWorld o' tt)
        end, s) |}.

(** A handler with a geo-IP database, and a world in which every object
    lies on two nodes, of which the database knows the first. *)
Definition mappedHandler : @Handler demo :=
  {| urlBase := urlBase demoHandler; mapper := Some tt |}.

Definition mappedWorld : @World demo :=
  {| St := unit;
     respond := fun o s =>
       (match o as o' return @Resp demo o' with
        | GetObjectIPs _ _ _ => Ok ["10.0.0.1"; "10.0.0.2"]
        | GetIPInfos _ ip =>
            if ip =? "10.0.0.1" then Ok {| Latitude := tt; Longitude := tt |}
            else Err (New "unknown address")
        | o' => fst (respond happyWorld o' tt)
        end, s) |}.

End DemoSites.

(* ================================================================== *)
(** * Facts about the string functions                                 *)
(* ================================================================== *)

Lemma prefix_one (c a : ascii) (s : string) :
  String.prefix (String c "") (String a s) = Ascii.eqb a c.
Proof.
  simpl. destruct (ascii_dec c a) as [->|n].
  - rewrite Ascii.eqb_refl. now destruct s.
  - symmetry. apply Ascii.eqb_neq. congruence.
Qed.

Lemma Cut_slash (s : string) :
  strings.Cut s "/" =
  if hasByte "/" s then Some (beforeSlash s, afterSlash s) else None.
Proof.
  induction s as [|a s IH]; [reflexivity|].
  change (strings.Cut (String a s) "/")
    with (if String.prefix "/" (String a s)
          then Some ("", strings.drop 1 (String a s))
          else match strings.Cut s "/" with
               | Some (before, after) => Some (String a before, after)
               | None => None
               end).
  rewrite prefix_one. cbn [hasByte beforeSlash afterSlash strings.drop].
  destruct (Ascii.eqb a "/"); cbn [orb]; [reflexivity|].
  rewrite IH. now destruct (hasByte "/" s).
Qed.

Lemma noSlash_before (s : string) : hasByte "/" s = false -> beforeSlash s = s.
Proof.
  induction s as [|a s IH]; cbn; [reflexivity|].
  destruct (Ascii.eqb a "/"); cbn; [discriminate|]. intros H. now rewrite IH.
Qed.

Lemma noSlash_after (s : string) : hasByte "/" s = false -> afterSlash s = "".
Proof.
  induction s as [|a s IH]; cbn; [reflexivity|].
  destruct (Ascii.eqb a "/"); cbn; [discriminate|]. exact IH.
Qed.

Lemma SplitN_slash_2 (root : string) :
  strings.SplitN root "/" 2 =
  if hasByte "/" root then [beforeSlash root; afterSlash root] else [root].
Proof.
  change (strings.SplitN root "/" 2) with (strings.splitLoop 1 root "/").
  cbn [strings.splitLoop]. rewrite Cut_slash. now destruct (hasByte "/" root).
Qed.

(** [parts[0]] of [determineBucketAndObjectKey] is always in range. *)
Lemma SplitN_root_nonempty (root : string) :
  (0 < List.length (strings.SplitN root "/" 2))%nat.
Proof. rewrite SplitN_slash_2. destruct (hasByte "/" root); cbn; lia. Qed.

Lemma drop_last (a : ascii) (s : string) :
  strings.drop (String.length s) (String a s) =
  match s with
  | EmptyString => String a ""
  | String _ _ => strings.drop (String.length s - 1) s
  end.
Proof. destruct s as [|b s]; cbn; [reflexivity|]. now rewrite Nat.sub_0_r. Qed.

Lemma HasSuffix_slash (s : string) : strings.HasSuffix s "/" = endsInSlash s.
Proof.
  unfold strings.HasSuffix, endsInSlash.
  induction s as [|a s IH]; [reflexivity|].
  change (String.length "/") with 1%nat in *.
  replace (String.length (String a s) - 1)%nat with (String.length s)
    by (cbn; lia).
  rewrite drop_last. destruct s as [|b s].
  - cbn. destruct (Ascii.eqb a "/"); reflexivity.
  - change (lastByte (String a (String b s))) with (lastByte (String b s)).
    rewrite <- IH. cbn [String.length Nat.leb Nat.sub]. rewrite Nat.sub_0_r.
    reflexivity.
Qed.

Lemma TrimPrefix_slash (s : string) : strings.TrimPrefix s "/" = specSuffix s.
Proof.
  unfold strings.TrimPrefix, strings.HasPrefix.
  destruct s as [|a s]; [reflexivity|].
  rewrite prefix_one. cbn. now destruct (Ascii.eqb a "/").
Qed.

Lemma determine_eq (root urlPath : string) :
  determineBucketAndObjectKey root urlPath =
  (beforeSlash root, specPrefix (afterSlash root) ++ specSuffix urlPath).
Proof.
  unfold determineBucketAndObjectKey. rewrite SplitN_slash_2, TrimPrefix_slash.
  destruct (hasByte "/" root) eqn:E; cbn [nth List.length Nat.ltb Nat.leb].
  - unfold specPrefix. now rewrite HasSuffix_slash.
  - now rewrite noSlash_before, noSlash_after.
Qed.

(** C1.  The bucket/key mapper follows the design document's four steps:
    the bucket is the part of [root] before its first slash, and the key is
    the remainder of [root] (closed by a slash exactly when it is non-empty
    and does not end in one) followed by [urlPath] without exactly one
    leading slash; in particular it reproduces the eight rows of the
    document's table. *)
Theorem determineBucketAndObjectKey_follows_spec :
  (forall root urlPath : string,
      determineBucketAndObjectKey root urlPath =
      (beforeSlash root, specPrefix (afterSlash root) ++ specSuffix urlPath))
  /\ determineBucketAndObjectKey "bucket/prefix/" "/images/pic.jpg"
     = ("bucket", "prefix/images/pic.jpg")
  /\ determineBucketAndObjectKey "bucket" "/images/pic.jpg"
     = ("bucket", "images/pic.jpg")
  /\ determineBucketAndObjectKey "bucket/" "/images/pic.jpg"
     = ("bucket", "images/pic.jpg")
  /\ determineBucketAndObjectKey "bucket//" "/images/pic.jpg"
     = ("bucket", "/images/pic.jpg")
  /\ determineBucketAndObjectKey "bucket//prefix" "/images/pic.jpg"
     = ("bucket", "/prefix/images/pic.jpg")
  /\ determineBucketAndObjectKey "bucket/prefix//" "/images/pic.jpg"
     = ("bucket", "prefix//images/pic.jpg")
  /\ determineBucketAndObjectKey "bucket/prefix" "/images/pic.jpg"
     = ("bucket", "prefix/images/pic.jpg")
  /\ determineBucketAndObjectKey "bucket/prefix/" "//images/pic.jpg"
     = ("bucket", "prefix//images/pic.jpg").
Proof.
  split; [exact determine_eq|].
  repeat split; reflexivity.
Qed.

(* ================================================================== *)
(** * Facts about [net.SplitHostPort]                                  *)
(* ================================================================== *)

Lemma hasByte_app (c : ascii) (s t : string) :
  hasByte c (s ++ t) = hasByte c s || hasByte c t.
Proof.
  induction s as [|a s IH]; cbn; [reflexivity|].
  rewrite IH. now rewrite orb_assoc.
Qed.

Lemma IndexByte_none (c : ascii) (s : string) :
  hasByte c s = false -> net.IndexByte s c = None.
Proof.
  induction s as [|a s IH]; cbn; [reflexivity|].
  destruct (Ascii.eqb a c); cbn; [discriminate|].
  intros H. now rewrite IH.
Qed.

Lemma IndexByte_app (c : ascii) (s t : string) :
  hasByte c s = false ->
  net.IndexByte (s ++ String c t) c = Some (String.length s).
Proof.
  induction s as [|a s IH]; cbn.
  - now rewrite Ascii.eqb_refl.
  - destruct (Ascii.eqb a c); cbn; [discriminate|].
    intros H. now rewrite IH.
Qed.

Lemma LastIndexByte_none (c : ascii) (s : string) :
  hasByte c s = false -> net.LastIndexByte s c = None.
Proof.
  induction s as [|a s IH]; cbn; [reflexivity|].
  destruct (Ascii.eqb a c); cbn; [discriminate|].
  intros H. now rewrite IH.
Qed.

Lemma LastIndexByte_app (c : ascii) (s t : string) :
  hasByte c t = false ->
  net.LastIndexByte (s ++ String c t) c = Some (String.length s).
Proof.
  intros H. induction s as [|a s IH]; cbn.
  - rewrite (LastIndexByte_none _ _ H). now rewrite Ascii.eqb_refl.
  - now rewrite IH.
Qed.

Lemma take_app (s t : string) : strings.take (String.length s) (s ++ t) = s.
Proof. induction s as [|a s IH]; cbn; [now destruct t|]. now rewrite IH. Qed.

Lemma drop_app (s t : string) : strings.drop (String.length s) (s ++ t) = t.
Proof. induction s as [|a s IH]; cbn; [reflexivity|]. exact IH. Qed.

Lemma length_app (s t : string) :
  String.length (s ++ t) = (String.length s + String.length t)%nat.
Proof. induction s as [|a s IH]; cbn; [reflexivity|]. now rewrite IH. Qed.

Lemma append_assoc (s t u : string) : (s ++ t) ++ u = s ++ t ++ u.
Proof. induction s as [|a s IH]; cbn; [reflexivity|]. now rewrite IH. Qed.

Lemma drop_app_plus (n : nat) (s t : string) :
  strings.drop (n + String.length s) (s ++ t) = strings.drop n t.
Proof.
  induction s as [|a s IH]; cbn.
  - now rewrite Nat.add_0_r.
  - rewrite Nat.add_succ_r. exact IH.
Qed.

Lemma plainHost_parts (h : string) :
  plainHost h = true ->
  hasByte ":" h = false /\ hasByte "[" h = false /\ hasByte "]" h = false.
Proof.
  unfold plainHost. intros H.
  apply andb_true_iff in H as [H H3]. apply andb_true_iff in H as [H1 H2].
  now rewrite negb_true_iff in *.
Qed.

(** Without a colon there is no port to strip. *)
Lemma SplitHostPort_no_colon (u : string) :
  hasByte ":" u = false -> net.SplitHostPort u = net.addrErr u net.missingPort.
Proof. intros H. unfold net.SplitHostPort. now rewrite LastIndexByte_none. Qed.

(** A plain host followed by a colon and a port splits into the two. *)
Lemma SplitHostPort_plain (h p : string) :
  plainHost h = true -> plainHost p = true ->
  net.SplitHostPort (h ++ ":" ++ p) = (h, p, None).
Proof.
  intros Hh Hp.
  destruct (plainHost_parts h Hh) as (Hc & Hl & Hr).
  destruct (plainHost_parts p Hp) as (Pc & Pl & Pr).
  unfold net.SplitHostPort.
  change (h ++ ":" ++ p) with (h ++ String ":" p).
  rewrite LastIndexByte_app by assumption.
  assert (B : net.byteAt (h ++ String ":" p) 0 "[" = false).
  { destruct h as [|a h]; [reflexivity|]. unfold net.byteAt. cbn.
    cbn in Hl. now destruct (Ascii.eqb a "["). }
  rewrite B, take_app, (IndexByte_none _ _ Hc).
  unfold net.finish. cbn [strings.drop].
  rewrite !IndexByte_none
    by (rewrite hasByte_app; cbn; rewrite ?Hl, ?Hr, ?Pl, ?Pr; reflexivity).
  replace (String.length h + 1)%nat with (String.length (h ++ ":"))
    by (rewrite length_app; reflexivity).
  change (h ++ String ":" p) with (h ++ ":" ++ p).
  rewrite <- append_assoc, drop_app. reflexivity.
Qed.

(** A bracketed literal followed by a colon and a port splits into the
    literal without its brackets and the port. *)
Lemma SplitHostPort_bracket (a p : string) :
  hasByte "[" a = false -> hasByte "]" a = false -> plainHost p = true ->
  net.SplitHostPort ("[" ++ a ++ "]:" ++ p) = (a, p, None).
Proof.
  intros Hl Hr Hp. destruct (plainHost_parts p Hp) as (Pc & Pl & Pr).
  unfold net.SplitHostPort.
  assert (L : net.LastIndexByte ("[" ++ a ++ "]:" ++ p) ":"
              = Some (2 + String.length a)%nat).
  { replace ("[" ++ a ++ "]:" ++ p) with (("[" ++ a ++ "]") ++ String ":" p)
      by (cbn; now rewrite append_assoc).
    rewrite LastIndexByte_app by assumption.
    cbn. rewrite length_app. cbn. f_equal. lia. }
  rewrite L.
  change ("[" ++ a ++ "]:" ++ p) with (String "[" (a ++ String "]" (String ":" p))).
  cbn [net.byteAt String.get]. rewrite Ascii.eqb_refl.
  cbn [net.IndexByte]. change (Ascii.eqb "[" "]") with false. cbv iota.
  rewrite IndexByte_app by assumption.
  replace (S (String.length a) + 1 =?
           String.length (String "[" (a ++ String "]" (String ":" p))))%nat
    with false
    by (symmetry; apply Nat.eqb_neq; cbn; rewrite length_app; cbn; lia).
  replace (S (String.length a) + 1 =? 2 + String.length a)%nat with true
    by (symmetry; apply Nat.eqb_eq; lia).
  unfold net.finish.
  replace (S (String.length a) + 1)%nat with (S (1 + String.length a)) by lia.
  replace (2 + String.length a + 1)%nat with (S (2 + String.length a)) by lia.
  replace (S (String.length a) - 1)%nat with (String.length a) by lia.
  cbn [strings.drop]. rewrite !drop_app_plus, take_app. cbn [strings.drop].
  rewrite (IndexByte_none "[")
    by (rewrite hasByte_app; cbn; now rewrite Hl, Pl).
  cbn [net.IndexByte]. change (Ascii.eqb ":" "]") with false. cbv iota.
  now rewrite (IndexByte_none "]") by assumption.
Qed.

(** A bracketed literal without a port: the port is missing. *)
Lemma SplitHostPort_bracket_only (a : string) :
  hasByte "]" a = false ->
  net.SplitHostPort ("[" ++ a ++ "]")
  = net.addrErr ("[" ++ a ++ "]") net.missingPort.
Proof.
  intros Hr. unfold net.SplitHostPort.
  destruct (net.LastIndexByte ("[" ++ a ++ "]") ":") as [i|]; [|reflexivity].
  change ("[" ++ a ++ "]") with (String "[" (a ++ String "]" "")).
  cbn [net.byteAt String.get]. rewrite Ascii.eqb_refl.
  cbn [net.IndexByte]. change (Ascii.eqb "[" "]") with false. cbv iota.
  rewrite IndexByte_app by assumption.
  replace (S (String.length a) + 1 =?
           String.length (String "[" (a ++ String "]" "")))%nat with true
    by (symmetry; apply Nat.eqb_eq; cbn; rewrite length_app; cbn; lia).
  reflexivity.
Qed.

(* ================================================================== *)
(** * Facts about [compareHosts]                                       *)
(* ================================================================== *)

Lemma prefix_refl (s : string) : String.prefix s s = true.
Proof.
  induction s as [|a s IH]; cbn; [reflexivity|].
  destruct (ascii_dec a a); [exact IH|congruence].
Qed.

Lemma Cut_cons (a : ascii) (s sep : string) :
  strings.Cut (String a s) sep =
  if String.prefix sep (String a s)
  then Some ("", strings.drop (String.length sep) (String a s))
  else match strings.Cut s sep with
       | Some (before, after) => Some (String a before, after)
       | None => None
       end.
Proof. reflexivity. Qed.

Lemma Contains_Cut (s sub : string) :
  strings.Contains s sub = match strings.Cut s sub with Some _ => true | None => false end.
Proof.
  unfold strings.Contains, strings.Index.
  destruct (strings.Cut s sub) as [[b a]|]; [|reflexivity].
  apply Z.leb_le. lia.
Qed.

Lemma Contains_cons (a : ascii) (s sub : string) :
  strings.Contains (String a s) sub =
  String.prefix sub (String a s) || strings.Contains s sub.
Proof.
  rewrite !Contains_Cut, Cut_cons.
  destruct (String.prefix sub (String a s)); [reflexivity|].
  now destruct (strings.Cut s sub) as [[? ?]|].
Qed.

(** A text that ends in [sub] contains it. *)
Lemma Contains_app_self (x sub : string) : strings.Contains (x ++ sub) sub = true.
Proof.
  induction x as [|a x IH].
  - cbn [append]. rewrite Contains_Cut.
    destruct sub as [|b sub]; [reflexivity|].
    now rewrite Cut_cons, prefix_refl.
  - cbn [append]. rewrite Contains_cons, IH. apply orb_true_r.
Qed.

(** The message of a missing-port error always names the missing port. *)
Lemma missingPort_recognised (u : string) :
  strings.Contains (Error (AddrError net.missingPort u)) "missing port in address"
  = true.
Proof.
  unfold Error. destruct (u =? "").
  - reflexivity.
  - change ("address " ++ u ++ ": " ++ net.missingPort)
      with ("address " ++ u ++ ": " ++ "missing port in address").
    rewrite <- !append_assoc. apply Contains_app_self.
Qed.

(** A space-free address followed by a colon never starts with the text
    ["missing port in address"]: its eighth byte is a space. *)
Lemma nospace_not_prefix (u rest : string) :
  hasByte " " u = false ->
  String.prefix "missing port in address" (u ++ String ":" rest) = false.
Proof.
  intros H.
  do 7 (destruct u as [|? u]; [reflexivity|];
        cbn [append String.prefix];
        match goal with
        | |- context [ascii_dec ?x ?y] => destruct (ascii_dec x y); [subst|reflexivity]
        end;
        cbn [hasByte] in H; apply orb_false_iff in H as [_ H]).
  destruct u as [|? u]; [reflexivity|].
  cbn [append String.prefix].
  match goal with
  | |- context [ascii_dec ?x ?y] => destruct (ascii_dec x y); [subst|reflexivity]
  end.
  cbn in H. discriminate.
Qed.

Lemma nospace_not_contains (u rest : string) :
  hasByte " " u = false ->
  strings.Contains (String ":" rest) "missing port in address" = false ->
  strings.Contains (u ++ String ":" rest) "missing port in address" = false.
Proof.
  intros H R. induction u as [|a u IH]; [exact R|].
  cbn [append]. rewrite Contains_cons.
  change (String a (u ++ String ":" rest)) with (String a u ++ String ":" rest).
  rewrite (nospace_not_prefix _ _ H). cbn [orb].
  apply IH. cbn in H. now apply orb_false_iff in H.
Qed.

(** For a space-free address, only a missing-port error is taken for
    one. *)
Lemma otherReason_not_recognised (u why : string) :
  hasByte " " u = false -> otherReason why ->
  strings.Contains (Error (AddrError why u)) "missing port in address" = false.
Proof.
  intros H W. unfold Error. destruct (u =? "").
  - destruct W as [-> | [-> | [-> | ->]]]; reflexivity.
  - change ("address " ++ u ++ ": " ++ why)
      with ("address " ++ (u ++ String ":" (String " " why))).
    do 8 (cbn [append]; rewrite Contains_cons;
          change (String.prefix "missing port in address" (String ?c ?s))
            with false; cbn [orb]).
    apply nospace_not_contains; [assumption|].
    destruct W as [-> | [-> | [-> | ->]]]; reflexivity.
Qed.

(** Whatever [net.SplitHostPort] fails with is an address error about its
    input, for one of five reasons. *)
Lemma SplitHostPort_error (u h p : string) (e : error) :
  net.SplitHostPort u = (h, p, Some e) ->
  exists why, e = AddrError why u /\ (why = net.missingPort \/ otherReason why).
Proof.
  unfold net.SplitHostPort, net.finish, net.addrErr, otherReason.
  repeat match goal with
         | |- context [match ?x with _ => _ end] => destruct x
         end;
    try discriminate; intros E; injection E as <- <- <-; eauto 10.
Qed.

Lemma compareHosts_bare (u1 u2 h1 h2 : string) :
  bareHost u1 h1 -> bareHost u2 h2 ->
  compareHosts u1 u2 = (h1 =? h2, None).
Proof.
  intros B1 B2. unfold compareHosts.
  destruct B1 as [[p1 ->] | [-> ->]], B2 as [[p2 ->] | [-> ->]];
    unfold net.addrErr; cbn iota beta; rewrite ?missingPort_recognised;
    now destruct (_ =? _).
Qed.

Lemma bareHost_plain (h : string) : plainHost h = true -> bareHost h h.
Proof.
  intros H. right. split; [|reflexivity].
  apply SplitHostPort_no_colon. now apply plainHost_parts.
Qed.

Lemma bareHost_plain_port (h p : string) :
  plainHost h = true -> plainHost p = true -> bareHost (h ++ ":" ++ p) h.
Proof. intros H P. left. exists p. now apply SplitHostPort_plain. Qed.

Lemma compareHosts_other_error_1 (u1 u2 h p why : string) :
  hasByte " " u1 = false ->
  net.SplitHostPort u1 = (h, p, Some (AddrError why u1)) ->
  why <> net.missingPort ->
  compareHosts u1 u2 = (false, Some (AddrError why u1)).
Proof.
  intros S E W. unfold compareHosts. rewrite E.
  destruct (SplitHostPort_error _ _ _ _ E) as (why' & [= <-] & [-> | O]);
    [congruence|].
  destruct (net.SplitHostPort u2) as [[h2 p2] e2].
  now rewrite otherReason_not_recognised.
Qed.

Lemma compareHosts_other_error_2 (u1 u2 h1 h p why : string) :
  bareHost u1 h1 ->
  hasByte " " u2 = false ->
  net.SplitHostPort u2 = (h, p, Some (AddrError why u2)) ->
  why <> net.missingPort ->
  compareHosts u1 u2 = (false, Some (AddrError why u2)).
Proof.
  intros B S E W. unfold compareHosts. rewrite E.
  destruct (SplitHostPort_error _ _ _ _ E) as (why' & [= <-] & [-> | O]);
    [congruence|].
  destruct B as [[p1 ->] | [-> ->]]; unfold net.addrErr; cbn iota beta;
    rewrite ?missingPort_recognised; now rewrite otherReason_not_recognised.
Qed.

(** Comparing a host with itself never reports a difference: the answer
    is true, or the error of stripping its port. *)
Lemma compareHosts_same (h : string) :
  compareHosts h h = (true, None)
  \/ exists e, compareHosts h h = (false, Some e).
Proof.
  unfold compareHosts.
  destruct (net.SplitHostPort h) as [[host port] [e|]].
  - destruct (strings.Contains (Error e) "missing port in address"); [|eauto].
    rewrite String.eqb_refl. now left.
  - rewrite String.eqb_refl. now left.
Qed.

(** C4 (as amended).  Ports are stripped and never compared: for a host [h]
    without colon or bracket, [compareHosts] answers true on [(h, h)],
    [(h:443, h)] and [(h:443, h:880)]; for a bracketed literal [[a]] it
    answers true on [([a], [a])] and [([a]:443, [a]:880)]; two inputs whose
    hosts, once the ports are stripped, differ give false without error;
    and an input free of spaces whose port-stripping fails for another
    reason than a missing port makes [compareHosts] return that error. *)
Theorem compareHosts_ports_stripped :
  (forall h : string, plainHost h = true ->
      compareHosts h h = (true, None)
      /\ compareHosts (h ++ ":443") h = (true, None)
      /\ compareHosts (h ++ ":443") (h ++ ":880") = (true, None))
  /\ (forall a : string, hasByte "[" a = false -> hasByte "]" a = false ->
      compareHosts ("[" ++ a ++ "]") ("[" ++ a ++ "]") = (true, None)
      /\ compareHosts ("[" ++ a ++ "]:443") ("[" ++ a ++ "]:880") = (true, None))
  /\ (forall u1 u2 h1 h2 : string,
      bareHost u1 h1 -> bareHost u2 h2 -> h1 <> h2 ->
      compareHosts u1 u2 = (false, None))
  /\ (forall u1 u2 h p why : string,
      hasByte " " u1 = false ->
      net.SplitHostPort u1 = (h, p, Some (AddrError why u1)) ->
      why <> net.missingPort ->
      compareHosts u1 u2 = (false, Some (AddrError why u1)))
  /\ (forall u1 u2 h1 h p why : string,
      bareHost u1 h1 ->
      hasByte " " u2 = false ->
      net.SplitHostPort u2 = (h, p, Some (AddrError why u2)) ->
      why <> net.missingPort ->
      compareHosts u1 u2 = (false, Some (AddrError why u2))).
Proof.
  repeat apply conj.
  - intros h H.
    pose proof (bareHost_plain h H) as B.
    assert (B443 : bareHost (h ++ ":443") h)
      by exact (bareHost_plain_port h "443" H eq_refl).
    assert (B880 : bareHost (h ++ ":880") h)
      by exact (bareHost_plain_port h "880" H eq_refl).
    repeat split.
    + now rewrite (compareHosts_bare _ _ _ _ B B), String.eqb_refl.
    + now rewrite (compareHosts_bare _ _ _ _ B443 B), String.eqb_refl.
    + now rewrite (compareHosts_bare _ _ _ _ B443 B880), String.eqb_refl.
  - intros a Hl Hr.
    assert (B : bareHost ("[" ++ a ++ "]") ("[" ++ a ++ "]")).
    { right. split; [|reflexivity]. now apply SplitHostPort_bracket_only. }
    assert (P443 : bareHost ("[" ++ a ++ "]:443") a).
    { left. exists "443". now apply (SplitHostPort_bracket a "443"). }
    assert (P880 : bareHost ("[" ++ a ++ "]:880") a).
    { left. exists "880". now apply (SplitHostPort_bracket a "880"). }
    split.
    + now rewrite (compareHosts_bare _ _ _ _ B B), String.eqb_refl.
    + now rewrite (compareHosts_bare _ _ _ _ P443 P880), String.eqb_refl.
  - intros u1 u2 h1 h2 B1 B2 N.
    rewrite (compareHosts_bare _ _ _ _ B1 B2).
    now apply String.eqb_neq in N as ->.
  - exact compareHosts_other_error_1.
  - exact compareHosts_other_error_2.
Qed.

Lemma compareHosts_ports_stripped_witness :
  (compareHosts "website.test" "website.test" = (true, None)
   /\ compareHosts "website.test:443" "website.test" = (true, None)
   /\ compareHosts "website.test:443" "website.test:880" = (true, None))
  /\ (compareHosts "[::1]" "[::1]" = (true, None)
      /\ compareHosts "[::1]:443" "[::1]:880" = (true, None))
  /\ compareHosts "website.test:443" "site.test" = (false, None)
  /\ compareHosts "a:b:c" "site.test"
     = (false, Some (AddrError "too many colons in address" "a:b:c"))
  /\ compareHosts "site.test:80" "[::1"
     = (false, Some (AddrError "missing ']' in address" "[::1")).
Proof.
  destruct compareHosts_ports_stripped as (P & B & D & E1 & E2).
  split; [exact (P "website.test" eq_refl)|].
  split; [exact (B "::1" eq_refl eq_refl)|].
  split.
  { apply (D "website.test:443" "site.test" "website.test" "site.test").
    - left. exists "443". reflexivity.
    - right. split; reflexivity.
    - discriminate. }
  split.
  { apply (E1 "a:b:c" "site.test" "" "").
    - reflexivity.
    - reflexivity.
    - discriminate. }
  apply (E2 "site.test:80" "[::1" "site.test" "" "").
  - left. exists "80". reflexivity.
  - reflexivity.
  - reflexivity.
  - discriminate.
Defined.

(** The host comparison does not answer true on every pair the design
    document lists: a host with too many colons is an error even against
    itself, and a bracketed literal keeps its brackets when it has no
    port, so that ["[::1]:443"] and ["[::1]"] differ. *)
Lemma compareHosts_not_always_true :
  compareHosts "a:b:c" "a:b:c"
  = (false, Some (AddrError "too many colons in address" "a:b:c"))
  /\ compareHosts ("[::1]" ++ ":443") "[::1]" = (false, None)
  /\ ~ (forall h : string,
           compareHosts h h = (true, None)
           /\ compareHosts (h ++ ":443") h = (true, None)
           /\ compareHosts (h ++ ":443") (h ++ ":880") = (true, None)).
Proof.
  split; [reflexivity|]. split; [reflexivity|].
  intros H. destruct (H "[::1]") as (_ & H2 & _). discriminate H2.
Qed.

(** The test for a missing port looks for its text in the whole message,
    which quotes the address: an address that contains the text and has too
    many colons is taken for one without a port. *)
Lemma compareHosts_missing_port_text :
  net.SplitHostPort "a:b:missing port in address"
  = ("", "", Some (AddrError "too many colons in address"
                     "a:b:missing port in address"))
  /\ compareHosts "a:b:missing port in address" "website.test" = (false, None).
Proof. split; reflexivity. Qed.

(* ================================================================== *)
(** * Facts about executions                                           *)
(* ================================================================== *)

Section ExecutionFacts.

Context {ext : Externals}.

(** Handler code always ends: every program has an execution. *)
Lemma exec_total {R : Type} (p : Prog R) : exists t out, exec p t out.
Proof.
  induction p as [r|reason|o k IH]; cbn.
  - now exists [], (Done r).
  - now exists [], (Panicked reason).
  - destruct (IH (anAnswer o)) as (t & out & E).
    exists (event o (anAnswer o) :: t), out, (anAnswer o), t. now split.
Qed.

(** What [run] computes is an execution. *)
Lemma run_exec (w : World) {R : Type} (p : Prog R) (s : St w) :
  exec p (fst (run w p s)) (snd (run w p s)).
Proof.
  revert s. induction p as [r|reason|o k IH]; intros s; cbn.
  - now split.
  - now split.
  - destruct (respond w o s) as [x s'] eqn:E.
    specialize (IH x s'). destruct (run w (k x) s') as [t out]. cbn in *.
    now exists x, t.
Qed.

Lemma exec_bind {A B : Type} (m : Prog A) (f : A -> Prog B)
      (t : list Event) (out : Outcome B) :
  exec (bind m f) t out <->
  (exists t1 t2 a, exec m t1 (Done a) /\ exec (f a) t2 out /\ t = (t1 ++ t2)%list)
  \/ (exists reason, exec m t (Panicked reason) /\ out = Panicked reason).
Proof.
  revert t. induction m as [r|reason|o k IH]; intros t; cbn.
  - split.
    + intros E. left. exists [], t, r. now repeat split.
    + intros [(t1 & t2 & a & (T & D) & E & ->)|(reason & (_ & D) & _)].
      * subst t1. injection D as <-. exact E.
      * discriminate D.
  - split.
    + intros (-> & ->). right. now exists reason.
    + intros [(t1 & t2 & a & (_ & D) & _)|(r & (T & D) & ->)].
      * discriminate D.
      * injection D as ->. now split.
  - split.
    + intros (x & t' & -> & E). apply IH in E.
      destruct E as [(t1 & t2 & a & E1 & E2 & ->)|(reason & E1 & ->)].
      * left. exists (event o x :: t1), t2, a. repeat split; trivial.
        now exists x, t1.
      * right. exists reason. split; trivial. now exists x, t'.
    + intros [(t1 & t2 & a & (x & t' & -> & E1) & E2 & ->)
             |(reason & (x & t' & -> & E1) & ->)].
      * exists x, (t' ++ t2)%list. split; [reflexivity|]. apply IH. left.
        now exists t', t2, a.
      * exists x, t'. split; [reflexivity|]. apply IH. right.
        now exists reason.
Qed.

(** A deferred cleanup runs after the body, whether it returned or
    panicked; a cleanup that panics replaces the outcome. *)
Lemma exec_defer {R : Type} (cleanup : Prog unit) (body : Prog R)
      (t : list Event) (out : Outcome R) :
  exec (defer cleanup body) t out <->
  exists t1 t2 out1 out2,
    exec body t1 out1 /\ exec cleanup t2 out2 /\ t = (t1 ++ t2)%list
    /\ out = match out2 with
             | Done _ => out1
             | Panicked reason => Panicked reason
             end.
Proof.
  revert t. induction body as [r|reason|o k IH]; intros t; cbn.
  - rewrite exec_bind. cbn. split.
    + intros [(t1 & t2 & [] & E1 & (-> & ->) & ->)|(reason & E & ->)].
      * exists [], t1, (Done r), (Done tt). rewrite app_nil_r. now repeat split.
      * exists [], t, (Done r), (Panicked reason). now repeat split.
    + intros (t1 & t2 & out1 & out2 & (-> & ->) & E & -> & ->).
      destruct out2 as [[]|reason].
      * left. exists t2, [], tt. rewrite app_nil_r. now repeat split.
      * right. now exists reason.
  - rewrite exec_bind. cbn. split.
    + intros [(t1 & t2 & [] & E1 & (-> & ->) & ->)|(reason' & E & ->)].
      * exists [], t1, (Panicked reason), (Done tt). rewrite app_nil_r.
        now repeat split.
      * exists [], t, (Panicked reason), (Panicked reason'). now repeat split.
    + intros (t1 & t2 & out1 & out2 & (-> & ->) & E & -> & ->).
      destruct out2 as [[]|reason'].
      * left. exists t2, [], tt. rewrite app_nil_r. now repeat split.
      * right. now exists reason'.
  - split.
    + intros (x & t' & -> & E). apply IH in E.
      destruct E as (t1 & t2 & out1 & out2 & E1 & E2 & -> & ->).
      exists (event o x :: t1), t2, out1, out2. repeat split; trivial.
      now exists x, t1.
    + intros (t1 & t2 & out1 & out2 & (x & t' & -> & E1) & E2 & -> & ->).
      exists x, (t' ++ t2)%list. split; [reflexivity|]. apply IH.
      now exists t', t2, out1, out2.
Qed.

Lemma allCalls_bind {A B : Type} (P : Op -> Prop) (m : Prog A) (f : A -> Prog B) :
  allCalls P m -> (forall a, allCalls P (f a)) -> allCalls P (bind m f).
Proof.
  intros Hm Hf. induction m as [r|reason|o k IH]; cbn in *.
  - apply Hf.
  - exact I.
  - destruct Hm as [Ho Hk]. split; [exact Ho|]. intros x. now apply IH.
Qed.

Lemma allCalls_defer {R : Type} (P : Op -> Prop) (cleanup : Prog unit)
      (body : Prog R) :
  allCalls P cleanup -> allCalls P body -> allCalls P (defer cleanup body).
Proof.
  intros Hc Hb. induction body as [r|reason|o k IH]; cbn in *.
  - now apply allCalls_bind.
  - now apply allCalls_bind.
  - destruct Hb as [Ho Hk]. split; [exact Ho|]. intros x. now apply IH.
Qed.

Lemma allCalls_weaken {R : Type} (P Q : Op -> Prop) (p : Prog R) :
  (forall o, P o -> Q o) -> allCalls P p -> allCalls Q p.
Proof.
  intros PQ. induction p as [r|reason|o k IH]; cbn; trivial.
  intros [Ho Hk]. split; [now apply PQ|]. intros x. now apply IH.
Qed.

(** What holds of every call of a program holds of every trace. *)
Lemma allCalls_exec {R : Type} (P : Op -> Prop) (p : Prog R)
      (t : list Event) (out : Outcome R) :
  allCalls P p -> exec p t out -> Forall P (calls t).
Proof.
  revert t. induction p as [r|reason|o k IH]; intros t; cbn.
  - intros _ [-> _]. constructor.
  - intros _ [-> _]. constructor.
  - intros [Ho Hk] (x & t' & -> & H). cbn. constructor; [exact Ho|].
    now apply (IH x).
Qed.

End ExecutionFacts.

(* ================================================================== *)
(** * Facts about the path parser and the credential decoder           *)
(* ================================================================== *)

Lemma splitLoop_slash (n : nat) (s : string) :
  strings.splitLoop (S n) s "/" =
  if hasByte "/" s
  then beforeSlash s :: strings.splitLoop n (afterSlash s) "/"
  else [s].
Proof.
  cbn [strings.splitLoop]. rewrite Cut_slash. now destruct (hasByte "/" s).
Qed.

(** The segments of [parseRequestPath]: as many as there are slashes, plus
    one, and never more than four. *)
Lemma SplitN_slash_4 (s : string) :
  strings.SplitN s "/" 4 =
  if negb (hasByte "/" s) then [s]
  else
    let r0 := afterSlash s in
    if negb (hasByte "/" r0) then [beforeSlash s; r0]
    else
      let r1 := afterSlash r0 in
      if negb (hasByte "/" r1) then [beforeSlash s; beforeSlash r0; r1]
      else [beforeSlash s; beforeSlash r0; beforeSlash r1; afterSlash r1].
Proof.
  change (strings.SplitN s "/" 4) with (strings.splitLoop 3 s "/").
  rewrite splitLoop_slash. destruct (hasByte "/" s); [|reflexivity].
  rewrite splitLoop_slash. cbn [negb].
  destruct (hasByte "/" (afterSlash s)); [|reflexivity].
  rewrite splitLoop_slash. cbn [negb].
  now destruct (hasByte "/" (afterSlash (afterSlash s))).
Qed.

(** The indices of [parseRequestPath] are in range: there is always a
    first segment, and a second one wherever the code reads it. *)
Lemma SplitN_slash_4_length (s : string) :
  (1 <= List.length (strings.SplitN s "/" 4) <= 4)%nat.
Proof.
  rewrite SplitN_slash_4. cbv zeta.
  destruct (negb (hasByte "/" s)); [cbn; lia|].
  destruct (negb (hasByte "/" (afterSlash s))); [cbn; lia|].
  destruct (negb (hasByte "/" (afterSlash (afterSlash s)))); cbn; lia.
Qed.

Lemma hasByte_slash_join (s t : string) : hasByte "/" (s ++ "/" ++ t) = true.
Proof. rewrite hasByte_app. cbn. apply orb_true_r. Qed.

Lemma beforeSlash_join (s t : string) :
  hasByte "/" s = false -> beforeSlash (s ++ "/" ++ t) = s.
Proof.
  change ("/" ++ t) with (String "/" t).
  induction s as [|a s IH]; cbn; [reflexivity|].
  destruct (Ascii.eqb a "/"); cbn; [discriminate|].
  intros H. now rewrite IH.
Qed.

Lemma afterSlash_join (s t : string) :
  hasByte "/" s = false -> afterSlash (s ++ "/" ++ t) = t.
Proof.
  change ("/" ++ t) with (String "/" t).
  induction s as [|a s IH]; cbn; [reflexivity|].
  destruct (Ascii.eqb a "/"); cbn; [discriminate|]. exact IH.
Qed.

Section ParserFacts.

Context {ext : Externals}.

(** The path parser, case by case on the number of slashes of the path
    after its leading slash. *)
Lemma parseRequestPath_cases (p : string) :
  parseRequestPath p =
  let p' := strings.TrimPrefix p "/" in
  if negb (hasByte "/" p') then
    Ret (false,
         Err (New (if p' =? "" then "missing access" else "missing bucket")))
  else
    let s0 := beforeSlash p' in
    let r0 := afterSlash p' in
    if negb (hasByte "/" r0) then decodeAs false s0 r0 ""
    else
      let s1 := beforeSlash r0 in
      let r1 := afterSlash r0 in
      if negb (hasByte "/" r1) then decodeAs false s0 s1 r1
      else
        let s2 := beforeSlash r1 in
        let r2 := afterSlash r1 in
        if s0 =? "raw" then decodeAs true s1 s2 r2
        else decodeAs false s0 s1 (s2 ++ "/" ++ r2).
Proof.
  unfold parseRequestPath. rewrite SplitN_slash_4. cbv zeta.
  destruct (hasByte "/" (strings.TrimPrefix p "/")); cbn [negb].
  2:{ cbn. now destruct (strings.TrimPrefix p "/" =? ""). }
  destruct (hasByte "/" (afterSlash (strings.TrimPrefix p "/"))); cbn [negb].
  2:{ reflexivity. }
  destruct (hasByte "/" (afterSlash (afterSlash (strings.TrimPrefix p "/"))));
    cbn [negb].
  2:{ reflexivity. }
  cbn [List.length Nat.eqb nth].
  now destruct (beforeSlash (strings.TrimPrefix p "/") =? "raw").
Qed.

Lemma parseAccess_calls (token : string) : allCalls decoderCall (parseAccess token).
Proof.
  unfold parseAccess.
  destruct (CheckDecode token) as [[payload version] [e|]]; cbn; [exact I|].
  destruct (Byte.eqb version versionAccessKeyID); cbn.
  - split; [exact I|]. intros [[grant [|]]|e]; cbn; auto.
  - destruct (Byte.eqb version Byte.x00); cbn; auto.
Qed.

Lemma parseAccess_returns (token : string) (t : list Event) (reason : string) :
  ~ exec (parseAccess token) t (Panicked reason).
Proof.
  unfold parseAccess.
  destruct (CheckDecode token) as [[payload version] [e|]]; cbn.
  - now intros [_ [=]].
  - destruct (Byte.eqb version versionAccessKeyID); cbn.
    + intros (x & t' & -> & E). destruct x as [[grant [|]]|e]; cbn in E.
      * destruct E as (y & t'' & -> & _ & [=]).
      * now destruct E as [_ [=]].
      * now destruct E as [_ [=]].
    + destruct (Byte.eqb version Byte.x00); cbn.
      * now intros (y & t'' & -> & _ & [=]).
      * now intros [_ [=]].
Qed.

(** Decoding a credential and packaging the segments: the trace is the
    decoder's, the flag is returned in any case. *)
Lemma exec_decodeAs (raw : bool) (credential bucket key : string)
      (t : list Event) (out : Outcome (bool * result Parsed)) :
  exec (decodeAs raw credential bucket key) t out <->
  exists a, exec (parseAccess credential) t (Done a)
            /\ out = Done (raw,
                           match a with
                           | Ok access =>
                               Ok {| access := access;
                                     serializedAccess := credential;
                                     bucket := bucket; key := key |}
                           | Err err => Err err
                           end).
Proof.
  unfold decodeAs. rewrite exec_bind. split.
  - intros [(t1 & t2 & a & E1 & E2 & ->)|(reason & E & _)].
    + exists a. destruct a as [a|e]; cbn in E2; destruct E2 as [-> ->];
        now rewrite app_nil_r.
    + now apply parseAccess_returns in E.
  - intros (a & E & ->). left. exists t, [], a. rewrite app_nil_r.
    split; [exact E|]. now destruct a.
Qed.

End ParserFacts.

Section ParserTheorems.

Context {ext : Externals}.

(** C5.  A token that decodes with a version byte other than 0 and 1 is
    refused with "invalid access version", whatever its payload, and
    neither the authorization resolver nor the storage client's parser is
    called: [parseAccess] is that error and nothing else. *)
Theorem parseAccess_unsupported_version
        (token : string) (payload : list Byte.byte) (version : Byte.byte) :
  CheckDecode token = (payload, version, None) ->
  version <> Byte.x00 ->
  version <> versionAccessKeyID ->
  parseAccess token = Ret (Err (New "invalid access version"))
  /\ forall t out, exec (parseAccess token) t out ->
                   t = [] /\ out = Done (Err (New "invalid access version")).
Proof.
  intros D N0 N1.
  assert (E : parseAccess token = Ret (Err (New "invalid access version"))).
  { unfold parseAccess. rewrite D.
    destruct (Byte.eqb version versionAccessKeyID) eqn:E1.
    { apply Byte.byte_dec_bl in E1. contradiction. }
    destruct (Byte.eqb version Byte.x00) eqn:E0.
    { apply Byte.byte_dec_bl in E0. contradiction. }
    reflexivity. }
  split; [exact E|]. rewrite E. cbn. tauto.
Qed.

(** C6.  A token that decodes with version 1 is resolved first.  When the
    resolver fails, its error is returned; when it reports a grant that is
    not public, [parseAccess] fails with "non-public access key id" and
    the storage client's parser is never called; only for a public grant
    is the resolved serialized access parsed, and the parser's answer
    returned. *)
Theorem parseAccess_access_key_id (token : string) (payload : list Byte.byte) :
  CheckDecode token = (payload, versionAccessKeyID, None) ->
  (forall t out, exec (parseAccess token) t out ->
     exists answer : result AuthServiceResponse,
       match answer with
       | Err err =>
           t = [event (Resolve token) answer] /\ out = Done (Err err)
       | Ok authResp =>
           if Public authResp then
             exists parsed : result Access,
               t = [event (Resolve token) answer;
                    event (ParseAccess (AccessGrant authResp)) parsed]
               /\ out = Done parsed
           else
             t = [event (Resolve token) answer]
             /\ out = Done (Err (New "non-public access key id"))
       end)
  /\ (forall authResp, Public authResp = false ->
        exec (parseAccess token) [event (Resolve token) (Ok authResp)]
             (Done (Err (New "non-public access key id")))).
Proof.
  intros D. unfold parseAccess. rewrite D. cbn. split.
  - intros t out (answer & t' & -> & E). exists answer.
    destruct answer as [[grant [|]]|err]; cbn in *.
    + destruct E as (parsed & t'' & -> & -> & ->). now exists parsed.
    + now destruct E as [-> ->].
    + now destruct E as [-> ->].
  - intros [grant pub] P. cbn in P. subst pub.
    exists (Ok {| AccessGrant := grant; Public := false |}), [].
    cbn. now repeat split.
Qed.

(** C7.  A path that leaves exactly one segment once its leading slash is
    stripped is refused without any call: "missing access" when the
    segment is empty, "missing bucket" otherwise.  No access grant is
    produced.  A path leaves one segment exactly when nothing but its
    leading slash is a slash, as do ["/"] and ["/ACCESS"]. *)
Theorem parseRequestPath_single_segment :
  (forall p segment : string,
      strings.SplitN (strings.TrimPrefix p "/") "/" 4 = [segment] ->
      parseRequestPath p =
      Ret (false,
           Err (New (if segment =? "" then "missing access"
                     else "missing bucket"))))
  /\ (forall p : string,
         hasByte "/" (strings.TrimPrefix p "/") = false ->
         strings.SplitN (strings.TrimPrefix p "/") "/" 4
         = [strings.TrimPrefix p "/"])
  /\ parseRequestPath "/" = Ret (false, Err (New "missing access"))
  /\ parseRequestPath "/ACCESS" = Ret (false, Err (New "missing bucket")).
Proof.
  repeat apply conj; try reflexivity.
  - intros p segment S. unfold parseRequestPath. rewrite S. cbn.
    now destruct (segment =? "").
  - intros p H. rewrite SplitN_slash_4. now rewrite H.
Qed.

Lemma trimmed_four_segments (p' s0 s1 s2 s3 : string) :
  p' = s0 ++ "/" ++ s1 ++ "/" ++ s2 ++ "/" ++ s3 ->
  hasByte "/" s0 = false -> hasByte "/" s1 = false -> hasByte "/" s2 = false ->
  hasByte "/" p' = true
  /\ beforeSlash p' = s0
  /\ hasByte "/" (afterSlash p') = true
  /\ beforeSlash (afterSlash p') = s1
  /\ hasByte "/" (afterSlash (afterSlash p')) = true
  /\ beforeSlash (afterSlash (afterSlash p')) = s2
  /\ afterSlash (afterSlash (afterSlash p')) = s3.
Proof.
  intros -> H0 H1 H2.
  rewrite !afterSlash_join, !beforeSlash_join, !hasByte_slash_join by assumption.
  now repeat split.
Qed.

(** C2.  A path with four segments after its leading slash — three
    slash-free ones and the remainder — is either a raw request, when the
    first segment is "raw", with the other three as credential, bucket and
    key, or an ordinary request whose key is segments three and four
    rejoined by a slash.  The credential is then decoded, and the flag,
    the bucket and the key are returned with the decoded access.  So
    ["/ACCESS/bucket/a/b.jpg"] gives bucket "bucket" and key "a/b.jpg"
    with [rawRequest = false], and ["/raw/ACCESS/bucket/a/b.jpg"] the same
    with [rawRequest = true], whenever the credential decodes. *)
Theorem parseRequestPath_four_segments :
  (forall p s0 s1 s2 s3 : string,
      strings.TrimPrefix p "/" = s0 ++ "/" ++ s1 ++ "/" ++ s2 ++ "/" ++ s3 ->
      hasByte "/" s0 = false -> hasByte "/" s1 = false ->
      hasByte "/" s2 = false ->
      let '(rawRequest, credential, bucket, key) :=
        if s0 =? "raw" then (true, s1, s2, s3)
        else (false, s0, s1, s2 ++ "/" ++ s3) in
      forall t out,
        exec (parseRequestPath p) t out <->
        exists a, exec (parseAccess credential) t (Done a)
                  /\ out = Done (rawRequest,
                                 match a with
                                 | Ok access =>
                                     Ok {| access := access;
                                           serializedAccess := credential;
                                           bucket := bucket; key := key |}
                                 | Err err => Err err
                                 end))
  /\ (forall t a,
         exec (parseAccess "ACCESS") t (Done (Ok a)) ->
         exec (parseRequestPath "/ACCESS/bucket/a/b.jpg") t
              (Done (false, Ok {| access := a; serializedAccess := "ACCESS";
                                  bucket := "bucket"; key := "a/b.jpg" |}))
         /\ exec (parseRequestPath "/raw/ACCESS/bucket/a/b.jpg") t
                 (Done (true, Ok {| access := a; serializedAccess := "ACCESS";
                                    bucket := "bucket"; key := "a/b.jpg" |}))).
Proof.
  split.
  - intros p s0 s1 s2 s3 E H0 H1 H2.
    destruct (trimmed_four_segments _ _ _ _ _ E H0 H1 H2)
      as (A & B & C & D & F & G & H).
    rewrite parseRequestPath_cases. cbv zeta. rewrite A, B, C, D, F, G, H.
    cbn [negb].
    destruct (s0 =? "raw"); intros t out; apply exec_decodeAs.
  - intros t a E. split.
    + change (parseRequestPath "/ACCESS/bucket/a/b.jpg")
        with (decodeAs false "ACCESS" "bucket" "a/b.jpg").
      apply exec_decodeAs. now exists (Ok a).
    + change (parseRequestPath "/raw/ACCESS/bucket/a/b.jpg")
        with (decodeAs true "ACCESS" "bucket" "a/b.jpg").
      apply exec_decodeAs. now exists (Ok a).
Qed.

Lemma decodeAs_ok (raw raw' : bool) (credential b k : string)
      (t : list Event) (parsed : Parsed) :
  exec (decodeAs raw credential b k) t (Done (raw', Ok parsed)) ->
  raw' = raw /\ bucket parsed = b /\ key parsed = k
  /\ serializedAccess parsed = credential.
Proof.
  intros E. apply exec_decodeAs in E. destruct E as ([a|e] & _ & E).
  - injection E as -> ->. now repeat split.
  - discriminate E.
Qed.

(** C3 (as amended).  The bucket is the bucket segment of the input, as
    it is: for the mapper the part of the root before its first slash,
    which is non-empty exactly when the root is non-empty and does not
    start with a slash; for the path parser the segment after the
    credential, between the first and the second slash of the path once
    its leading slash (and, in a raw request, the "raw" segment) is
    stripped.  The key may be empty: it is for a path of credential and
    bucket alone, and for a root without prefix under the URL path
    ["/"]. *)
Theorem bucket_is_bucket_segment :
  (forall root urlPath : string,
      fst (determineBucketAndObjectKey root urlPath) = beforeSlash root
      /\ (fst (determineBucketAndObjectKey root urlPath) <> ""
          <-> root <> "" /\ strings.HasPrefix root "/" = false))
  /\ (forall (p : string) (t : list Event) (raw : bool) (parsed : Parsed),
         exec (parseRequestPath p) t (Done (raw, Ok parsed)) ->
         let p' := strings.TrimPrefix p "/" in
         bucket parsed
         = beforeSlash (afterSlash (if raw then afterSlash p' else p'))
         /\ (hasByte "/" (afterSlash p') = false -> key parsed = ""))
  /\ determineBucketAndObjectKey "bucket" "/" = ("bucket", "").
Proof.
  repeat apply conj; try reflexivity.
  - intros root urlPath. rewrite determine_eq. cbn [fst]. split; [reflexivity|].
    unfold strings.HasPrefix. destruct root as [|a root].
    + cbn. intuition congruence.
    + rewrite prefix_one. cbn [beforeSlash].
      destruct (Ascii.eqb a "/"); intuition congruence.
  - intros p t raw parsed E p'. subst p'.
    rewrite parseRequestPath_cases in E. cbv zeta in E.
    destruct (hasByte "/" (strings.TrimPrefix p "/")); cbn [negb] in E.
    2:{ cbn in E. now destruct E as [_ [=]]. }
    destruct (hasByte "/" (afterSlash (strings.TrimPrefix p "/"))) eqn:S1;
      cbn [negb] in E.
    2:{ apply decodeAs_ok in E as (-> & -> & -> & _).
        now rewrite noSlash_before. }
    destruct (hasByte "/" (afterSlash (afterSlash (strings.TrimPrefix p "/"))));
      cbn [negb] in E.
    2:{ apply decodeAs_ok in E as (-> & -> & _ & _). now split. }
    destruct (beforeSlash (strings.TrimPrefix p "/") =? "raw");
      apply decodeAs_ok in E as (-> & -> & _ & _); now split.
Qed.

End ParserTheorems.

Section ParserWitnesses.

#[local] Existing Instance demo.

Lemma parseAccess_unsupported_version_witness :
@parseAccess demo "2x" = Ret (Err (New "invalid access version"))
/\ forall t out, exec (@parseAccess demo "2x") t out ->
                 t = [] /\ out = Done (Err (New "invalid access version")).
Proof.
apply (@parseAccess_unsupported_version demo "2x" [] Byte.x02).
- reflexivity.
- discriminate.
- discriminate.
Defined.

Lemma parseAccess_access_key_id_witness :
  exec (@parseAccess demo "1key")
       [event (Resolve "1key") (Ok {| AccessGrant := "grant"; Public := false |})]
       (Done (Err (New "non-public access key id")))
  /\ exists answer : result AuthServiceResponse,
       match answer with
       | Err err =>
           fst (run happyWorld (@parseAccess demo "1key") tt)
           = [event (Resolve "1key") answer]
           /\ snd (run happyWorld (@parseAccess demo "1key") tt) = Done (Err err)
       | Ok authResp =>
           if Public authResp then
             exists parsed : result Access,
               fst (run happyWorld (@parseAccess demo "1key") tt)
               = [event (Resolve "1key") answer;
                  event (ParseAccess (AccessGrant authResp)) parsed]
               /\ snd (run happyWorld (@parseAccess demo "1key") tt) = Done parsed
           else
             fst (run happyWorld (@parseAccess demo "1key") tt)
             = [event (Resolve "1key") answer]
             /\ snd (run happyWorld (@parseAccess demo "1key") tt)
                = Done (Err (New "non-public access key id"))
       end.
Proof.
  destruct (@parseAccess_access_key_id demo "1key" [] eq_refl) as (A & B).
  split.
  - apply B. reflexivity.
  - apply A. exact (run_exec happyWorld (@parseAccess demo "1key") tt).
Defined.

Lemma parseRequestPath_single_segment_witness :
@parseRequestPath demo "/ACCESS" = Ret (false, Err (New "missing bucket"))
/\ strings.SplitN (strings.TrimPrefix "/ACCESS" "/") "/" 4 = ["ACCESS"].
Proof.
destruct (@parseRequestPath_single_segment demo) as (A & B & _).
split.
- apply (A "/ACCESS" "ACCESS"). reflexivity.
- apply (B "/ACCESS"). reflexivity.
Defined.

Lemma parseRequestPath_four_segments_witness :
(forall t out,
    exec (@parseRequestPath demo "/raw/ACCESS/bucket/a/b.jpg") t out <->
    exists a, exec (@parseAccess demo "ACCESS") t (Done a)
              /\ out = Done (true,
                             match a with
                             | Ok access =>
                                 Ok {| access := access;
                                       serializedAccess := "ACCESS";
                                       bucket := "bucket"; key := "a/b.jpg" |}
                             | Err err => Err err
                             end))
/\ exec (@parseRequestPath demo "/ACCESS/bucket/a/b.jpg")
        [event (ParseAccess "ACCESS") (Ok "ACCESS")]
        (Done (false, Ok {| access := "ACCESS"; serializedAccess := "ACCESS";
                            bucket := "bucket"; key := "a/b.jpg" |})).
Proof.
destruct (@parseRequestPath_four_segments demo) as (A & B).
split.
- apply (A "/raw/ACCESS/bucket/a/b.jpg" "raw" "ACCESS" "bucket" "a/b.jpg");
    reflexivity.
- apply (B _ "ACCESS").
  exact (run_exec happyWorld (@parseAccess demo "ACCESS") tt).
Defined.

Lemma bucket_is_bucket_segment_witness :
@bucket demo {| access := "ACCESS"; serializedAccess := "ACCESS";
                bucket := "bucket"; key := "" |}
= beforeSlash (afterSlash (strings.TrimPrefix "/ACCESS/bucket" "/")).
Proof.
destruct (@bucket_is_bucket_segment demo) as (_ & B & _).
apply (B "/ACCESS/bucket" (fst (run happyWorld (@parseRequestPath demo "/ACCESS/bucket") tt)) false).
exact (run_exec happyWorld (@parseRequestPath demo "/ACCESS/bucket") tt).
Defined.

(** The bucket can be empty: a storage root that starts with a slash maps
  to the empty bucket, and so does a path with nothing between the slash
  after the credential and the next one. *)
Lemma bucket_can_be_empty :
determineBucketAndObjectKey "/site" "/index.html" = ("", "site/index.html")
/\ exec (@parseRequestPath demo "/ACCESS//a.jpg")
        [event (ParseAccess "ACCESS") (Ok "ACCESS")]
        (Done (false, Ok {| access := "ACCESS"; serializedAccess := "ACCESS";
                            bucket := ""; key := "a.jpg" |})).
Proof.
split; [reflexivity|].
exact (run_exec happyWorld (@parseRequestPath demo "/ACCESS//a.jpg") tt).
Qed.

End ParserWitnesses.

(* ================================================================== *)
(** * Facts about the handlers                                         *)
(* ================================================================== *)

Lemma listedObjects_calls {ext : Externals} (P : Op -> Prop) (items : list Object)
      (realPrefix : string) (objects : list ListedObject) :
  allCalls P (listedObjects items realPrefix objects).
Proof.
  revert objects. induction items as [|item rest IH]; intros objects; cbn.
  - exact I.
  - unfold sliceFrom.
    destruct (String.length realPrefix <=? String.length (obj_Key item))%nat;
      cbn; [apply IH|exact I].
Qed.

(** Going through a program's calls. *)
Ltac calls :=
  repeat first
    [ exact I
    | discriminate
    | progress cbn [allCalls bind call defer not405 noObjectCall noContentCall]
    | progress intros
    | apply listedObjects_calls
    | apply allCalls_bind
    | apply allCalls_defer
    | match goal with
      | |- _ /\ _ => split
      | |- _ <> _ => let H := fresh in intros H
      | |- allCalls _ (match ?x with _ => _ end) => destruct x
      | |- allCalls _ (let '(_, _) := ?x in _) => destruct x
      end ].

Section HandlerFacts.

Context {ext : Externals}.

Lemma handleUplinkErr_not405 (action : string) (err : error) :
  allCalls not405 (handleUplinkErr action err).
Proof. unfold handleUplinkErr. calls. Qed.

Lemma handleUplinkErr_noObject (action : string) (err : error) :
  allCalls noObjectCall (handleUplinkErr action err).
Proof. unfold handleUplinkErr. calls. Qed.

Lemma closeProject_not405 (p : Project) : allCalls not405 (closeProject p).
Proof. unfold closeProject. calls. Qed.

Lemma closeProject_noObject (p : Project) : allCalls noObjectCall (closeProject p).
Proof. unfold closeProject. calls. Qed.

Lemma servePrefix_not405 (project : Project) (root : breadcrumb)
      (title bucket realPrefix visiblePrefix : string) :
  allCalls not405 (servePrefix project root title bucket realPrefix visiblePrefix).
Proof. unfold servePrefix. calls. Qed.


(** The hosting service never answers 405. *)
Lemma handleHostingService_not405 (handler : Handler) (r : Request) :
  allCalls not405 (handleHostingService handler r).
Proof.
  unfold handleHostingService.
  destruct (net.SplitHostPort (Host r)) as [[host port] [e|]].
  - destruct (strings.Contains (Error e) "missing port in address").
    + calls; try apply handleUplinkErr_not405; try apply closeProject_not405;
        try apply servePrefix_not405; calls.
      all: try apply handleUplinkErr_not405; try apply servePrefix_not405; calls.
      all: try apply handleUplinkErr_not405.
    + calls.
  - calls; try apply handleUplinkErr_not405; try apply closeProject_not405;
      try apply servePrefix_not405; calls.
    all: try apply handleUplinkErr_not405; try apply servePrefix_not405; calls.
    all: try apply handleUplinkErr_not405.
Qed.

Lemma parseRequestPath_calls (p : string) :
  allCalls decoderCall (parseRequestPath p).
Proof.
  rewrite parseRequestPath_cases. cbv zeta. unfold decodeAs.
  repeat match goal with
         | |- allCalls _ (if ?b then _ else _) => destruct b
         end;
    try exact I;
    (apply allCalls_bind; [apply parseAccess_calls|now intros []]).
Qed.


Lemma parseRequestPath_returns (p : string) (t : list Event) (reason : string) :
  ~ exec (parseRequestPath p) t (Panicked reason).
Proof.
  rewrite parseRequestPath_cases. cbv zeta.
  repeat match goal with
         | |- ~ exec (if ?b then _ else _) _ _ => destruct b
         end;
    try (cbn; now intros [_ [=]]);
    intros E; apply exec_decodeAs in E; now destruct E as (a & _ & [=]).
Qed.

Lemma calls_app (t1 t2 : list Event) :
  calls (t1 ++ t2)%list = (calls t1 ++ calls t2)%list.
Proof. apply map_app. Qed.

Lemma observed_app (t1 t2 : list Event) :
  observed (t1 ++ t2)%list = (observed t1 ++ observed t2)%list.
Proof. apply map_app. Qed.

Lemma response_app (t1 t2 : list Event) :
  response (t1 ++ t2)%list = (response t1 ++ response t2)%list.
Proof. unfold response. now rewrite calls_app, filter_app. Qed.

Lemma observed_In_calls (o : Op) (st : Status) (t : list Event) :
  In (o, st) (observed t) -> In o (calls t).
Proof.
  unfold observed, calls. rewrite !in_map_iff.
  intros (ev & [= <- _] & H). now exists ev.
Qed.

Lemma allCalls_In {R : Type} (P : Op -> Prop) (p : Prog R) (t : list Event)
      (out : Outcome R) (o : Op) :
  allCalls P p -> exec p t out -> In o (calls t) -> P o.
Proof.
  intros A E. pose proof (allCalls_exec P p t out A E) as F.
  rewrite Forall_forall in F. apply F.
Qed.

(** The decoder writes nothing to the response. *)
Lemma decoder_response (t : list Event) :
  Forall decoderCall (calls t) -> response t = [].
Proof.
  unfold response. induction (calls t) as [|o l IH]; [reflexivity|].
  intros F. inversion F as [|? ? Ho Hl]; subst. cbn.
  destruct o; cbn in Ho; try contradiction; now apply IH.
Qed.

End HandlerFacts.

Section RouterTheorems.

Context {ext : Externals}.

(** C10.  A request whose host differs from the base host is handled by
    the hosting service whatever its method: [serveHTTP] is then
    [handleHostingService], and the method is never looked at.  A 405
    answer can only be given to a request whose host equals the base
    host. *)
Theorem serveHTTP_foreign_host_any_method :
  (forall (handler : Handler) (r : Request),
      compareHosts (Host r) (url_Host (urlBase handler)) = (false, None) ->
      serveHTTP handler r = handleHostingService handler r)
  /\ (forall (handler : Handler) (r : Request) (t : list Event)
             (out : Outcome (option error)) (msg : string),
         exec (serveHTTP handler r) t out ->
         In (HttpError msg 405) (calls t) ->
         compareHosts (Host r) (url_Host (urlBase handler)) = (true, None)).
Proof.
  split.
  - intros handler r H. unfold serveHTTP. now rewrite H.
  - intros handler r t out msg E I.
    unfold serveHTTP in E.
    destruct (compareHosts (Host r) (url_Host (urlBase handler)))
      as [[|] [e|]]; cbn in E.
    + destruct E as [-> _]. destruct I.
    + reflexivity.
    + destruct E as [-> _]. destruct I.
    + pose proof (allCalls_In _ _ _ _ _ (handleHostingService_not405 handler r) E I)
        as N.
      now cbn in N.
Qed.

Lemma decoder_no_lookup (t : list Event) (p : Project) (b k : string) (st : Status) :
  Forall decoderCall (calls t) -> ~ In (StatObject p b k, st) (observed t).
Proof.
  intros F I. apply observed_In_calls in I.
  rewrite Forall_forall in F. exact (F _ I).
Qed.


Lemma no_lookup_in {R : Type} (prog : Prog R) (t : list Event) (out : Outcome R) :
  allCalls noObjectCall prog -> exec prog t out ->
  forall p b k st, ~ In (StatObject p b k, st) (observed t).
Proof.
  intros A E p b k st I. apply observed_In_calls in I.
  exact (allCalls_In noObjectCall _ _ _ _ A E I).
Qed.



End RouterTheorems.

Section HostingFacts.

Context {ext : Externals}.

Lemma cons_eq {A : Type} (a b : A) (l l' : list A) :
  a :: l = b :: l' -> a = b /\ l = l'.
Proof.
  intros H. split; [exact (f_equal (hd a) H)|exact (f_equal (@tl A) H)].
Qed.

Lemma lookups_app (t1 t2 : list Event) :
  lookups (t1 ++ t2)%list = (lookups t1 ++ lookups t2)%list.
Proof. unfold lookups. now rewrite observed_app, filter_app. Qed.

(** Closing the project is quiet and returns. *)
Lemma exec_closeProject (p : Project) (t : list Event) (out : Outcome unit) :
  exec (closeProject p) t out ->
  lookups t = [] /\ response t = [] /\ out = Done tt.
Proof.
  unfold closeProject. cbn. intros ([e|] & t1 & -> & E); cbn in E.
  - destruct E as ([] & t2 & -> & -> & ->). now repeat split.
  - destruct E as [-> ->]. now repeat split.
Qed.

(** An error handed to [handleUplinkErr] is written as its page. *)
Lemma exec_handleUplinkErr (action : string) (e : error) (t : list Event)
      (out : Outcome unit) :
  exec (handleUplinkErr action e) t out ->
  lookups t = [] /\ response t = errorPage e /\ out = Done tt.
Proof.
  unfold handleUplinkErr, errorPage.
  destruct (errors_Is e ErrBucketNotFound);
    [|destruct (errors_Is e ErrObjectNotFound)]; cbn.
  - intros ([] & t1 & -> & [e'|] & t2 & -> & E); cbn in E.
    + destruct E as ([] & t3 & -> & -> & ->). now repeat split.
    + destruct E as [-> ->]. now repeat split.
  - intros ([] & t1 & -> & [e'|] & t2 & -> & E); cbn in E.
    + destruct E as ([] & t3 & -> & -> & ->). now repeat split.
    + destruct E as [-> ->]. now repeat split.
  - intros ([] & t1 & -> & [] & t2 & -> & -> & ->). now repeat split.
Qed.

(** An error that is surfaced: its page, and the error returned. *)
Lemma exec_surface (action : string) (e : error) (t : list Event)
      (out : Outcome (option error)) :
  exec (handleUplinkErr action e ;; Ret (Some e)) t out ->
  lookups t = [] /\ response t = errorPage e /\ out = Done (Some e).
Proof.
  intros E. apply exec_bind in E.
  destruct E as [(t1 & t2 & [] & E1 & [-> ->] & ->)|(reason & E1 & _)];
    apply exec_handleUplinkErr in E1 as (L & R' & D); [|discriminate D].
  now rewrite app_nil_r.
Qed.

Lemma exec_listedObjects (items : list Object) (realPrefix : string)
      (objects : list ListedObject) (t : list Event)
      (out : Outcome (list ListedObject)) :
  exec (listedObjects items realPrefix objects) t out ->
  t = []
  /\ out = if forallb (coversPrefix realPrefix) items
           then Done (objects ++ map (listed realPrefix) items)%list
           else Panicked "slice bounds out of range".
Proof.
  revert objects. induction items as [|item rest IH]; intros objects.
  - cbn. intros [-> ->]. now rewrite app_nil_r.
  - cbn [listedObjects forallb map]. unfold sliceFrom, coversPrefix at 1.
    destruct (String.length realPrefix <=? String.length (obj_Key item))%nat;
      cbn [bind andb].
    + intros E. apply IH in E as [-> ->]. split; [reflexivity|].
      destruct (forallb (coversPrefix realPrefix) rest); [|reflexivity].
      now rewrite <- app_assoc.
    + cbn. now intros [-> ->].
Qed.

(** Under the deferred close, the trace is the body's followed by the
    close's, and the lookups, the response and the outcome are the
    body's. *)
Lemma exec_defer_close_parts {R : Type} (p : Project) (body : Prog R)
      (t : list Event) (out : Outcome R) :
  exec (defer (closeProject p) body) t out ->
  exists t1 t2, exec body t1 out /\ t = (t1 ++ t2)%list
                /\ lookups t2 = [] /\ response t2 = [].
Proof.
  intros E. apply exec_defer in E.
  destruct E as (t1 & t2 & out1 & out2 & E1 & E2 & -> & ->).
  apply exec_closeProject in E2 as (L & R' & ->).
  now exists t1, t2.
Qed.

(** What [servePrefix] does, call by call. *)
Lemma exec_servePrefix_shape (project : Project) (home : breadcrumb)
      (title bucket realPrefix visiblePrefix : string)
      (t : list Event) (out : Outcome (option error)) :
  exec (servePrefix project home title bucket realPrefix visiblePrefix) t out ->
  exists items iterErr t',
    t = event (ListObjects project bucket realPrefix) (items, iterErr) :: t'
    /\ if forallb (coversPrefix realPrefix) items then
         match iterErr with
         | Some err => t' = [] /\ out = Done (Some err)
         | None =>
             exists answer,
               t' = [event (ExecuteTemplate "prefix-listing.html"
                              (PrefixListing title (crumbsOf home visiblePrefix)
                                 (map (listed realPrefix) items))) answer]
               /\ out = Done answer
         end
       else t' = [] /\ out = Panicked "slice bounds out of range".
Proof.
  unfold servePrefix, crumbsOf. cbn [bind call exec].
  intros ([items iterErr] & t' & -> & E). exists items, iterErr, t'.
  split; [reflexivity|].
  apply exec_bind in E.
  destruct E as [(t1 & t2 & objects & E1 & E2 & ->)|(reason & E1 & ->)];
    apply exec_listedObjects in E1 as [-> E1];
    destruct (forallb (coversPrefix realPrefix) items); try discriminate E1.
  - injection E1 as <-. cbn [app] in *. destruct iterErr as [err|].
    + exact E2.
    + cbn in E2. destruct E2 as (answer & t3 & -> & -> & ->). eauto.
  - injection E1 as <-. now split.
Qed.

Lemma response_between (pre t1 t2 : list Event) :
  response pre = [] -> response t2 = [] ->
  response (pre ++ t1 ++ t2)%list = response t1.
Proof.
  intros P Q. now rewrite !response_app, P, Q, app_nil_r.
Qed.

Lemma In_between (ev : Event) (pre t1 t2 : list Event) :
  In ev t1 -> In ev (pre ++ t1 ++ t2)%list.
Proof.
  intros H. apply in_or_app. right. apply in_or_app. now left.
Qed.

(** The second half of [handleHostingService], under the deferred close
    and after the calls [pre]. *)
Lemma exec_probesIndex (r : Request) (project : Project)
      (host bucket key : string) (pre t : list Event)
      (out : Outcome (option error)) :
  response pre = [] ->
  exec (defer (closeProject project)
          (o <- call (StatObject project bucket (key ++ "index.html")) ;;
           match o with
           | Ok o =>
               call (ServeContent (key ++ "index.html") (obj_Created o) project o bucket) ;;
               Ret None
           | Err err =>
               if negb (errors_Is err ErrObjectNotFound) then
                 handleUplinkErr "stat object" err ;; Ret (Some err)
               else
                 err <- servePrefix project
                          {| Prefix := host; crumb_URL := "/" |}
                          host bucket key (strings.TrimPrefix (URL_Path r) "/") ;;
                 match err with
                 | Some err => handleUplinkErr "list prefix" err ;; Ret (Some err)
                 | None => Ret None
                 end
           end)) t out ->
  probesIndex project bucket host key (strings.TrimPrefix (URL_Path r) "/")
              (pre ++ t)%list out (lookups t).
Proof.
  intros P E. apply exec_defer_close_parts in E.
  destruct E as (tb & tc & E & -> & LC & RC).
  rewrite lookups_app, LC, app_nil_r. unfold probesIndex. cbv zeta.
  cbn [bind call exec] in E. destruct E as (x & t1 & -> & E).
  destruct x as [o|e].
  - left. cbn in E. destruct E as ([] & t2 & -> & -> & ->).
    split; [reflexivity|]. exists o. split; [|split; [|reflexivity]].
    + apply In_between. now left.
    + now rewrite response_between.
  - change (lookups (event (StatObject project bucket (key ++ "index.html")) (Err e) :: t1))
      with ((StatObject project bucket (key ++ "index.html"), Failed e) :: lookups t1).
    assert (RB : response (pre ++ (event (StatObject project bucket (key ++ "index.html"))
                                     (Err e) :: t1) ++ tc)
                 = response t1).
    { now rewrite response_between. }
    destruct (errors_Is e ErrObjectNotFound) eqn:N; cbn [negb] in E.
    + right. right. apply exec_bind in E.
      destruct E as [(t2 & t3 & err & E1 & E2 & ->)|(reason & E1 & ->)];
        apply exec_servePrefix_shape in E1 as (items & iterErr & tl & -> & S);
        exists e, (error_status iterErr).
      * match type of RB with
        | response ?w = _ =>
            assert (IL : forall ev,
                       In ev (event (ListObjects project bucket key) (items, iterErr) :: tl) ->
                       In ev w)
        end.
        { intros ev H. apply In_between. right. apply in_or_app. now left. }
        destruct (forallb (coversPrefix key) items) eqn:CP;
          [|destruct S as [_ Q]; discriminate Q].
        assert (L3 : lookups t3 = []
                     /\ match err with
                        | Some err' => response t3 = errorPage err' /\ out = Done (Some err')
                        | None => response t3 = [] /\ out = Done None
                        end).
        { destruct err as [err'|].
          - apply exec_surface in E2 as (L2 & R2 & ->). now repeat split.
          - cbn in E2. destruct E2 as [-> ->]. now repeat split. }
        destruct L3 as [L3 O3].
        change (lookups ((event (ListObjects project bucket key) (items, iterErr) :: tl)
                           ++ t3))
          with ((ListObjects project bucket key, error_status iterErr)
                  :: lookups (tl ++ t3)).
        change (response ((event (ListObjects project bucket key) (items, iterErr) :: tl)
                            ++ t3))
          with (response (tl ++ t3)) in RB.
        rewrite lookups_app, L3, app_nil_r.
        rewrite (response_app tl t3) in RB.
        unfold listsPrefix.
        destruct iterErr as [ie|].
        -- destruct S as [-> Q]. injection Q as ->. destruct O3 as [R3 ->].
           split; [reflexivity|]. split; [exact N|].
           exists items, (Some ie). split; [apply IL; now left|]. rewrite CP.
           unfold surfacesError. rewrite RB. now split.
        -- destruct S as (answer & -> & Q). injection Q as ->.
           split; [reflexivity|]. split; [exact N|].
           exists items, None. split; [apply IL; now left|]. rewrite CP, RB.
           cbv zeta. exists answer. split; [apply IL; right; now left|].
           destruct answer as [ae|]; destruct O3 as [R3 ->]; rewrite R3;
             now split.
      * match type of RB with
        | response ?w = _ =>
            assert (IL : In (event (ListObjects project bucket key) (items, iterErr)) w)
        end.
        { apply In_between. right. now left. }
        destruct (forallb (coversPrefix key) items) eqn:CP.
        { destruct iterErr as [ie|]; [destruct S as [_ Q]; discriminate Q|].
          destruct S as (answer & _ & Q). discriminate Q. }
        destruct S as [-> Q]. injection Q as ->.
        split; [reflexivity|]. split; [exact N|].
        unfold listsPrefix. exists items, iterErr. split; [exact IL|].
        rewrite CP, RB. now split.
    + right. left. exists e.
      apply exec_surface in E as (L & R' & ->). rewrite L.
      split; [reflexivity|]. split; [exact N|].
      unfold surfacesError. now rewrite RB.
Qed.

(** C9.  In custom-domain mode, once the access is fetched and the
    project is open, a non-empty key is looked up first, and the object
    found there is served: the response is the content of the object the
    lookup answered with.  Only when that lookup reports
    object-not-found and the key ends in a slash, or when the key is
    empty, is the index document [key ++ "index.html"] probed, and served
    when found; only when the probe reports object-not-found as well is
    the prefix listed, and the listing answered: the listing page with
    one object per listed item, or the page of the listing's error.  Any
    other failure of a lookup is surfaced at once, as its error page and
    the returned error, with no further lookup. *)
Theorem hosting_service_fallbacks
        (handler : Handler) (r : Request) (host root : string)
        (access access' : Access) (project : Project)
        (t t' : list Event) (out : Outcome (option error)) :
  exec (handleHostingService handler r) t out ->
  t = event (FetchAccessForHost host) (Ok (access, root))
      :: event (OpenProject access') (Ok project) :: t' ->
  let bucket := fst (determineBucketAndObjectKey root (URL_Path r)) in
  let key := snd (determineBucketAndObjectKey root (URL_Path r)) in
  let stat (k : string) (st : Status) := (StatObject project bucket k, st) in
  let indexOrListing :=
    probesIndex project bucket host key (strings.TrimPrefix (URL_Path r) "/")
                t' out in
  access' = access
  /\ if key =? "" then indexOrListing (lookups t')
     else
       (lookups t' = [stat key Succeeded] /\ servesObject project bucket key t' out)
       \/ (exists e, lookups t' = [stat key (Failed e)]
                     /\ (strings.HasSuffix key "/" = false
                         \/ errors_Is e ErrObjectNotFound = false)
                     /\ surfacesError e t' out)
       \/ (exists e l, lookups t' = stat key (Failed e) :: l
                       /\ strings.HasSuffix key "/" = true
                       /\ errors_Is e ErrObjectNotFound = true
                       /\ indexOrListing l).
Proof.
  intros E T. unfold handleHostingService in E.
  destruct (net.SplitHostPort (Host r)) as [[h port] err].
  set (hostOrErr := match err with
                    | Some err =>
                        if strings.Contains (Error err) "missing port in address"
                        then Ok (Host r) else Err err
                    | None => Ok h
                    end) in E.
  destruct hostOrErr as [host0|e0].
  2:{ cbn in E. destruct E as ([] & t1 & -> & _).
      apply cons_eq in T as [T _]. apply (f_equal fetchAnswer) in T.
      discriminate T. }
  cbn [bind call exec] in E. destruct E as (x & t1 & -> & E).
  apply cons_eq in T as [T1 T2]. apply (f_equal fetchAnswer) in T1. cbn in T1.
  injection T1 as -> ->. cbn [bind call exec] in E.
  destruct E as (y & t2 & -> & E).
  apply cons_eq in T2 as [T2 <-]. apply (f_equal openAnswer) in T2. cbn in T2.
  injection T2 as -> ->. split; [reflexivity|].
  destruct (determineBucketAndObjectKey root (URL_Path r)) as [bucket key].
  cbn [fst snd]. cbv zeta in E.
  destruct (key =? "") eqn:K; cbn [negb] in E.
  - exact (exec_probesIndex r project host bucket key [] t2 out eq_refl E).
  - cbn [defer bind call exec] in E. destruct E as (x & t3 & -> & E).
    change (lookups (event (StatObject project bucket key) x :: t3))
      with ((StatObject project bucket key, result_status x) :: lookups t3).
    change (response (event (StatObject project bucket key) x :: t3))
      with (response t3).
    destruct x as [o|e].
    + left. apply exec_defer_close_parts in E.
      destruct E as (tb & tc & E & -> & LC & RC).
      cbn in E. destruct E as ([] & t4 & -> & -> & ->).
      rewrite lookups_app, LC. split; [reflexivity|].
      exists o. split; [now left|]. split; [|reflexivity].
      change (response (event (StatObject project bucket key) (Ok o)
                          :: [event (ServeContent key (obj_Created o) project o bucket) tt]
                          ++ tc))
        with (ServeContent key (obj_Created o) project o bucket :: response tc).
      now rewrite RC.
    + assert (Surf : negb (strings.HasSuffix key "/")
                     || negb (errors_Is e ErrObjectNotFound) = true ->
                     exec (defer (closeProject project)
                             (handleUplinkErr "stat object" e ;; Ret (Some e))) t3 out ->
                     lookups t3 = []
                     /\ surfacesError e (event (StatObject project bucket key) (Err e) :: t3)
                                      out).
      { intros _ E'. apply exec_defer_close_parts in E'.
        destruct E' as (tb & tc & E' & -> & LC & RC).
        apply exec_surface in E' as (L & R' & ->).
        rewrite lookups_app, L, LC. split; [reflexivity|].
        split; [|reflexivity].
        change (response (event (StatObject project bucket key) (Err e) :: tb ++ tc))
          with (response (tb ++ tc)).
        now rewrite response_app, R', RC, app_nil_r. }
      destruct (strings.HasSuffix key "/") eqn:S;
        [destruct (errors_Is e ErrObjectNotFound) eqn:N|]; cbn [negb orb] in E.
      * right. right. exists e, (lookups t3). repeat split; trivial.
        exact (exec_probesIndex r project host bucket key
                 [event (StatObject project bucket key) (Err e)] t3 out eq_refl E).
      * right. left. exists e. destruct (Surf eq_refl E) as [-> SE].
        repeat split; auto; apply SE.
      * right. left. exists e. destruct (Surf eq_refl E) as [-> SE].
        repeat split; auto; apply SE.
Qed.

End HostingFacts.

Section RouterWitnesses.

#[local] Existing Instance demo.

Lemma serveHTTP_foreign_host_any_method_witness :
serveHTTP demoHandler (demoRequest "POST" "other.test" "/x")
= handleHostingService demoHandler (demoRequest "POST" "other.test" "/x")
/\ compareHosts "link.test:443" "link.test" = (true, None).
Proof.
destruct (@serveHTTP_foreign_host_any_method demo) as (A & B).
split.
- apply (A demoHandler (demoRequest "POST" "other.test" "/x")). reflexivity.
- apply (B demoHandler (demoRequest "POST" "link.test:443" "/x")
           (fst (run happyWorld
                   (serveHTTP demoHandler (demoRequest "POST" "link.test:443" "/x")) tt))
           (snd (run happyWorld
                   (serveHTTP demoHandler (demoRequest "POST" "link.test:443" "/x")) tt))
           "method not allowed").
  + apply run_exec.
  + left. reflexivity.
Defined.


Lemma hosting_service_fallbacks_witness :
(lookups (skipn 2 (fst (run happyWorld
                          (handleHostingService demoHandler
                             (demoRequest "GET" "other.test" "/x")) tt)))
 = [(@StatObject demo tt "bucket" "site/x", Succeeded)]
 /\ servesObject tt "bucket" "site/x"
      (skipn 2 (fst (run happyWorld
                       (handleHostingService demoHandler
                          (demoRequest "GET" "other.test" "/x")) tt)))
      (snd (run happyWorld
              (handleHostingService demoHandler
                 (demoRequest "GET" "other.test" "/x")) tt)))
/\ exists e l,
     lookups (skipn 2 (fst (run emptySiteWorld
                              (handleHostingService demoHandler
                                 (demoRequest "GET" "other.test" "/dir/")) tt)))
     = (@StatObject demo tt "bucket" "site/dir/", Failed e) :: l
     /\ strings.HasSuffix "site/dir/" "/" = true
     /\ errors_Is e ErrObjectNotFound = true
     /\ probesIndex tt "bucket" "other.test" "site/dir/" "dir/"
          (skipn 2 (fst (run emptySiteWorld
                           (handleHostingService demoHandler
                              (demoRequest "GET" "other.test" "/dir/")) tt)))
          (snd (run emptySiteWorld
                  (handleHostingService demoHandler
                     (demoRequest "GET" "other.test" "/dir/")) tt))
          l.
Proof.
split.
- destruct (@hosting_service_fallbacks demo demoHandler
              (demoRequest "GET" "other.test" "/x")
              "other.test" "bucket/site" "grant" "grant" tt
              _ (skipn 2 (fst (run happyWorld
                                 (handleHostingService demoHandler
                                    (demoRequest "GET" "other.test" "/x")) tt)))
              _
              (run_exec happyWorld
                 (handleHostingService demoHandler
                    (demoRequest "GET" "other.test" "/x")) tt)
              eq_refl)
    as (_ & H).
  destruct H as [H|[(e & L & _)|(e & l & L & _)]].
  + exact H.
  + discriminate L.
  + discriminate L.
- destruct (@hosting_service_fallbacks demo demoHandler
              (demoRequest "GET" "other.test" "/dir/")
              "other.test" "bucket/site" "grant" "grant" tt
              _ (skipn 2 (fst (run emptySiteWorld
                                 (handleHostingService demoHandler
                                    (demoRequest "GET" "other.test" "/dir/")) tt)))
              _
              (run_exec emptySiteWorld
                 (handleHostingService demoHandler
                    (demoRequest "GET" "other.test" "/dir/")) tt)
              eq_refl)
    as (_ & H).
  destruct H as [[L _]|[(e & L & _)|H]].
  + discriminate L.
  + discriminate L.
  + exact H.
Defined.


End RouterWitnesses.

(* ================================================================== *)
(** * More about [compareHosts]                                        *)
(* ================================================================== *)

Lemma compareHosts_effective (u1 u2 : string) :
  compareHosts u1 u2 =
  match effectiveHost u1 with
  | Err e => (false, Some e)
  | Ok h1 =>
      match effectiveHost u2 with
      | Err e => (false, Some e)
      | Ok h2 => (h1 =? h2, None)
      end
  end.
Proof.
  unfold compareHosts, effectiveHost.
  destruct (net.SplitHostPort u1) as [[h1 p1] [e1|]],
           (net.SplitHostPort u2) as [[h2 p2] [e2|]];
    repeat match goal with
           | |- context [if strings.Contains ?a ?b then _ else _] =>
               destruct (strings.Contains a b)
           end;
    try reflexivity; now destruct (_ =? _).
Qed.

Lemma effectiveHost_plain (h : string) :
  plainHost h = true -> effectiveHost h = Ok h.
Proof.
  intros H. unfold effectiveHost.
  rewrite SplitHostPort_no_colon by now apply plainHost_parts.
  unfold net.addrErr. now rewrite missingPort_recognised.
Qed.

Lemma effectiveHost_plain_port (h p : string) :
  plainHost h = true -> plainHost p = true ->
  effectiveHost (h ++ ":" ++ p) = Ok h.
Proof.
  intros H P. unfold effectiveHost. now rewrite SplitHostPort_plain.
Qed.

(** Host equality as [compareHosts] decides it is symmetric and
    transitive, and an error never comes with the answer true. *)
Theorem compareHosts_partial_equivalence :
  (forall u1 u2 : string,
      compareHosts u1 u2 = (true, None) -> compareHosts u2 u1 = (true, None))
  /\ (forall u1 u2 u3 : string,
         compareHosts u1 u2 = (true, None) ->
         compareHosts u2 u3 = (true, None) ->
         compareHosts u1 u3 = (true, None))
  /\ (forall (u1 u2 : string) (equal : bool) (e : error),
         compareHosts u1 u2 = (equal, Some e) -> equal = false).
Proof.
  repeat apply conj.
  - intros u1 u2. rewrite !compareHosts_effective.
    destruct (effectiveHost u1) as [h1|e1], (effectiveHost u2) as [h2|e2];
      try discriminate.
    now rewrite String.eqb_sym.
  - intros u1 u2 u3. rewrite !compareHosts_effective.
    destruct (effectiveHost u1) as [h1|e1], (effectiveHost u2) as [h2|e2],
             (effectiveHost u3) as [h3|e3]; try discriminate.
    intros [= E12] [= E23]. apply String.eqb_eq in E12, E23. subst.
    now rewrite String.eqb_refl.
  - intros u1 u2 equal e. rewrite compareHosts_effective.
    destruct (effectiveHost u1) as [h1|e1]; [|now intros [= <- _]].
    destruct (effectiveHost u2) as [h2|e2]; [discriminate|now intros [= <- _]].
Qed.

Lemma compareHosts_partial_equivalence_witness :
  compareHosts "website.test" "website.test:443" = (true, None)
  /\ compareHosts "website.test:443" "website.test:880" = (true, None)
  /\ false = false.
Proof.
  destruct compareHosts_partial_equivalence as (S & T & F).
  split; [|split].
  - apply (S "website.test:443" "website.test"). reflexivity.
  - apply (T "website.test:443" "website.test" "website.test:880"); reflexivity.
  - apply (F "a:b:c" "website.test" false
             (AddrError "too many colons in address" "a:b:c")). reflexivity.
Defined.

(** A port on a host without colon or bracket never matters: with or
    without it, on either side, [compareHosts] answers the same. *)
Theorem compareHosts_port_irrelevant (h p u : string) :
  plainHost h = true -> plainHost p = true ->
  compareHosts (h ++ ":" ++ p) u = compareHosts h u
  /\ compareHosts u (h ++ ":" ++ p) = compareHosts u h.
Proof.
  intros H P. rewrite !compareHosts_effective.
  rewrite (effectiveHost_plain_port h p H P), (effectiveHost_plain h H).
  split; reflexivity.
Qed.

Lemma compareHosts_port_irrelevant_witness :
  compareHosts ("192.168.0.1" ++ ":" ++ "8080") "[::1]:443"
  = compareHosts "192.168.0.1" "[::1]:443"
  /\ compareHosts "[::1]:443" ("192.168.0.1" ++ ":" ++ "8080")
     = compareHosts "[::1]:443" "192.168.0.1".
Proof.
  apply (compareHosts_port_irrelevant "192.168.0.1" "8080" "[::1]:443");
    reflexivity.
Defined.

(* ================================================================== *)
(** * More about [determineBucketAndObjectKey]                         *)
(* ================================================================== *)

Lemma endsInSlash_app (s : string) : endsInSlash (s ++ "/") = true.
Proof.
  unfold endsInSlash. induction s as [|a s IH]; [reflexivity|].
  cbn [append]. destruct s as [|b s]; [reflexivity|]. exact IH.
Qed.

Lemma prefix_app (s t : string) : String.prefix s (s ++ t) = true.
Proof.
  induction s as [|a s IH]; cbn; [now destruct t|].
  destruct (ascii_dec a a); [exact IH|congruence].
Qed.

Lemma append_nil_r (s : string) : s ++ "" = s.
Proof. induction s as [|a s IH]; cbn; [reflexivity|]. now rewrite IH. Qed.

Lemma append_eq_nil (s t : string) : s ++ t = "" -> s = "" /\ t = "".
Proof. destruct s; cbn; [tauto|discriminate]. Qed.

(** The bucket never contains a slash, and the key always lies under the
    root's prefix: it starts with what follows the first slash of the
    root, and with a slash after that unless the prefix is empty. *)
Theorem determineBucketAndObjectKey_under_prefix (root urlPath : string) :
  hasByte "/" (fst (determineBucketAndObjectKey root urlPath)) = false
  /\ strings.HasPrefix (snd (determineBucketAndObjectKey root urlPath))
                       (afterSlash root) = true
  /\ (afterSlash root <> "" ->
      exists rest,
        snd (determineBucketAndObjectKey root urlPath) = afterSlash root ++ rest
        /\ (strings.HasSuffix (afterSlash root) "/" = true
            \/ strings.HasPrefix rest "/" = true)).
Proof.
  rewrite determine_eq. cbn [fst snd]. repeat apply conj.
  - induction root as [|a root IH]; cbn; [reflexivity|].
    destruct (Ascii.eqb a "/") eqn:E; cbn; [reflexivity|]. now rewrite E.
  - unfold strings.HasPrefix, specPrefix.
    destruct (negb (afterSlash root =? "") && negb (endsInSlash (afterSlash root)));
      rewrite ?append_assoc; apply prefix_app.
  - intros N. unfold specPrefix. rewrite HasSuffix_slash.
    apply String.eqb_neq in N. rewrite N. cbn [negb andb].
    destruct (endsInSlash (afterSlash root)); cbn [negb].
    + exists (specSuffix urlPath). split; [reflexivity|now left].
    + exists ("/" ++ specSuffix urlPath). rewrite append_assoc.
      split; [reflexivity|]. right. unfold strings.HasPrefix.
      change ("/" ++ specSuffix urlPath) with (String "/" (specSuffix urlPath)).
      now rewrite prefix_one.
Qed.

Lemma determineBucketAndObjectKey_under_prefix_witness :
  exists rest,
    snd (determineBucketAndObjectKey "bucket/site" "/a.html") = "site" ++ rest
    /\ (strings.HasSuffix "site" "/" = true \/ strings.HasPrefix rest "/" = true).
Proof.
  destruct (determineBucketAndObjectKey_under_prefix "bucket/site" "/a.html")
    as (_ & _ & H).
  apply H. discriminate.
Defined.

(** The key is empty exactly for the root of a site without prefix. *)
Theorem determineBucketAndObjectKey_empty_key (root urlPath : string) :
  snd (determineBucketAndObjectKey root urlPath) = ""
  <-> afterSlash root = "" /\ (urlPath = "" \/ urlPath = "/").
Proof.
  rewrite determine_eq. cbn [snd]. unfold specPrefix. split.
  - intros E. apply append_eq_nil in E as [P S].
    assert (R : afterSlash root = "").
    { destruct (afterSlash root =? "") eqn:N; [now apply String.eqb_eq|].
      cbn [negb andb] in P.
      destruct (negb (endsInSlash (afterSlash root))); [|exact P].
      now apply append_eq_nil in P as [_ [=]]. }
    split; [exact R|].
    destruct urlPath as [|a u]; [now left|]. right. cbn in S.
    destruct (Ascii.eqb a "/") eqn:A; [|discriminate S].
    apply Ascii.eqb_eq in A. now subst.
  - intros [-> [-> | ->]]; reflexivity.
Qed.

(** One more slash at the end of a root that does not end in one changes
    nothing, and neither does one more slash in front of a URL path that
    does not start with one. *)
Theorem determineBucketAndObjectKey_optional_slashes (root urlPath : string) :
  (strings.HasSuffix root "/" = false ->
   determineBucketAndObjectKey (root ++ "/") urlPath
   = determineBucketAndObjectKey root urlPath)
  /\ (strings.HasPrefix urlPath "/" = false ->
      determineBucketAndObjectKey root ("/" ++ urlPath)
      = determineBucketAndObjectKey root urlPath).
Proof.
  rewrite !determine_eq. split.
  - rewrite HasSuffix_slash. intros E.
    destruct (hasByte "/" root) eqn:S.
    + assert (B : forall s, hasByte "/" s = true ->
                  beforeSlash (s ++ "/") = beforeSlash s
                  /\ afterSlash (s ++ "/") = afterSlash s ++ "/").
      { induction s as [|a s IH]; cbn; [discriminate|].
        destruct (Ascii.eqb a "/"); cbn; [now split|].
        intros H. destruct (IH H) as [-> ->]. now split. }
      destruct (B root S) as [-> ->].
      assert (A : forall s, hasByte "/" s = true -> endsInSlash s = false ->
                  afterSlash s <> "" /\ endsInSlash (afterSlash s) = false).
      { induction s as [|a s IH]; cbn; [discriminate|].
        destruct (Ascii.eqb a "/") eqn:Ea; cbn.
        - intros _ H. unfold endsInSlash in *. cbn in H.
          destruct s as [|b s]; [now rewrite Ea in H|]. split; [discriminate|exact H].
        - intros H1 H2. apply IH; [exact H1|].
          unfold endsInSlash in *. cbn in H2.
          destruct s as [|b s]; [discriminate H1|exact H2]. }
      destruct (A root S E) as [N F].
      unfold specPrefix. rewrite endsInSlash_app, F.
      apply String.eqb_neq in N. rewrite N. cbn [negb andb].
      destruct (afterSlash root ++ "/" =? ""); reflexivity.
    + rewrite (noSlash_before root S), (noSlash_after root S).
      change (root ++ "/") with (root ++ "/" ++ "").
      rewrite beforeSlash_join, afterSlash_join by assumption.
      reflexivity.
  - unfold strings.HasPrefix. intros E. f_equal. f_equal.
    destruct urlPath as [|a u]; [reflexivity|].
    rewrite prefix_one in E. cbn. now rewrite E.
Qed.

Lemma determineBucketAndObjectKey_optional_slashes_witness :
  determineBucketAndObjectKey ("bucket/site" ++ "/") "a.html"
  = determineBucketAndObjectKey "bucket/site" "a.html"
  /\ determineBucketAndObjectKey "bucket/site" ("/" ++ "a.html")
     = determineBucketAndObjectKey "bucket/site" "a.html".
Proof.
  destruct (determineBucketAndObjectKey_optional_slashes "bucket/site" "a.html")
    as (A & B).
  split; [apply A|apply B]; reflexivity.
Defined.

(* ================================================================== *)
(** * More about the credential decoder and the path parser            *)
(* ================================================================== *)

Lemma split_at_slash (s : string) :
  hasByte "/" s = true -> s = beforeSlash s ++ "/" ++ afterSlash s.
Proof.
  induction s as [|a s IH]; cbn; [discriminate|].
  destruct (Ascii.eqb a "/") eqn:E; cbn.
  - apply Ascii.eqb_eq in E. now subst.
  - intros H. f_equal. now apply IH.
Qed.

Lemma beforeSlash_slash_free (s : string) : hasByte "/" (beforeSlash s) = false.
Proof.
  induction s as [|a s IH]; cbn; [reflexivity|].
  destruct (Ascii.eqb a "/") eqn:E; cbn; [reflexivity|]. now rewrite E.
Qed.

Section DecoderExtras.

Context {ext : Externals}.

Lemma parseAccess_ok_trace (token : string) (t : list Event) (a : Access) :
  exec (parseAccess token) t (Done (Ok a)) ->
  exists payload version,
    CheckDecode token = (payload, version, None)
    /\ ((version = Byte.x00 /\ t = [event (ParseAccess token) (Ok a)])
        \/ (version = versionAccessKeyID
            /\ exists authResp,
                Public authResp = true
                /\ t = [event (Resolve token) (Ok authResp);
                        event (ParseAccess (AccessGrant authResp)) (Ok a)])).
Proof.
  unfold parseAccess.
  destruct (CheckDecode token) as [[payload version] [e|]]; cbn.
  - now intros [_ [=]].
  - intros E. exists payload, version. split; [reflexivity|].
    destruct (Byte.eqb version versionAccessKeyID) eqn:V1.
    + apply Byte.byte_dec_bl in V1. right. split; [exact V1|].
      cbn in E. destruct E as (x & t1 & -> & E).
      destruct x as [[grant pub]|e]; cbn in E.
      * destruct pub; cbn in E.
        -- destruct E as (y & t2 & -> & -> & [= ->]).
           now exists {| AccessGrant := grant; Public := true |}.
        -- now destruct E as [_ [=]].
      * now destruct E as [_ [=]].
    + destruct (Byte.eqb version Byte.x00) eqn:V0; cbn in E.
      * apply Byte.byte_dec_bl in V0. left. split; [exact V0|].
        now destruct E as (y & t2 & -> & -> & [= ->]).
      * now destruct E as [_ [=]].
Qed.

(** What a decoded access means: the token passed [base58.CheckDecode],
    and the grant is the answer of the storage client's parser, either to
    the token itself (version 0) or to the public grant the resolver gave
    for the token (version 1).  There is no other way to an access. *)
Theorem parseAccess_success (token : string) (t : list Event) (a : Access) :
  exec (parseAccess token) t (Done (Ok a)) ->
  exists payload version,
    CheckDecode token = (payload, version, None)
    /\ ((version = Byte.x00 /\ t = [event (ParseAccess token) (Ok a)])
        \/ (version = versionAccessKeyID
            /\ exists authResp,
                Public authResp = true
                /\ t = [event (Resolve token) (Ok authResp);
                        event (ParseAccess (AccessGrant authResp)) (Ok a)])).
Proof. apply parseAccess_ok_trace. Qed.

(** The resolver is consulted only for a token that decodes as an access
    key id, and about that token; the storage client's parser is called at
    most once, and a token that does not decode reaches neither. *)
Theorem parseAccess_calls_made
        (token : string) (t : list Event) (out : Outcome (result Access)) :
  exec (parseAccess token) t out ->
  (forall id, In (Resolve id) (calls t) ->
              id = token
              /\ exists payload,
                  CheckDecode token = (payload, versionAccessKeyID, None))
  /\ (List.length (filter (fun o => match o with
                                    | ParseAccess _ => true
                                    | _ => false
                                    end) (calls t)) <= 1)%nat
  /\ (forall payload version err,
         CheckDecode token = (payload, version, Some err) ->
         t = [] /\ out = Done (Err (New "invalid access"))).
Proof.
  unfold parseAccess.
  destruct (CheckDecode token) as [[payload version] [e|]]; cbn.
  - intros [-> ->]. repeat split; try easy. cbn. lia.
  - destruct (Byte.eqb version versionAccessKeyID) eqn:V1; cbn.
    + apply Byte.byte_dec_bl in V1. subst version.
      intros (x & t1 & -> & E). destruct x as [[grant [|]]|e]; cbn in E.
      * destruct E as (y & t2 & -> & -> & ->). repeat split; cbn; try lia.
        -- now destruct H as [[= <-]|[[=]|[]]].
        -- destruct H as [[= <-]|[[=]|[]]]. now exists payload.
        -- discriminate H.
        -- discriminate H.
      * destruct E as [-> ->]. repeat split; cbn; try lia.
        -- now destruct H as [[= <-]|[]].
        -- destruct H as [[= <-]|[]]. now exists payload.
        -- discriminate H.
        -- discriminate H.
      * destruct E as [-> ->]. repeat split; cbn; try lia.
        -- now destruct H as [[= <-]|[]].
        -- destruct H as [[= <-]|[]]. now exists payload.
        -- discriminate H.
        -- discriminate H.
    + destruct (Byte.eqb version Byte.x00); cbn.
      * intros (y & t2 & -> & -> & ->). repeat split; cbn; try lia.
        -- now destruct H as [[=]|[]].
        -- now destruct H as [[=]|[]].
        -- discriminate H.
        -- discriminate H.
      * intros [-> ->]. repeat split; cbn; try lia; try easy.
Qed.

End DecoderExtras.

Section ParserExtras.

Context {ext : Externals}.

Lemma decodeAs_any (raw raw' : bool) (credential b k : string)
      (t : list Event) (res : result Parsed) :
  exec (decodeAs raw credential b k) t (Done (raw', res)) -> raw' = raw.
Proof.
  intros E. apply exec_decodeAs in E. now destruct E as (a & _ & [= -> _]).
Qed.

Lemma parse_rawRequest
        (p : string) (t : list Event) (raw : bool) (res : result Parsed) :
  exec (parseRequestPath p) t (Done (raw, res)) -> raw = rawPath p.
Proof.
  rewrite parseRequestPath_cases. unfold rawPath. cbv zeta.
  destruct (hasByte "/" (strings.TrimPrefix p "/")); cbn [negb andb].
  2:{ cbn. intros [_ [= -> _]]. now rewrite andb_false_r. }
  destruct (hasByte "/" (afterSlash (strings.TrimPrefix p "/"))); cbn [negb andb].
  2:{ intros E. apply decodeAs_any in E. now rewrite andb_false_r. }
  destruct (hasByte "/" (afterSlash (afterSlash (strings.TrimPrefix p "/"))));
    cbn [negb andb].
  2:{ intros E. apply decodeAs_any in E. now rewrite andb_false_r. }
  rewrite !andb_true_r.
  destruct (beforeSlash (strings.TrimPrefix p "/") =? "raw");
    intros E; now apply decodeAs_any in E.
Qed.

Lemma parse_reassembles
        (p : string) (t : list Event) (raw : bool) (parsed : Parsed) :
  exec (parseRequestPath p) t (Done (raw, Ok parsed)) ->
  hasByte "/" (serializedAccess parsed) = false
  /\ hasByte "/" (bucket parsed) = false
  /\ (strings.TrimPrefix p "/"
      = (if raw then "raw/" else "")
          ++ serializedAccess parsed ++ "/" ++ bucket parsed ++ "/" ++ key parsed
      \/ (raw = false /\ key parsed = ""
          /\ strings.TrimPrefix p "/"
             = serializedAccess parsed ++ "/" ++ bucket parsed)).
Proof.
  rewrite parseRequestPath_cases. cbv zeta.
  set (p' := strings.TrimPrefix p "/").
  destruct (hasByte "/" p') eqn:S0; cbn [negb].
  2:{ cbn. now intros [_ [=]]. }
  pose proof (split_at_slash p' S0) as P0.
  destruct (hasByte "/" (afterSlash p')) eqn:S1; cbn [negb].
  2:{ intros E. apply decodeAs_ok in E as (-> & B & K & C).
      rewrite C, B, K. rewrite beforeSlash_slash_free, S1.
      repeat split. right. now repeat split. }
  pose proof (split_at_slash _ S1) as P1.
  destruct (hasByte "/" (afterSlash (afterSlash p'))) eqn:S2; cbn [negb].
  2:{ intros E. apply decodeAs_ok in E as (-> & B & K & C).
      rewrite C, B, K. rewrite !beforeSlash_slash_free.
      repeat split. left. rewrite <- P1. exact P0. }
  pose proof (split_at_slash _ S2) as P2.
  destruct (beforeSlash p' =? "raw") eqn:R;
    intros E; apply decodeAs_ok in E as (-> & B & K & C);
    rewrite C, B, K, !beforeSlash_slash_free; repeat split; left.
  - apply String.eqb_eq in R. rewrite <- P2, <- P1.
    rewrite P0 at 1. now rewrite R.
  - rewrite <- P2, <- P1. exact P0.
Qed.

(** The flag of a raw request is set exactly for a path of four segments
    whose first is "raw", whether or not the credential then decodes: a
    path like "/raw/ACCESS/bucket", without a key, is not a raw request. *)
Theorem parseRequestPath_rawRequest
        (p : string) (t : list Event) (raw : bool) (res : result Parsed) :
  exec (parseRequestPath p) t (Done (raw, res)) -> raw = rawPath p.
Proof. apply parse_rawRequest. Qed.

(** The parts of a parsed path put the path together again: credential and
    bucket are free of slashes, and the path without its leading slash is
    credential, bucket and key joined by slashes, after "raw/" for a raw
    request, or credential and bucket alone when there is no key. *)
Theorem parseRequestPath_reassembles
        (p : string) (t : list Event) (raw : bool) (parsed : Parsed) :
  exec (parseRequestPath p) t (Done (raw, Ok parsed)) ->
  hasByte "/" (serializedAccess parsed) = false
  /\ hasByte "/" (bucket parsed) = false
  /\ (strings.TrimPrefix p "/"
      = (if raw then "raw/" else "")
          ++ serializedAccess parsed ++ "/" ++ bucket parsed ++ "/" ++ key parsed
      \/ (raw = false /\ key parsed = ""
          /\ strings.TrimPrefix p "/"
             = serializedAccess parsed ++ "/" ++ bucket parsed)).
Proof. apply parse_reassembles. Qed.

End ParserExtras.

(* ================================================================== *)
(** * The discipline of the handlers towards the store                 *)
(* ================================================================== *)

Lemma locate_calls {ext : Externals} (Q : Op -> Prop) (db : IPDB)
      (ipBytes : list string) (locations : list Location) :
  (forall ip, Q (GetIPInfos db ip)) ->
  (forall level msg fields, Q (Log level msg fields)) ->
  allCalls Q (locate db ipBytes locations).
Proof.
  intros G L. revert locations.
  induction ipBytes as [|ip rest IH]; intros locations; cbn; [exact I|].
  split; [apply G|]. intros [info|err]; cbn; [apply IH|].
  split; [apply L|]. intros _. apply IH.
Qed.

(** Going through a program's calls, for a predicate unfolded by [unf]. *)
Ltac calls_of unf :=
  repeat first
    [ exact I
    | reflexivity
    | discriminate
    | progress unf
    | progress cbn [allCalls bind call defer]
    | progress intros
    | apply listedObjects_calls
    | apply locate_calls
    | apply allCalls_bind
    | apply allCalls_defer
    | match goal with
      | |- _ /\ _ => split
      | |- allCalls _ (match ?x with _ => _ end) => destruct x
      | |- allCalls _ (let '(_, _) := ?x in _) => destruct x
      end ].

Section DisciplineFacts.

Context {ext : Externals}.

Lemma safe_exec {R : Type} (P : list Event -> Op -> Prop) (p : Prog R)
      (hist t : list Event) (out : Outcome R) :
  safe P hist p -> exec p t out ->
  forall t1 ev t2, t = (t1 ++ ev :: t2)%list ->
                   P (rev t1 ++ hist)%list (projT1 ev).
Proof.
  revert hist t. induction p as [r|reason|o k IH]; intros hist t; cbn.
  - intros _ [-> _] [|? ?] ? ? [=].
  - intros _ [-> _] [|? ?] ? ? [=].
  - intros [Ho Hk] (x & t' & -> & E) t1 ev t2 T.
    destruct t1 as [|e1 t1]; cbn in T.
    + apply cons_eq in T as [<- _]. exact Ho.
    + apply cons_eq in T as [<- ->].
      pose proof (IH x _ _ (Hk x) E t1 ev t2 eq_refl) as H.
      cbn [rev]. now rewrite <- app_assoc.
Qed.

Lemma safe_bind {A B : Type} (P : list Event -> Op -> Prop)
      (m : Prog A) (f : A -> Prog B) (hist : list Event) :
  safe P hist m ->
  (forall a tm, exec m tm (Done a) -> safe P (rev tm ++ hist)%list (f a)) ->
  safe P hist (bind m f).
Proof.
  revert hist. induction m as [r|reason|o k IH]; intros hist; cbn.
  - intros _ H. apply (H r []). now split.
  - intros _ _. exact I.
  - intros [Ho Hk] H. split; [exact Ho|]. intros x. apply IH; [apply Hk|].
    intros a tm E.
    specialize (H a (event o x :: tm)). cbn [rev] in H.
    rewrite <- app_assoc in H. apply H. now exists x, tm.
Qed.

Lemma safe_defer {R : Type} (P : list Event -> Op -> Prop)
      (cleanup : Prog unit) (body : Prog R) (hist : list Event) :
  safe P hist body ->
  (forall tb outb, exec body tb outb -> safe P (rev tb ++ hist)%list cleanup) ->
  safe P hist (defer cleanup body).
Proof.
  revert hist. induction body as [r|reason|o k IH]; intros hist; cbn.
  - intros _ H. apply safe_bind.
    + apply (H [] (Done r)). now split.
    + intros; exact I.
  - intros _ H. apply safe_bind.
    + apply (H [] (Panicked reason)). now split.
    + intros; exact I.
  - intros [Ho Hk] H. split; [exact Ho|]. intros x. apply IH; [apply Hk|].
    intros tb outb E.
    specialize (H (event o x :: tb) outb). cbn [rev] in H.
    rewrite <- app_assoc in H. apply H. now exists x, tb.
Qed.

Lemma noClose_cons (o : Op) (x : Resp o) (hist : list Event) :
  isClose o = false -> noClose hist -> noClose (event o x :: hist).
Proof.
  unfold noClose. change (calls (event o x :: hist)) with (o :: calls hist).
  cbn [existsb]. now intros -> ->.
Qed.

Lemma noClose_app (t hist : list Event) :
  Forall (fun o => isClose o = false) (calls t) -> noClose hist ->
  noClose (rev t ++ hist)%list.
Proof.
  unfold noClose. intros F H.
  rewrite calls_app, existsb_app, H, orb_false_r.
  apply not_true_is_false. intros E. apply existsb_exists in E as (o & I & C).
  unfold calls in I, F. rewrite map_rev in I. apply in_rev in I.
  rewrite Forall_forall in F. now rewrite (F o I) in C.
Qed.

Lemma noClose_not_In (hist : list Event) (p : Project) :
  noClose hist -> ~ In (CloseProject p) (calls hist).
Proof.
  unfold noClose. intros N I.
  assert (E : existsb isClose (calls hist) = true).
  { apply existsb_exists. now exists (CloseProject p). }
  congruence.
Qed.

Lemma working_isOpen (hist : list Event) (p : Project) :
  working hist p -> isOpen hist p.
Proof. intros [O N]. split; [exact O|now apply noClose_not_In]. Qed.

Lemma working_cons (o : Op) (x : Resp o) (hist : list Event) (p : Project) :
  isClose o = false -> working hist p -> working (event o x :: hist) p.
Proof.
  intros C [(a & O) N]. split; [exists a; now right|now apply noClose_cons].
Qed.

Lemma working_app (t hist : list Event) (p : Project) :
  Forall (fun o => isClose o = false) (calls t) -> working hist p ->
  working (rev t ++ hist)%list p.
Proof.
  intros F [(a & O) N]. split; [|now apply noClose_app].
  exists a. apply in_or_app. now right.
Qed.

Lemma safe_body {R : Type} (p : Project) (m : Prog R) (hist : list Event) :
  allCalls (bodyCall p) m -> working hist p -> safe disciplined hist m.
Proof.
  revert hist. induction m as [r|reason|o k IH]; intros hist; cbn; trivial.
  intros [Ho Hk] W. split.
  - split.
    + destruct W as [_ N]. unfold noClose in N. congruence.
    + destruct o; cbn in Ho; try contradiction; try exact I; subst;
        now apply working_isOpen.
  - intros x. apply IH; [apply Hk|]. apply working_cons; [|exact W].
    now destruct o.
Qed.

Lemma safe_offStore {R : Type} (m : Prog R) (hist : list Event) :
  allCalls offStore m -> noClose hist -> safe disciplined hist m.
Proof.
  revert hist. induction m as [r|reason|o k IH]; intros hist; cbn; trivial.
  intros [Ho Hk] N. split.
  - split.
    + unfold noClose in N. congruence.
    + destruct o; cbn in Ho; try contradiction; exact I.
  - intros x. apply IH; [apply Hk|]. apply noClose_cons; [|exact N].
    now destruct o.
Qed.

Lemma decoder_offStore (t : list Event) :
  Forall decoderCall (calls t) -> Forall (fun o => isClose o = false) (calls t).
Proof. apply Forall_impl. now intros []. Qed.

Lemma closeProject_safe (p : Project) (hist : list Event) :
  working hist p -> safe disciplined hist (closeProject p).
Proof.
  intros W. unfold closeProject. cbn. split.
  - split; [|now apply working_isOpen].
    destruct W as [_ N]. unfold noClose in N. congruence.
  - intros [e|]; cbn; [|exact I]. repeat split; trivial.
Qed.

(** A parsed path carries an access that the storage client's parser
    returned. *)
Lemma parseRequestPath_granted (p : string) (t : list Event) (raw : bool)
      (pr : Parsed) :
  exec (parseRequestPath p) t (Done (raw, Ok pr)) ->
  exists s, In (event (ParseAccess s) (Ok (access pr))) t.
Proof.
  rewrite parseRequestPath_cases. cbv zeta.
  assert (D : forall raw0 c b k,
             exec (decodeAs raw0 c b k) t (Done (raw, Ok pr)) ->
             exists s, In (event (ParseAccess s) (Ok (access pr))) t).
  { intros raw0 c b k E. apply exec_decodeAs in E.
    destruct E as ([a|e] & E & Q); [|discriminate Q].
    injection Q as _ ->. cbn [access].
    apply parseAccess_ok_trace in E as (payload & version & _ & [[_ ->]|[_ (resp & _ & ->)]]).
    - exists c. now left.
    - exists (AccessGrant resp). right. now left. }
  repeat match goal with
         | |- exec (if ?b then _ else _) _ _ -> _ => destruct b
         end; eauto.
  cbn. now intros [_ [=]].
Qed.

Lemma handleUplinkErr_bodyCall (p : Project) (action : string) (err : error) :
  allCalls (bodyCall p) (handleUplinkErr action err).
Proof. unfold handleUplinkErr. calls_of ltac:(cbn [bodyCall]). Qed.

Lemma handleUplinkErr_offStore (action : string) (err : error) :
  allCalls offStore (handleUplinkErr action err).
Proof. unfold handleUplinkErr. calls_of ltac:(cbn [offStore]). Qed.

Lemma servePrefix_bodyCall (p : Project) (root : breadcrumb)
      (title bucket realPrefix visiblePrefix : string) :
  allCalls (bodyCall p) (servePrefix p root title bucket realPrefix visiblePrefix).
Proof. unfold servePrefix. calls_of ltac:(cbn [bodyCall]). Qed.

Lemma surface_bodyCall (p : Project) (action : string) (err : error) :
  allCalls (bodyCall p) (handleUplinkErr action err ;; Ret (Some err)).
Proof. apply allCalls_bind; [apply handleUplinkErr_bodyCall|now intros]. Qed.

Lemma bodyCall_notClose {R : Type} (p : Project) (m : Prog R) :
  allCalls (bodyCall p) m -> allCalls (fun o => isClose o = false) m.
Proof. apply allCalls_weaken. now intros []. Qed.

(** The part of a handler that runs with project [p] open, under the
    deferred close. *)
Lemma safe_with_close {R : Type} (p : Project) (body : Prog R)
      (hist : list Event) :
  working hist p ->
  safe disciplined hist body ->
  allCalls (fun o => isClose o = false) body ->
  safe disciplined hist (defer (closeProject p) body).
Proof.
  intros W S C. apply safe_defer; [exact S|].
  intros tb outb E. apply closeProject_safe. apply working_app; [|exact W].
  exact (allCalls_exec _ _ _ _ C E).
Qed.

Lemma handleTraditional_safe (handler : Handler) (r : Request) (locationOnly : bool) :
  safe disciplined [] (handleTraditional handler r locationOnly).
Proof.
  unfold handleTraditional. apply safe_bind.
  { apply safe_offStore; [|reflexivity].
    apply (allCalls_weaken decoderCall); [now intros []|].
    apply parseRequestPath_calls. }
  intros [raw parsed] tm E. rewrite app_nil_r.
  pose proof (allCalls_exec _ _ _ _ (parseRequestPath_calls _) E) as F.
  assert (N : noClose (rev tm)).
  { rewrite <- (app_nil_r (rev tm)). apply noClose_app; [|reflexivity].
    now apply decoder_offStore. }
  destruct parsed as [pr|e].
  2:{ apply safe_offStore; [|exact N]. calls_of ltac:(cbn [offStore]). }
  apply parseRequestPath_granted in E as (s & G).
  cbn [bind call safe]. split.
  { split; [unfold noClose in N; congruence|].
    left. exists s. now apply in_rev in G. }
  intros [p|e].
  2:{ apply safe_offStore.
      - apply allCalls_bind; [apply handleUplinkErr_offStore|now intros].
      - now apply noClose_cons. }
  assert (W : working (event (OpenProject (access pr)) (Ok p) :: rev tm) p).
  { split; [exists (access pr); now left|now apply noClose_cons]. }
  assert (Gr : granted (event (OpenProject (access pr)) (Ok p) :: rev tm) (access pr)).
  { left. exists s. right. now apply in_rev in G. }
  destruct ((key pr =? "") || strings.HasSuffix (key pr) "/").
  { assert (A : forall err : option error,
               allCalls (bodyCall p)
                 (match err with
                  | Some err => handleUplinkErr "list prefix" err
                  | None => Ret tt
                  end ;; Ret (@None error))).
    { intros [e|]; [|calls_of ltac:(cbn [bodyCall])].
      apply allCalls_bind; [apply handleUplinkErr_bodyCall|now intros]. }
    destruct (negb (strings.HasSuffix (URL_Path r) "/")).
    - apply safe_with_close; [exact W| |].
      + apply (safe_body p); [|exact W]. calls_of ltac:(cbn [bodyCall]).
      + calls_of ltac:(idtac).
    - apply safe_with_close; [exact W| |].
      + apply (safe_body p); [|exact W].
        apply allCalls_bind; [apply servePrefix_bodyCall|exact A].
      + apply (bodyCall_notClose p).
        apply allCalls_bind; [apply servePrefix_bodyCall|exact A]. }
  apply safe_with_close; [exact W| |].
  2:{ calls_of ltac:(idtac); try apply handleUplinkErr_offStore.
      all: try (apply (allCalls_weaken offStore); [now intros []|];
                apply handleUplinkErr_offStore). }
  cbn [bind call safe]. split.
  { split; [destruct W as [_ W]; unfold noClose in W; congruence|].
    now apply working_isOpen. }
  intros [o|e].
  2:{ apply (safe_body p); [apply surface_bodyCall|].
      now apply working_cons. }
  set (hist := event (StatObject p (bucket pr) (key pr)) (Ok o)
                 :: event (OpenProject (access pr)) (Ok p) :: rev tm).
  assert (W' : working hist p) by now apply working_cons.
  destruct locationOnly.
  { apply (safe_body p); [|exact W']. calls_of ltac:(cbn [bodyCall]). }
  destruct (negb (queryHas "download" (URL_Query r))
            && negb (queryHas "view" (URL_Query r)) && negb raw).
  - cbn [bind call safe]. split.
    { split; [destruct W' as [_ W']; unfold noClose in W'; congruence|].
      split.
      - left. exists s. right. right. now apply in_rev in G.
      - exists p, o. now left. }
    intros [ips|e].
    + apply (safe_body p); [|now apply working_cons].
      apply allCalls_bind.
      * destruct (mapper handler); [|exact I].
        apply locate_calls; intros; exact I.
      * intros locations. calls_of ltac:(cbn [bodyCall]).
    + apply (safe_body p); [apply surface_bodyCall|now apply working_cons].
  - destruct (queryHas "download" (URL_Query r)); cbn [bind call safe].
    + split.
      { split; [intros C; pose proof (proj2 W') as N'; unfold noClose in N';
                congruence|].
        split; [reflexivity|]. exists p, (bucket pr), (key pr), o.
        split; [now left|reflexivity]. }
      intros [].
      match goal with
      | |- disciplined ?h _ /\ _ =>
          assert (W2 : working h p) by (now apply working_cons)
      end.
      split.
      { split.
        - intros C. pose proof (proj2 W2) as N'. unfold noClose in N'.
          congruence.
        - split; [now apply working_isOpen|].
          split; [right; now left|reflexivity]. }
      intros []. exact I.
    + split.
      { split.
        - intros C. pose proof (proj2 W') as N'. unfold noClose in N'.
          congruence.
        - split; [now apply working_isOpen|split; [now left|reflexivity]]. }
      intros []. exact I.
Qed.

Lemma vacuous_after_close (hist : list Event) (p : Project) (Q : Prop) :
  working hist p -> existsb isClose (calls hist) = true -> Q.
Proof. intros [_ N]. unfold noClose in N. congruence. Qed.

(** Serving an object that the lookup before has found. *)
Lemma serve_found_safe (p : Project) (b k : string) (o : Object)
      (hist : list Event) :
  working hist p ->
  In (event (StatObject p b k) (Ok o)) hist ->
  safe disciplined hist
       (call (ServeContent k (obj_Created o) p o b) ;; Ret (@None error)).
Proof.
  intros W H. cbn [bind call safe]. split; [|intros []; exact I].
  split; [apply (vacuous_after_close _ _ _ W)|].
  split; [now apply working_isOpen|now split].
Qed.

Lemma indexOrListing_safe (r : Request) (project : Project)
      (host bucket key : string) (hist : list Event) :
  working hist project ->
  safe disciplined hist
    (o <- call (StatObject project bucket (key ++ "index.html")) ;;
     match o with
     | Ok o =>
         call (ServeContent (key ++ "index.html") (obj_Created o) project o bucket) ;;
         Ret None
     | Err err =>
         if negb (errors_Is err ErrObjectNotFound) then
           handleUplinkErr "stat object" err ;; Ret (Some err)
         else
           err <- servePrefix project
                    {| Prefix := host; crumb_URL := "/" |}
                    host bucket key (strings.TrimPrefix (URL_Path r) "/") ;;
           match err with
           | Some err => handleUplinkErr "list prefix" err ;; Ret (Some err)
           | None => Ret None
           end
     end).
Proof.
  intros W. cbn [bind call safe]. split.
  { split; [apply (vacuous_after_close _ _ _ W)|now apply working_isOpen]. }
  intros [o|e].
  - apply serve_found_safe; [now apply working_cons|now left].
  - destruct (negb (errors_Is e ErrObjectNotFound)).
    + apply (safe_body project); [apply surface_bodyCall|now apply working_cons].
    + apply (safe_body project); [|now apply working_cons].
      apply allCalls_bind; [apply servePrefix_bodyCall|].
      intros [e'|]; [apply surface_bodyCall|exact I].
Qed.

Lemma handleHostingService_safe (handler : Handler) (r : Request) :
  safe disciplined [] (handleHostingService handler r).
Proof.
  unfold handleHostingService.
  destruct (net.SplitHostPort (Host r)) as [[h port] err].
  match goal with
  | |- safe _ _ (match ?x with _ => _ end) => destruct x as [host|e]
  end.
  2:{ apply safe_offStore; [|reflexivity]. calls_of ltac:(cbn [offStore]). }
  cbn [bind call safe]. split; [split; [discriminate|exact I]|].
  intros [[access root]|e].
  2:{ apply safe_offStore; [|reflexivity]. calls_of ltac:(cbn [offStore]). }
  cbn [bind call safe]. split.
  { split; [discriminate|]. right. exists host, root. now left. }
  intros [project|e].
  2:{ apply safe_offStore; [|reflexivity].
      apply allCalls_bind; [apply handleUplinkErr_offStore|now intros]. }
  set (hist := [event (OpenProject access) (Ok project);
                event (FetchAccessForHost host) (Ok (access, root))]).
  assert (W : working hist project).
  { split; [exists access; now left|reflexivity]. }
  destruct (determineBucketAndObjectKey root (URL_Path r)) as [bucket key].
  cbv zeta.
  apply safe_with_close; [exact W| |].
  2:{ unfold servePrefix, handleUplinkErr. calls_of ltac:(idtac). }
  destruct (negb (key =? "")).
  2:{ now apply indexOrListing_safe. }
  cbn [bind call safe]. split.
  { split; [apply (vacuous_after_close _ _ _ W)|now apply working_isOpen]. }
  intros [o|e].
  - apply serve_found_safe; [now apply working_cons|now left].
  - destruct (negb (strings.HasSuffix key "/")
              || negb (errors_Is e ErrObjectNotFound)).
    + apply (safe_body project); [apply surface_bodyCall|now apply working_cons].
    + apply indexOrListing_safe. now apply working_cons.
Qed.

Lemma serveHTTP_safe (handler : Handler) (r : Request) :
  safe disciplined [] (serveHTTP handler r).
Proof.
  unfold serveHTTP.
  destruct (compareHosts (Host r) (url_Host (urlBase handler))) as [equal [e|]];
    [exact I|].
  destruct equal; cbn [negb]; [|apply handleHostingService_safe].
  destruct (Method r =? "HEAD"); [apply handleTraditional_safe|].
  destruct (Method r =? "GET"); [apply handleTraditional_safe|].
  apply safe_offStore; [|reflexivity]. calls_of ltac:(cbn [offStore]).
Qed.

Lemma disciplined_rev (t1 : list Event) (o : Op) :
  disciplined (rev t1 ++ []) o -> disciplined t1 o.
Proof.
  rewrite app_nil_r.
  assert (V : forall ev, In ev (rev t1) -> In ev t1) by (intros; now apply in_rev).
  assert (C : forall p, In (CloseProject p) (calls t1) ->
                        In (CloseProject p) (calls (rev t1))).
  { intros p H. unfold calls in *. rewrite map_rev. now apply in_rev in H. }
  assert (G : forall a, granted (rev t1) a -> granted t1 a).
  { intros a [(s & H)|(host & root & H)]; [left|right]; eauto. }
  assert (O : forall p, isOpen (rev t1) p -> isOpen t1 p).
  { intros p [(a & H) N]. split; [eauto|]. intros H'. apply N. now apply C. }
  intros [L D]. split.
  - intros E. apply L. apply existsb_exists in E as (x & H & X).
    apply existsb_exists. exists x. split; [|exact X].
    unfold calls in *. rewrite map_rev. now apply in_rev in H.
  - destruct o; trivial; try (now apply O); try (now apply G).
    + destruct D as (D1 & (p & ob & D2)). split; [now apply G|].
      exists p, ob. now apply V.
    + destruct D as (D1 & (p & b & k & ob & D2 & D3)). split; [exact D1|].
      exists p, b, k, ob. split; [now apply V|exact D3].
    + destruct D as (D1 & D2 & D3).
      split; [now apply O|split; [now apply V|exact D3]].
Qed.

(** Every call of a request satisfies the discipline towards the store,
    given the calls made before it. *)
Lemma serveHTTP_disciplined (handler : Handler) (r : Request)
      (t : list Event) (out : Outcome (option error))
      (t1 : list Event) (ev : Event) (t2 : list Event) :
  exec (serveHTTP handler r) t out ->
  t = (t1 ++ ev :: t2)%list ->
  disciplined t1 (projT1 ev).
Proof.
  intros E T. apply disciplined_rev.
  exact (safe_exec _ _ _ _ _ (serveHTTP_safe handler r) E t1 ev t2 T).
Qed.

End DisciplineFacts.

Section DisciplineTheorems.

Context {ext : Externals}.

(** A project is opened only with a granted access: whenever a request
    calls [OpenProject], the access it passes is one that the storage
    client's parser (traditional mode) or the TXT-record resolver (custom
    domain) has returned before, in the same request. *)
Theorem serveHTTP_opens_with_granted_access
        (handler : Handler) (r : Request) (t : list Event)
        (out : Outcome (option error))
        (t1 : list Event) (ev : Event) (t2 : list Event) (a : Access) :
  exec (serveHTTP handler r) t out ->
  t = (t1 ++ ev :: t2)%list ->
  projT1 ev = OpenProject a ->
  (exists s, In (event (ParseAccess s) (Ok a)) t1)
  \/ (exists host root, In (event (FetchAccessForHost host) (Ok (a, root))) t1).
Proof.
  intros E T O. pose proof (serveHTTP_disciplined _ _ _ _ _ _ _ E T) as [_ D].
  rewrite O in D. exact D.
Qed.

(** The life of a project within a request: an object is looked up,
    listed or served, and a project closed, only on a project that the
    request has opened successfully and not closed yet; and after a close
    nothing is called but the logger.  So a project is closed at most once
    and never used afterwards. *)
Theorem serveHTTP_project_lifecycle
        (handler : Handler) (r : Request) (t : list Event)
        (out : Outcome (option error))
        (t1 : list Event) (ev : Event) (t2 : list Event) :
  exec (serveHTTP handler r) t out ->
  t = (t1 ++ ev :: t2)%list ->
  (forall p, projectOf (projT1 ev) = Some p ->
             (exists a, In (event (OpenProject a) (Ok p)) t1)
             /\ ~ In (CloseProject p) (calls t1))
  /\ (forall p, In (CloseProject p) (calls t1) -> isLog (projT1 ev)).
Proof.
  intros E T. pose proof (serveHTTP_disciplined _ _ _ _ _ _ _ E T) as [L D].
  split.
  - intros p P. unfold isOpen in D.
    destruct ev as [o x]. cbn [projT1] in *.
    destruct o; cbn in P; try discriminate P; injection P as <-;
      cbn in D; tauto.
  - intros p C. apply L. apply existsb_exists. now exists (CloseProject p).
Qed.

(** What is served is what was found: content is served, and an object
    located, only after a lookup of the same bucket and key has succeeded
    in the same request; the object served is the one that lookup
    returned, under its creation time. *)
Theorem serveHTTP_serves_found_object
        (handler : Handler) (r : Request) (t : list Event)
        (out : Outcome (option error))
        (t1 : list Event) (ev : Event) (t2 : list Event) :
  exec (serveHTTP handler r) t out ->
  t = (t1 ++ ev :: t2)%list ->
  (forall name modtime p o b,
      projT1 ev = ServeContent name modtime p o b ->
      In (event (StatObject p b name) (Ok o)) t1 /\ modtime = obj_Created o)
  /\ (forall a b k,
         projT1 ev = GetObjectIPs a b k ->
         exists p o, In (event (StatObject p b k) (Ok o)) t1).
Proof.
  intros E T. pose proof (serveHTTP_disciplined _ _ _ _ _ _ _ E T) as [_ D].
  split.
  - intros name modtime p o b P. rewrite P in D. cbn in D. tauto.
  - intros a b k P. rewrite P in D. cbn in D. tauto.
Qed.

Lemma openAnswer_Some (ev : Event) (a : Access) (x : result Project) :
  openAnswer ev = Some (a, x) -> projT1 ev = OpenProject a.
Proof.
  destruct ev as [o y]. destruct o; cbn; try discriminate.
  now intros [= -> _].
Qed.

Lemma not_opened {R : Type} (prog : Prog R) (t : list Event) (out : Outcome R)
      (ev : Event) (a : Access) (x : result Project) :
  allCalls (fun o => isOpenProject o = false) prog ->
  exec prog t out -> In ev t -> openAnswer ev = Some (a, x) -> False.
Proof.
  intros A E I O. apply openAnswer_Some in O.
  assert (C : In (projT1 ev) (calls t)) by (unfold calls; now apply in_map).
  pose proof (allCalls_In _ _ _ _ _ A E C) as N. rewrite O in N. discriminate N.
Qed.

Lemma closed_under_defer {R : Type} (p : Project) (body : Prog R)
      (t : list Event) (out : Outcome R) :
  exec (defer (closeProject p) body) t out -> In (CloseProject p) (calls t).
Proof.
  intros E. apply exec_defer in E.
  destruct E as (tb & tc & out1 & out2 & _ & C & -> & _).
  rewrite calls_app. apply in_or_app. right.
  unfold closeProject in C. cbn in C. destruct C as (x & t' & -> & _).
  now left.
Qed.

Lemma handleTraditional_closes (handler : Handler) (r : Request)
      (locationOnly : bool) (t : list Event) (out : Outcome (option error))
      (ev : Event) (a : Access) (p : Project) :
  exec (handleTraditional handler r locationOnly) t out ->
  In ev t -> openAnswer ev = Some (a, Ok p) -> In (CloseProject p) (calls t).
Proof.
  intros E I O. unfold handleTraditional in E. apply exec_bind in E.
  destruct E as [(tm & t2 & [raw parsed] & E1 & E2 & ->)|(reason & E1 & _)].
  2:{ exfalso. refine (not_opened _ _ _ _ _ _ _ E1 I O).
      apply (allCalls_weaken decoderCall); [now intros []|].
      apply parseRequestPath_calls. }
  apply in_app_or in I as [I|I].
  { exfalso. refine (not_opened _ _ _ _ _ _ _ E1 I O).
    apply (allCalls_weaken decoderCall); [now intros []|].
    apply parseRequestPath_calls. }
  destruct parsed as [pr|e].
  2:{ exfalso. refine (not_opened _ _ _ _ _ _ _ E2 I O).
      calls_of ltac:(idtac). }
  cbn [bind call exec] in E2. destruct E2 as (x & t3 & -> & E2).
  destruct x as [p0|e].
  2:{ exfalso. destruct I as [<-|I]; [discriminate O|].
      refine (not_opened _ _ _ _ _ _ _ E2 I O).
      unfold handleUplinkErr. calls_of ltac:(idtac). }
  destruct I as [<-|I].
  - cbn in O. injection O as _ <-.
    rewrite calls_app. apply in_or_app. right. right.
    exact (closed_under_defer _ _ _ _ E2).
  - exfalso. refine (not_opened _ _ _ _ _ _ _ E2 I O).
    unfold servePrefix, handleUplinkErr, closeProject. calls_of ltac:(idtac).
Qed.

Lemma handleHostingService_closes (handler : Handler) (r : Request)
      (t : list Event) (out : Outcome (option error))
      (ev : Event) (a : Access) (p : Project) :
  exec (handleHostingService handler r) t out ->
  In ev t -> openAnswer ev = Some (a, Ok p) -> In (CloseProject p) (calls t).
Proof.
  intros E I O. unfold handleHostingService in E.
  destruct (net.SplitHostPort (Host r)) as [[h port] err].
  match type of E with
  | exec (match ?x with _ => _ end) _ _ => destruct x as [host|e]
  end.
  2:{ exfalso. refine (not_opened _ _ _ _ _ _ _ E I O). calls_of ltac:(idtac). }
  cbn [bind call exec] in E. destruct E as (x & t1 & -> & E).
  destruct I as [<-|I]; [discriminate O|].
  destruct x as [[access root]|e].
  2:{ exfalso. refine (not_opened _ _ _ _ _ _ _ E I O). calls_of ltac:(idtac). }
  cbn [bind call exec] in E. destruct E as (x & t2 & -> & E).
  destruct x as [p0|e].
  2:{ exfalso. destruct I as [<-|I]; [discriminate O|].
      refine (not_opened _ _ _ _ _ _ _ E I O).
      unfold handleUplinkErr. calls_of ltac:(idtac). }
  destruct I as [<-|I].
  - cbn in O. injection O as _ <-. right. right.
    exact (closed_under_defer _ _ _ _ E).
  - exfalso. refine (not_opened _ _ _ _ _ _ _ E I O).
    unfold servePrefix, handleUplinkErr, closeProject. calls_of ltac:(idtac).
Qed.

(** Every project a request opens is closed before the request ends,
    whatever the outcome, a panic of the handler included. *)
Theorem serveHTTP_closes_opened_project
        (handler : Handler) (r : Request) (t : list Event)
        (out : Outcome (option error)) (ev : Event) (a : Access) (p : Project) :
  exec (serveHTTP handler r) t out ->
  In ev t -> openAnswer ev = Some (a, Ok p) ->
  In (CloseProject p) (calls t).
Proof.
  unfold serveHTTP.
  destruct (compareHosts (Host r) (url_Host (urlBase handler))) as [equal [e|]].
  { cbn. now intros [-> _] []. }
  destruct equal; cbn [negb]; [|apply handleHostingService_closes].
  destruct (Method r =? "HEAD"); [apply handleTraditional_closes|].
  destruct (Method r =? "GET"); [apply handleTraditional_closes|].
  cbn. intros (x & t' & -> & -> & _) [<-|[]] O. discriminate O.
Qed.

End DisciplineTheorems.

(* ================================================================== *)
(** * Error pages, listings and locations                              *)
(* ================================================================== *)

Section PagesAndListings.

Context {ext : Externals}.

(** [handleUplinkErr] answers with the not-found page exactly for an
    error that wraps one of the two sentinels, and otherwise with a 500 of
    fixed text: the message of the error is never sent to the client.  It
    always returns, and a template that fails is only logged. *)
Theorem handleUplinkErr_answers
        (action : string) (e : error) (t : list Event) (out : Outcome unit) :
  exec (handleUplinkErr action e) t out ->
  out = Done tt
  /\ ((exists sentinel msg,
          e = Wraps sentinel msg
          /\ response t
             = [WriteHeader 404;
                ExecuteTemplate "404.html"
                  (Message (match sentinel with
                            | ErrBucketNotFound => "Oops! Bucket not found."
                            | ErrObjectNotFound => "Oops! Object not found."
                            end))])
      \/ ((forall sentinel msg, e <> Wraps sentinel msg)
          /\ response t = [HttpError "unable to handle request" 500])).
Proof.
  intros E. apply exec_handleUplinkErr in E as (_ & R & ->).
  split; [reflexivity|]. rewrite R. unfold errorPage.
  destruct e as [msg|why addr|[|] msg]; cbn.
  - right. split; [discriminate|reflexivity].
  - right. split; [discriminate|reflexivity].
  - left. now exists ErrBucketNotFound, msg.
  - left. now exists ErrObjectNotFound, msg.
Qed.

(** What [servePrefix] does with a listing.  It lists once.  When the key
    of a listed item is shorter than the prefix, it panics; otherwise an
    error of the iteration is returned and nothing is rendered; otherwise
    the listing page is rendered with one object per item, in the order of
    the listing, each key without the prefix, and the result of the
    template is returned. *)
Theorem servePrefix_listing
        (project : Project) (root : breadcrumb)
        (title bucket realPrefix visiblePrefix : string)
        (t : list Event) (out : Outcome (option error)) :
  exec (servePrefix project root title bucket realPrefix visiblePrefix) t out ->
  exists items iterErr t',
    t = event (ListObjects project bucket realPrefix) (items, iterErr) :: t'
    /\ if forallb (coversPrefix realPrefix) items then
         match iterErr with
         | Some err => t' = [] /\ out = Done (Some err)
         | None =>
             exists crumbs answer,
               t' = [event (ExecuteTemplate "prefix-listing.html"
                              (PrefixListing title crumbs
                                 (map (listed realPrefix) items))) answer]
               /\ out = Done answer
         end
       else t' = [] /\ out = Panicked "slice bounds out of range".
Proof.
  unfold servePrefix. cbn [bind call exec].
  intros ([items iterErr] & t' & -> & E). exists items, iterErr, t'.
  split; [reflexivity|].
  apply exec_bind in E.
  destruct E as [(t1 & t2 & objects & E1 & E2 & ->)|(reason & E1 & ->)];
    apply exec_listedObjects in E1 as [-> E1];
    destruct (forallb (coversPrefix realPrefix) items); try discriminate E1.
  - injection E1 as <-. cbn [app] in *. destruct iterErr as [err|].
    + exact E2.
    + cbn in E2. destruct E2 as (answer & t3 & -> & -> & ->). eauto.
  - injection E1 as <-. now split.
Qed.

Lemma exec_locate_steps (db : IPDB) (ipBytes : list string)
      (locations : list Location) (t : list Event)
      (out : Outcome (list Location)) :
  exec (locate db ipBytes locations) t out ->
  exists answers,
    map fst answers = ipBytes
    /\ t = locateSteps db answers
    /\ out = Done (locations ++ locationsOf answers)%list.
Proof.
  revert locations t. induction ipBytes as [|ip rest IH]; intros locations t.
  - cbn. intros [-> ->]. exists []. rewrite app_nil_r. now repeat split.
  - cbn [locate bind call exec]. intros (x & t1 & -> & E).
    destruct x as [info|err].
    + apply IH in E as (answers & <- & -> & ->).
      exists ((ip, Ok info) :: answers). rewrite <- app_assoc.
      now repeat split.
    + cbn [bind call exec] in E. destruct E as ([] & t2 & -> & E).
      apply IH in E as (answers & <- & -> & ->).
      exists ((ip, Err err) :: answers). now repeat split.
Qed.

Lemma locatedIn_app (t1 t2 : list Event) :
  locatedIn (t1 ++ t2)%list = (locatedIn t1 ++ locatedIn t2)%list.
Proof. apply flat_map_app. Qed.

Lemma locatedIn_locateSteps (db : IPDB) (answers : list (string * result Location)) :
  locatedIn (locateSteps db answers) = locationsOf answers.
Proof.
  induction answers as [|[ip [info|err]] rest IH]; [reflexivity| |].
  - cbn [locateSteps locationsOf]. unfold locatedIn in *. cbn [flat_map].
    rewrite IH. reflexivity.
  - cbn [locateSteps locationsOf]. unfold locatedIn in *. cbn [flat_map].
    rewrite IH. reflexivity.
Qed.

Lemma locateSteps_lookups (db : IPDB) (answers : list (string * result Location)) :
  filter isGetIPInfos (calls (locateSteps db answers))
  = map (GetIPInfos db) (map fst answers).
Proof.
  induction answers as [|[ip [info|err]] rest IH]; [reflexivity| |];
    cbn [locateSteps map fst]; rewrite <- IH; reflexivity.
Qed.

Lemma locateSteps_calls (db : IPDB) (answers : list (string * result Location)) :
  Forall (fun o => isGetIPInfos o = true \/ isLogCall o = true)
         (calls (locateSteps db answers)).
Proof.
  induction answers as [|[ip [info|err]] rest IH]; [constructor| |];
    cbn [locateSteps]; repeat (constructor; [cbn; tauto|]); exact IH.
Qed.

(** The geo-IP loop never fails a request, and its trace and its result
    are those of the answers of the database alone: every address is
    looked up once and in order; an address that is found adds its
    location, an address that is not found is logged with the error and
    adds nothing; the locations returned are those the loop was given
    followed by the locations found, in order. *)
Theorem locate_never_fails
        (db : IPDB) (ipBytes : list string) (locations : list Location)
        (t : list Event) (out : Outcome (list Location)) :
  exec (locate db ipBytes locations) t out ->
  exists answers,
    map fst answers = ipBytes
    /\ t = locateSteps db answers
    /\ out = Done (locations ++ locationsOf answers)%list.
Proof. apply exec_locate_steps. Qed.

Lemma slashed_splitLoop (n : nat) (s : string) :
  slashed (strings.splitLoop n s "/") = s ++ "/".
Proof.
  revert s. induction n as [|n IH]; intros s.
  - reflexivity.
  - rewrite splitLoop_slash. destruct (hasByte "/" s) eqn:H.
    + cbn [slashed]. rewrite IH. rewrite (split_at_slash s H) at 3.
      now rewrite !append_assoc.
    + reflexivity.
Qed.

Lemma slashed_Split (s : string) : slashed (strings.Split s "/") = s ++ "/".
Proof.
  change (strings.Split s "/") with (strings.splitLoop (String.length s) s "/").
  apply slashed_splitLoop.
Qed.

Lemma nth_pred_last {A : Type} (l : list A) (d : A) (i : nat) :
  List.length l = S i -> nth i l d = last l d.
Proof.
  revert i. induction l as [|a l IH]; intros i L; [discriminate L|].
  destruct l as [|b l].
  - injection L as <-. reflexivity.
  - destruct i as [|i]; [discriminate L|]. cbn [nth].
    change (last (a :: b :: l) d) with (last (b :: l) d).
    apply IH. cbn in *. lia.
Qed.

Lemma addBreadcrumbs_spec (root : breadcrumb) (prefixes : list string) :
  forall (i : nat) (crumbs : list breadcrumb),
    List.length crumbs = S i -> chained root crumbs ->
    exists rest,
      addBreadcrumbs i prefixes crumbs root = (crumbs ++ rest)%list
      /\ map Prefix rest = prefixes
      /\ chained root (crumbs ++ rest)%list
      /\ crumb_URL (last (crumbs ++ rest)%list root)
         = crumb_URL (last crumbs root) ++ slashed prefixes.
Proof.
  induction prefixes as [|prefix more IH]; intros i crumbs L C.
  - exists []. cbn. rewrite !app_nil_r, append_nil_r. now repeat split.
  - cbn [addBreadcrumbs].
    set (new := {| Prefix := prefix;
                   crumb_URL := crumb_URL (nth i crumbs root) ++ prefix ++ "/" |}).
    assert (L' : List.length (crumbs ++ [new])%list = S (S i))
      by (rewrite List.length_app; cbn; lia).
    assert (C' : chained root (crumbs ++ [new])%list).
    { intros j J. rewrite L' in J.
      destruct (Nat.eq_dec j i) as [->|N].
      - rewrite app_nth2 by lia. rewrite L, Nat.sub_diag. cbn [nth].
        rewrite app_nth1 by lia. reflexivity.
      - rewrite !app_nth1 by lia. apply C. lia. }
    destruct (IH (S i) (crumbs ++ [new])%list L' C') as (rest & E & P & Ch & U).
    exists (new :: rest). rewrite E, <- app_assoc. cbn [app map].
    repeat split; trivial.
    + now rewrite P.
    + now rewrite <- app_assoc in Ch.
    + rewrite <- app_assoc in U. cbn [app] in U. rewrite U.
      rewrite last_last. cbn [crumb_URL new slashed].
      rewrite (nth_pred_last crumbs root i L).
      now rewrite !append_assoc.
Qed.

(** The breadcrumbs of a listing page: the first is the root, the others
    carry the segments of the visible prefix without its trailing slashes,
    each extends the URL of the one before by its segment and a slash, and
    the last one's URL is the root's URL followed by that prefix and a
    slash. *)
Theorem servePrefix_breadcrumbs
        (project : Project) (root : breadcrumb)
        (title bucket realPrefix visiblePrefix : string)
        (t : list Event) (out : Outcome (option error))
        (name title' : string) (crumbs : list breadcrumb)
        (objects : list ListedObject) :
  exec (servePrefix project root title bucket realPrefix visiblePrefix) t out ->
  In (ExecuteTemplate name (PrefixListing title' crumbs objects)) (calls t) ->
  title' = title
  /\ exists rest,
      crumbs = root :: rest
      /\ map Prefix rest
         = (if visiblePrefix =? "" then []
            else strings.Split (strings.TrimRight visiblePrefix "/") "/")
      /\ chained root crumbs
      /\ crumb_URL (last crumbs root)
         = (if visiblePrefix =? "" then crumb_URL root
            else crumb_URL root ++ strings.TrimRight visiblePrefix "/" ++ "/").
Proof.
  unfold servePrefix. cbn [bind call exec].
  intros ([items iterErr] & t' & -> & E) I.
  destruct I as [I|I]; [discriminate I|].
  apply exec_bind in E.
  destruct E as [(t1 & t2 & objs & E1 & E2 & ->)|(reason & E1 & ->)];
    apply exec_listedObjects in E1 as [-> E1]; [|destruct I].
  cbn [app] in I. destruct iterErr as [err|].
  { destruct E2 as [-> _]. destruct I. }
  cbn in E2. destruct E2 as (answer & t3 & -> & -> & _).
  destruct I as [I|[]]. injection I as _ <- <- _.
  split; [reflexivity|].
  destruct (visiblePrefix =? ""); cbn [negb]; cbv zeta.
  - exists []. repeat split; trivial. intros i J. cbn in J. lia.
  - assert (C : chained root [root]) by (intros i J; cbn in J; lia).
    destruct (addBreadcrumbs_spec root
                (strings.Split (strings.TrimRight visiblePrefix "/") "/")
                0 [root] eq_refl C) as (rest & E & P & Ch & U).
    change (strings.splitLoop
              (String.length (strings.TrimRight visiblePrefix "/"))
              (strings.TrimRight visiblePrefix "/") "/")
      with (strings.Split (strings.TrimRight visiblePrefix "/") "/").
    rewrite E. cbn [app] in *.
    exists rest. repeat split; trivial.
    rewrite U, slashed_Split. reflexivity.
Qed.

End PagesAndListings.

(* ================================================================== *)
(** * The name of a download                                         *)
(* ================================================================== *)

Lemma endsInSlash_app_r (s t : string) :
  t <> "" -> endsInSlash (s ++ t) = endsInSlash t.
Proof.
  intros N. unfold endsInSlash.
  assert (L : lastByte (s ++ t) = lastByte t).
  { induction s as [|a s IH]; [reflexivity|].
    cbn [append lastByte]. destruct (s ++ t) eqn:E.
    - apply append_eq_nil in E as [_ ->]. now contradiction N.
    - exact IH. }
  now rewrite L.
Qed.

Lemma afterSlash_shorter (s : string) :
  hasByte "/" s = true -> (String.length (afterSlash s) < String.length s)%nat.
Proof.
  intros H. rewrite (split_at_slash s H) at 2.
  rewrite !length_app. cbn. lia.
Qed.

Lemma splitLoop_nonempty (n : nat) (s : string) : strings.splitLoop n s "/" <> [].
Proof.
  destruct n; [discriminate|]. rewrite splitLoop_slash.
  destruct (hasByte "/" s); discriminate.
Qed.

Lemma last_splitLoop (n : nat) :
  forall s, (String.length s <= n)%nat ->
    exists dir,
      s = dir ++ last (strings.splitLoop n s "/") ""
      /\ hasByte "/" (last (strings.splitLoop n s "/") "") = false
      /\ (dir = "" \/ endsInSlash dir = true).
Proof.
  induction n as [|n IH]; intros s L.
  - destruct s; [|cbn in L; lia]. exists "". cbn. tauto.
  - rewrite splitLoop_slash. destruct (hasByte "/" s) eqn:H.
    + pose proof (afterSlash_shorter s H) as Sh.
      destruct (IH (afterSlash s)) as (dir & E & F & D); [lia|].
      pose proof (splitLoop_nonempty n (afterSlash s)) as NE.
      destruct (strings.splitLoop n (afterSlash s) "/") as [|x l] eqn:SL;
        [now contradiction NE|].
      change (last (beforeSlash s :: x :: l) "") with (last (x :: l) "").
      exists (beforeSlash s ++ "/" ++ dir). split; [|split].
      * rewrite (split_at_slash s H) at 1. rewrite E at 1.
        now rewrite !append_assoc.
      * exact F.
      * right. destruct D as [->|D].
        -- change (beforeSlash s ++ "/" ++ "") with (beforeSlash s ++ "/").
           apply endsInSlash_app.
        -- rewrite <- append_assoc. rewrite endsInSlash_app_r; [exact D|].
           intros ->. discriminate D.
    + exists "". cbn [last]. cbn [append]. tauto.
Qed.

Lemma lastSegment_spec (key : string) :
  exists dir,
    key = dir ++ lastSegment key
    /\ hasByte "/" (lastSegment key) = false
    /\ (dir = "" \/ endsInSlash dir = true).
Proof.
  unfold lastSegment.
  change (strings.Split key "/") with (strings.splitLoop (String.length key) key "/").
  pose proof (splitLoop_nonempty (String.length key) key) as NE.
  destruct (last_splitLoop (String.length key) key (le_n _)) as (dir & E & F & D).
  assert (N : nth (List.length (strings.splitLoop (String.length key) key "/") - 1)
                  (strings.splitLoop (String.length key) key "/") ""
              = last (strings.splitLoop (String.length key) key "/") "").
  { apply nth_pred_last.
    destruct (strings.splitLoop (String.length key) key "/");
      [now contradiction NE|cbn; lia]. }
  cbv zeta. rewrite N. now exists dir.
Qed.

Section DownloadName.

Context {ext : Externals}.

(** The only header a request sets is [Content-Disposition], and it names
    a download after the last segment of the key of an object found
    before: the key is that name after a directory part that is empty or
    ends in a slash, and the name itself has no slash. *)
Theorem serveHTTP_download_filename
        (handler : Handler) (r : Request) (t : list Event)
        (out : Outcome (option error))
        (t1 : list Event) (ev : Event) (t2 : list Event) (name value : string) :
  exec (serveHTTP handler r) t out ->
  t = (t1 ++ ev :: t2)%list ->
  projT1 ev = SetHeader name value ->
  name = "Content-Disposition"
  /\ exists p b o dir obj,
       In (event (StatObject p b (dir ++ obj)) (Ok o)) t1
       /\ hasByte "/" obj = false
       /\ (dir = "" \/ endsInSlash dir = true)
       /\ value = "attachment; filename=" ++ dquote ++ obj ++ dquote.
Proof.
  intros E T P. pose proof (serveHTTP_disciplined _ _ _ _ _ _ _ E T) as [_ D].
  rewrite P in D. cbn in D. destruct D as (N & p & b & k & ob & I & V).
  split; [exact N|].
  destruct (lastSegment_spec k) as (dir & K & F & Dr).
  exists p, b, ob, dir, (lastSegment k). rewrite <- K. tauto.
Qed.

End DownloadName.

(* ================================================================== *)
(** * Requests without a grant                                       *)
(* ================================================================== *)

Section TraditionalFacts.

Context {ext : Externals}.

Lemma In_observed (ev : Event) (t : list Event) :
  In ev t -> In (projT1 ev, status (projT1 ev) (projT2 ev)) (observed t).
Proof.
  intros H. unfold observed.
  exact (in_map (fun ev : Event => (projT1 ev, status (projT1 ev) (projT2 ev))) t ev H).
Qed.

Lemma parseAccess_refused (token : string) (t : list Event) (e : error) :
  exec (parseAccess token) t (Done (Err e)) ->
  forall s, ~ In (ParseAccess s, Succeeded) (observed t).
Proof.
  unfold parseAccess.
  destruct (CheckDecode token) as [[payload version] [e0|]]; cbn.
  - intros [-> _] s [].
  - destruct (Byte.eqb version versionAccessKeyID).
    + cbn. intros (x & t1 & -> & E) s. destruct x as [[grant pub]|e1]; cbn in E.
      * destruct pub; cbn in E.
        -- destruct E as (y & t2 & -> & -> & Q). destruct y as [a|e2]; [discriminate Q|].
           cbn. intros [H|[H|[]]]; discriminate H.
        -- destruct E as [-> _]. cbn. intros [H|[]]; discriminate H.
      * destruct E as [-> _]. cbn. intros [H|[]]; discriminate H.
    + destruct (Byte.eqb version Byte.x00); cbn.
      * intros (y & t2 & -> & -> & Q) s. destruct y as [a|e2]; [discriminate Q|].
        cbn. intros [H|[]]; discriminate H.
      * intros [-> _] s [].
Qed.

Lemma parseRequestPath_refused (p : string) (t : list Event) (raw : bool)
      (e : error) :
  exec (parseRequestPath p) t (Done (raw, Err e)) ->
  forall s, ~ In (ParseAccess s, Succeeded) (observed t).
Proof.
  rewrite parseRequestPath_cases. cbv zeta.
  assert (D : forall raw0 c b k,
             exec (decodeAs raw0 c b k) t (Done (raw, Err e)) ->
             forall s, ~ In (ParseAccess s, Succeeded) (observed t)).
  { intros raw0 c b k E. apply exec_decodeAs in E.
    destruct E as ([a|e0] & E & Q); [discriminate Q|].
    exact (parseAccess_refused _ _ _ E). }
  repeat match goal with
         | |- exec (if ?b then _ else _) _ _ -> _ => destruct b
         end; eauto.
  cbn. now intros [-> _] s [].
Qed.

Lemma decoder_offStore_calls (t : list Event) :
  Forall decoderCall (calls t) -> Forall offStore (calls t).
Proof.
  apply Forall_impl. now intros [].
Qed.

End TraditionalFacts.

Section TraditionalTheorems.

Context {ext : Externals}.

(** A traditional request is answered 400 exactly when the storage
    client's parser has returned no access for it.  The request then is
    the parsing of its path, which has failed, followed by that one
    answer: "invalid request: " and the text of the error the path parser
    returned.  The same text is returned as the error, no project is
    opened and nothing in the store is called. *)
Theorem handleTraditional_invalid_request
        (handler : Handler) (r : Request) (locationOnly : bool)
        (t : list Event) (out : Outcome (option error)) :
  exec (handleTraditional handler r locationOnly) t out ->
  ((forall s, ~ In (ParseAccess s, Succeeded) (observed t))
   <-> exists msg, In (HttpError msg 400) (calls t))
  /\ (forall msg,
         In (HttpError msg 400) (calls t) ->
         (exists tm rawRequest e,
             exec (parseRequestPath (URL_Path r)) tm (Done (rawRequest, Err e))
             /\ t = (tm ++ [event (HttpError msg 400) tt])%list
             /\ msg = "invalid request: " ++ Error e)
         /\ response t = [HttpError msg 400]
         /\ out = Done (Some (New msg))
         /\ Forall offStore (calls t)).
Proof.
  intros E. unfold handleTraditional in E. apply exec_bind in E.
  destruct E as [(tm & t2 & [raw parsed] & E1 & E2 & ->)|(reason & E1 & _)];
    [|now apply parseRequestPath_returns in E1].
  pose proof (allCalls_exec _ _ _ _ (parseRequestPath_calls _) E1) as DC.
  destruct parsed as [pr|e].
  - assert (N : forall msg, ~ In (HttpError msg 400) (calls (tm ++ t2))).
    { intros msg I. rewrite calls_app in I. apply in_app_or in I as [I|I].
      - rewrite Forall_forall in DC. exact (DC _ I).
      - refine (allCalls_In not400 _ _ _ _ _ E2 I eq_refl).
        unfold servePrefix, handleUplinkErr, closeProject.
        calls_of ltac:(cbn [not400]). }
    split.
    + split.
      * intros G. exfalso. apply parseRequestPath_granted in E1 as (s & I).
        apply (G s). rewrite observed_app. apply in_or_app. left.
        exact (In_observed _ _ I).
      * intros (msg & I). now apply N in I.
    + intros msg I. now apply N in I.
  - cbn in E2. destruct E2 as ([] & t3 & -> & -> & ->).
    assert (R : response (tm ++ [event (HttpError ("invalid request: " ++ Error e) 400) tt])
                = [HttpError ("invalid request: " ++ Error e) 400]).
    { rewrite response_app, (decoder_response _ DC). reflexivity. }
    split.
    + split.
      * intros _. exists ("invalid request: " ++ Error e).
        rewrite calls_app. apply in_or_app. right. now left.
      * intros _ s I. rewrite observed_app in I. apply in_app_or in I as [I|I].
        -- exact (parseRequestPath_refused _ _ _ _ E1 s I).
        -- destruct I as [I|[]]. discriminate I.
    + intros msg I. rewrite calls_app in I. apply in_app_or in I as [I|I].
      { rewrite Forall_forall in DC. now apply DC in I. }
      destruct I as [I|[]]. injection I as <-.
      split; [now exists tm, raw, e|]. split; [exact R|]. split; [reflexivity|].
      rewrite calls_app. apply Forall_app. split.
      * now apply decoder_offStore_calls.
      * repeat constructor.
Qed.

End TraditionalTheorems.

(* ================================================================== *)
(** * The permanent redirect                                         *)
(* ================================================================== *)

Lemma endsInSlash_specSuffix (p : string) :
  endsInSlash (specSuffix p) = true -> endsInSlash p = true.
Proof.
  destruct p as [|c s]; [trivial|]. cbn [specSuffix].
  destruct (Ascii.eqb c "/") eqn:C; [|trivial].
  intros H. destruct s as [|d s]; [discriminate H|].
  exact H.
Qed.

Lemma bucket_root_only (path credential bucket key : string) (raw : bool) :
  strings.TrimPrefix path "/"
  = (if raw then "raw/" else "") ++ credential ++ "/" ++ bucket ++ "/" ++ key
  \/ (raw = false /\ key = ""
      /\ strings.TrimPrefix path "/" = credential ++ "/" ++ bucket) ->
  (key =? "") || strings.HasSuffix key "/" = true ->
  strings.HasSuffix path "/" = false ->
  strings.TrimPrefix path "/" = credential ++ "/" ++ bucket
  /\ bucket <> "" /\ key = "" /\ raw = false.
Proof.
  rewrite !HasSuffix_slash, TrimPrefix_slash. intros [E|(-> & -> & E)] K S.
  - exfalso. assert (T : endsInSlash (specSuffix path) = true).
    { rewrite E. apply orb_true_iff in K as [K|K].
      - apply String.eqb_eq in K as ->.
        change (bucket ++ "/" ++ "") with (bucket ++ "/").
        rewrite <- !append_assoc. apply endsInSlash_app.
      - rewrite <- !append_assoc. rewrite endsInSlash_app_r; [exact K|].
        intros ->. discriminate K. }
    apply endsInSlash_specSuffix in T. congruence.
  - repeat split; trivial. intros ->.
    assert (T : endsInSlash (specSuffix path) = true).
    { rewrite E. change (credential ++ "/" ++ "") with (credential ++ "/").
      apply endsInSlash_app. }
    apply endsInSlash_specSuffix in T. congruence.
Qed.

Section RedirectTheorems.

Context {ext : Externals}.

(** The permanent redirect is for a bucket root only.  A traditional
    request is redirected with 301 only when its path, without the leading
    slash, is a credential and a non-empty bucket and nothing more, not
    even a closing slash; the target is the path with a slash appended,
    and the redirect is the whole response.  The prefix of a key needs no
    redirect: it ends in a slash, and so does its path. *)
Theorem handleTraditional_redirects_bucket_root
        (handler : Handler) (r : Request) (locationOnly : bool)
        (t : list Event) (out : Outcome (option error)) (url : string) :
  exec (handleTraditional handler r locationOnly) t out ->
  In (HttpRedirect url 301) (calls t) ->
  url = URL_Path r ++ "/"
  /\ response t = [HttpRedirect url 301]
  /\ out = Done None
  /\ exists credential bucket,
       strings.TrimPrefix (URL_Path r) "/" = credential ++ "/" ++ bucket
       /\ hasByte "/" credential = false
       /\ hasByte "/" bucket = false
       /\ bucket <> "".
Proof.
  intros E I. unfold handleTraditional in E. apply exec_bind in E.
  destruct E as [(tm & t2 & [raw parsed] & E1 & E2 & ->)|(reason & E1 & _)];
    [|now apply parseRequestPath_returns in E1].
  pose proof (allCalls_exec _ _ _ _ (parseRequestPath_calls _) E1) as DC.
  rewrite calls_app in I. apply in_app_or in I as [I|I].
  { rewrite Forall_forall in DC. now apply DC in I. }
  destruct parsed as [pr|e].
  2:{ exfalso. refine (allCalls_In no301 _ _ _ _ _ E2 I eq_refl).
      calls_of ltac:(cbn [no301]). }
  cbn [bind call exec] in E2. destruct E2 as (x & t3 & -> & E2).
  destruct I as [I|I]; [discriminate I|].
  destruct x as [p|e].
  2:{ exfalso. refine (allCalls_In no301 _ _ _ _ _ E2 I eq_refl).
      unfold handleUplinkErr. calls_of ltac:(cbn [no301]). }
  destruct ((key pr =? "") || strings.HasSuffix (key pr) "/") eqn:K.
  2:{ exfalso. refine (allCalls_In no301 _ _ _ _ _ E2 I eq_refl).
      unfold handleUplinkErr, closeProject. calls_of ltac:(cbn [no301]). }
  destruct (strings.HasSuffix (URL_Path r) "/") eqn:S; cbn [negb] in E2.
  { exfalso. refine (allCalls_In no301 _ _ _ _ _ E2 I eq_refl).
    unfold servePrefix, handleUplinkErr, closeProject.
    calls_of ltac:(cbn [no301]). }
  apply exec_defer in E2. destruct E2 as (tb & tc & out1 & out2 & B & C & -> & ->).
  cbn in B. destruct B as ([] & tb' & -> & -> & ->).
  pose proof (exec_closeProject _ _ _ C) as (_ & RC & ->).
  assert (U : url = URL_Path r ++ "/").
  { cbn in I. destruct I as [I|I]; [now injection I as <-|].
    exfalso. refine (allCalls_In no301 _ _ _ _ _ C I eq_refl).
    unfold closeProject. calls_of ltac:(cbn [no301]). }
  subst url. split; [reflexivity|]. split; [|split; [reflexivity|]].
  - rewrite response_app, (decoder_response _ DC).
    change (response (event (OpenProject (access pr)) (Ok p)
                        :: [event (HttpRedirect (URL_Path r ++ "/") 301) tt] ++ tc))
      with (HttpRedirect (URL_Path r ++ "/") 301 :: response tc).
    now rewrite RC.
  - apply parse_reassembles in E1 as (F1 & F2 & P).
    destruct (bucket_root_only _ _ _ _ _ P K S) as (Q & N & _ & _).
    now exists (serializedAccess pr), (bucket pr).
Qed.

End RedirectTheorems.

(* ================================================================== *)
(** * How a found object is answered                                 *)
(* ================================================================== *)

Section ObjectFacts.

Context {ext : Externals}.

Lemma locating_response (t : list Event) :
  Forall (fun o => isGetIPInfos o = true \/ isLogCall o = true) (calls t) ->
  response t = [].
Proof.
  unfold response. induction (calls t) as [|o l IH]; [reflexivity|].
  intros F. inversion F as [|o' l' H F']. subst. cbn [filter].
  rewrite (IH F'). destruct H as [H|H]; destruct o; (discriminate H || reflexivity).
Qed.

Lemma locating_lookups (t : list Event) :
  Forall (fun o => isGetIPInfos o = true \/ isLogCall o = true) (calls t) ->
  forall p b k st, ~ In (StatObject p b k, st) (observed t).
Proof.
  intros F p b k st I. apply observed_In_calls in I.
  rewrite Forall_forall in F. destruct (F _ I) as [H|H]; discriminate H.
Qed.

Lemma locatedIn_quiet (t : list Event) :
  Forall (fun o => isGetIPInfos o = false) (calls t) ->
  locatedIn t = [] /\ filter isGetIPInfos (calls t) = [].
Proof.
  induction t as [|[o x] t IH]; [now split|].
  intros F. inversion F as [|o' l H F']. subst.
  destruct (IH F') as [I1 I2]. cbn [projT1] in H.
  unfold locatedIn in *. cbn [flat_map calls map filter projT1].
  change (map (@projT1 Op Resp) t) with (calls t).
  rewrite H, I1, I2. split; [|reflexivity].
  destruct o; try reflexivity. discriminate H.
Qed.

End ObjectFacts.

Section ObjectTheorems.

Context {ext : Externals}.

(** How a found object is answered to GET.  When the path is a raw one,
    or the query has [download] or [view], the content is served, after
    the download header if [download] is there, and nobody is asked where
    the object is stored.  Otherwise no content is served: the nodes of
    the object are asked for, and the response is the error page if that
    fails.  Else the geo-IP database, if the handler has one, is asked
    once for each address of a node, in order, and the response is the
    page of the object with exactly the locations the database has
    answered with in this request, in order, and their number; without a
    database nothing is located.  What the template returns is
    returned. *)
Theorem handleTraditional_get_object
        (handler : Handler) (r : Request) (t : list Event)
        (out : Outcome (option error)) (p : Project) (b k : string) :
  exec (handleTraditional handler r false) t out ->
  In (StatObject p b k, Succeeded) (observed t) ->
  if rawPath (URL_Path r) || queryHas "download" (URL_Query r)
     || queryHas "view" (URL_Query r)
  then
    (exists o,
        In (event (StatObject p b k) (Ok o)) t
        /\ response t
           = ((if queryHas "download" (URL_Query r)
               then [SetHeader "Content-Disposition"
                       ("attachment; filename=" ++ dquote ++ lastSegment k ++ dquote)]
               else [])
                ++ [ServeContent k (obj_Created o) p o b])%list)
    /\ out = Done None
    /\ Forall directCall (calls t)
  else
    Forall pageCall (calls t)
    /\ ((exists a e,
            In (GetObjectIPs a b k, Failed e) (observed t)
            /\ response t = errorPage e
            /\ out = Done (Some e))
        \/ (exists a o ips answer,
               In (event (GetObjectIPs a b k) (Ok ips)) t
               /\ In (event (StatObject p b k) (Ok o)) t
               /\ filter isGetIPInfos (calls t)
                  = match mapper handler with
                    | Some db => map (GetIPInfos db) ips
                    | None => []
                    end
               /\ (mapper handler = None -> locatedIn t = [])
               /\ response t
                  = [ExecuteTemplate "single-object.html"
                       (SingleObject (obj_Key o)
                          (Base10String (obj_ContentLength o))
                          (locatedIn t)
                          (Z.of_nat (List.length (locatedIn t))))]
               /\ In (event (ExecuteTemplate "single-object.html"
                               (SingleObject (obj_Key o)
                                  (Base10String (obj_ContentLength o))
                                  (locatedIn t)
                                  (Z.of_nat (List.length (locatedIn t)))))
                            answer) t
               /\ out = Done answer)).
Proof.
  intros E I. unfold handleTraditional in E. apply exec_bind in E.
  destruct E as [(tm & t2 & [raw parsed] & E1 & E2 & ->)|(reason & E1 & _)];
    [|now apply parseRequestPath_returns in E1].
  pose proof (allCalls_exec _ _ _ _ (parseRequestPath_calls _) E1) as DC.
  pose proof (parse_rawRequest _ _ _ _ E1) as <-.
  rewrite observed_app in I. apply in_app_or in I as [I|I].
  { now apply (decoder_no_lookup _ _ _ _ _ DC) in I. }
  destruct parsed as [pr|e].
  2:{ cbn in E2. destruct E2 as ([] & t3 & -> & -> & ->).
      destruct I as [I|[]]. discriminate I. }
  cbn [bind call exec] in E2. destruct E2 as (x & t3 & -> & E2).
  destruct I as [I|I]; [discriminate I|].
  destruct x as [p0|e].
  2:{ exfalso. refine (no_lookup_in _ _ _ _ E2 _ _ _ _ I).
      apply allCalls_bind; [apply handleUplinkErr_noObject|now intros]. }
  destruct ((key pr =? "") || strings.HasSuffix (key pr) "/").
  { exfalso. refine (no_lookup_in _ _ _ _ E2 _ _ _ _ I).
    unfold servePrefix, handleUplinkErr, closeProject.
    calls_of ltac:(cbn [noObjectCall]). }
  assert (FC : raw || queryHas "download" (URL_Query r)
               || queryHas "view" (URL_Query r)
               = negb (negb (queryHas "download" (URL_Query r))
                       && negb (queryHas "view" (URL_Query r)) && negb raw)).
  { now destruct raw, (queryHas "download" (URL_Query r)),
      (queryHas "view" (URL_Query r)). }
  rewrite FC. clear FC.
  apply exec_defer in E2. destruct E2 as (tb & tc & out1 & out2 & B & C & -> & ->).
  pose proof (exec_closeProject _ _ _ C) as (_ & RC & ->).
  assert (NC : forall p' b' k' st, ~ In (StatObject p' b' k', st) (observed tc)).
  { exact (no_lookup_in _ _ _ (closeProject_noObject p0) C). }
  cbn [bind call exec] in B. destruct B as (x & tb' & -> & B).
  destruct x as [o|e].
  2:{ exfalso. rewrite observed_app in I. apply in_app_or in I as [I|I].
      - destruct I as [I|I]; [discriminate I|].
        refine (no_lookup_in _ _ _ _ B _ _ _ _ I).
        apply allCalls_bind; [apply handleUplinkErr_noObject|now intros].
      - now apply NC in I. }
  assert (NS : forall p' b' k' st, ~ In (StatObject p' b' k', st) (observed tb')).
  { intros p' b' k' st I'. apply observed_In_calls in I'.
    refine (allCalls_In (fun o => match o with
                                  | StatObject _ _ _ => False
                                  | _ => True
                                  end) _ _ _ _ _ B I').
    unfold handleUplinkErr. calls_of ltac:(idtac). }
  rewrite observed_app in I. apply in_app_or in I as [I|I];
    [|now apply NC in I].
  destruct I as [I|I]; [|now apply NS in I].
  injection I as <- <- <-.
  assert (S : In (event (StatObject p0 (bucket pr) (key pr)) (Ok o))
                 (tm ++ event (OpenProject (access pr)) (Ok p0)
                     :: (event (StatObject p0 (bucket pr) (key pr)) (Ok o) :: tb')
                     ++ tc)).
  { apply in_or_app. right. right. now left. }
  assert (R : response (tm ++ event (OpenProject (access pr)) (Ok p0)
                           :: (event (StatObject p0 (bucket pr) (key pr)) (Ok o) :: tb')
                           ++ tc)
              = response tb').
  { rewrite response_app, (decoder_response _ DC).
    change (response (event (OpenProject (access pr)) (Ok p0)
                        :: (event (StatObject p0 (bucket pr) (key pr)) (Ok o) :: tb')
                        ++ tc))
      with (response (tb' ++ tc)).
    now rewrite response_app, RC, app_nil_r. }
  assert (F : forall P : Op -> Prop,
             (forall o', decoderCall o' -> P o') ->
             P (OpenProject (access pr)) ->
             P (StatObject p0 (bucket pr) (key pr)) ->
             (forall e, P (CloseProject p0)
                        /\ P (Log LevelWarn "unable to close project" [zap_Error e])) ->
             Forall P (calls tb') ->
             Forall P (calls (tm ++ event (OpenProject (access pr)) (Ok p0)
                                 :: (event (StatObject p0 (bucket pr) (key pr)) (Ok o)
                                       :: tb') ++ tc))).
  { intros P PD PO PS PC PB.
    change (tm ++ event (OpenProject (access pr)) (Ok p0)
               :: (event (StatObject p0 (bucket pr) (key pr)) (Ok o) :: tb') ++ tc)%list
      with (tm ++ [event (OpenProject (access pr)) (Ok p0)]
               ++ [event (StatObject p0 (bucket pr) (key pr)) (Ok o)]
               ++ tb' ++ tc)%list.
    rewrite !calls_app, !Forall_app. repeat split.
    - revert DC. apply Forall_impl. exact PD.
    - now constructor.
    - now constructor.
    - exact PB.
    - refine (allCalls_exec P _ _ _ _ C). unfold closeProject. cbn.
      split; [apply (PC (New ""))|]. intros [e|]; cbn; [|exact I].
      split; [apply (PC e)|trivial]. }
  rewrite R. clear R.
  destruct (negb (queryHas "download" (URL_Query r))
            && negb (queryHas "view" (URL_Query r)) && negb raw) eqn:FC;
    cbn [negb].
  - split.
    { apply F; try exact I; try (now intros []); try (now intros; split).
      refine (allCalls_exec pageCall _ _ _ _ B).
      unfold handleUplinkErr. calls_of ltac:(cbn [pageCall]). }
    cbn [exec] in B. destruct B as (y & tb2 & -> & B).
    assert (G : forall st,
               status (GetObjectIPs (access pr) (bucket pr) (key pr)) y = st ->
               In (GetObjectIPs (access pr) (bucket pr) (key pr), st)
                  (observed (tm ++ event (OpenProject (access pr)) (Ok p0)
                     :: (event (StatObject p0 (bucket pr) (key pr)) (Ok o)
                           :: event (GetObjectIPs (access pr) (bucket pr) (key pr)) y
                           :: tb2) ++ tc))).
    { intros st <-. rewrite observed_app. apply in_or_app. right. right. right.
      now left. }
    destruct y as [ips|e].
    + right. apply exec_bind in B.
      destruct B as [(tl & te & locations & L & T & ->)|(reason & L & _)].
      * cbn in T. destruct T as (z & te' & -> & -> & ->).
        assert (LL : locatedIn tl = locations
                     /\ filter isGetIPInfos (calls tl)
                        = match mapper handler with
                          | Some db => map (GetIPInfos db) ips
                          | None => []
                          end
                     /\ response tl = []).
        { destruct (mapper handler) as [db|].
          - apply exec_locate_steps in L as (answers & M & -> & Q).
            injection Q as ->. cbn [app]. split; [apply locatedIn_locateSteps|].
            split; [now rewrite locateSteps_lookups, M|].
            apply locating_response, locateSteps_calls.
          - cbn in L. destruct L as [-> Q]. injection Q as Q. subst locations.
            now repeat split. }
        destruct LL as (L1 & L2 & L3).
        match goal with
        | |- context [locatedIn ?w] =>
            assert (W : locatedIn w = locations
                        /\ filter isGetIPInfos (calls w)
                           = match mapper handler with
                             | Some db => map (GetIPInfos db) ips
                             | None => []
                             end)
        end.
        { change (tm ++ event (OpenProject (access pr)) (Ok p0)
                     :: (event (StatObject p0 (bucket pr) (key pr)) (Ok o)
                           :: event (GetObjectIPs (access pr) (bucket pr) (key pr)) (Ok ips)
                           :: tl ++ [event (ExecuteTemplate "single-object.html"
                                              (SingleObject (obj_Key o)
                                                 (Base10String (obj_ContentLength o))
                                                 locations
                                                 (Z.of_nat (Datatypes.length locations)))) z])
                     ++ tc)%list
            with (tm ++ [event (OpenProject (access pr)) (Ok p0);
                         event (StatObject p0 (bucket pr) (key pr)) (Ok o);
                         event (GetObjectIPs (access pr) (bucket pr) (key pr)) (Ok ips)]
                     ++ (tl ++ [event (ExecuteTemplate "single-object.html"
                                         (SingleObject (obj_Key o)
                                            (Base10String (obj_ContentLength o))
                                            locations
                                            (Z.of_nat (Datatypes.length locations)))) z])
                     ++ tc)%list.
          assert (QM : Forall (fun o' => isGetIPInfos o' = false) (calls tm)).
          { revert DC. apply Forall_impl. now intros []. }
          assert (QC : Forall (fun o' => isGetIPInfos o' = false) (calls tc)).
          { refine (allCalls_exec _ _ _ _ _ C). unfold closeProject.
            calls_of ltac:(idtac). }
          destruct (locatedIn_quiet _ QM) as [M1 M2].
          destruct (locatedIn_quiet _ QC) as [C1 C2].
          rewrite !locatedIn_app, !calls_app, !filter_app, M1, M2, C1, C2, L1, L2.
          cbn. now rewrite !app_nil_r. }
        destruct W as [W1 W2]. rewrite W1.
        exists (access pr), o, ips, z.
        split; [apply in_or_app; right; right; right; now left|].
        split; [exact S|]. split; [exact W2|].
        split.
        { intros MN. rewrite MN in L. cbn in L. destruct L as [_ Q].
          injection Q as Q. now subst locations. }
        split.
        { change (event (GetObjectIPs (access pr) (bucket pr) (key pr)) (Ok ips)
                    :: tl ++ [event (ExecuteTemplate "single-object.html"
                                       (SingleObject (obj_Key o)
                                          (Base10String (obj_ContentLength o))
                                          locations
                                          (Z.of_nat (Datatypes.length locations)))) z])%list
            with ([event (GetObjectIPs (access pr) (bucket pr) (key pr)) (Ok ips)]
                    ++ tl ++ [event (ExecuteTemplate "single-object.html"
                                       (SingleObject (obj_Key o)
                                          (Base10String (obj_ContentLength o))
                                          locations
                                          (Z.of_nat (Datatypes.length locations)))) z])%list.
          rewrite !response_app, L3. reflexivity. }
        split; [|reflexivity].
        apply in_or_app. right. right. apply in_or_app. left.
        right. right. apply in_or_app. right. now left.
      * exfalso. destruct (mapper handler) as [db|].
        -- apply exec_locate_steps in L as (answers & _ & _ & Q). discriminate Q.
        -- cbn in L. destruct L as [_ Q]. discriminate Q.
    + left. exists (access pr), e. split; [now apply G|].
      apply exec_surface in B as (_ & RB & ->). split; [|reflexivity].
      change (response (event (GetObjectIPs (access pr) (bucket pr) (key pr)) (Err e)
                          :: tb2)) with (response tb2).
      exact RB.
  - assert (B' : tb' = ((if queryHas "download" (URL_Query r)
                         then [event (SetHeader "Content-Disposition"
                                        ("attachment; filename=" ++ dquote
                                           ++ lastSegment (key pr) ++ dquote)) tt]
                         else [])
                          ++ [event (ServeContent (key pr) (obj_Created o) p0 o
                                       (bucket pr)) tt])%list
                 /\ out1 = Done None).
    { destruct (queryHas "download" (URL_Query r)); cbn in B.
      - now destruct B as ([] & ? & -> & [] & ? & -> & -> & ->).
      - now destruct B as ([] & ? & -> & -> & ->). }
    destruct B' as [-> ->]. split; [|split; [reflexivity|]].
    + exists o. split; [exact S|].
      now destruct (queryHas "download" (URL_Query r)).
    + apply F; try exact I; try (now intros []); try (now intros; split).
      destruct (queryHas "download" (URL_Query r)); repeat constructor.
Qed.

End ObjectTheorems.

(* ================================================================== *)
(** * More about the router                                          *)
(* ================================================================== *)

Section RouterFacts.

Context {ext : Externals}.

Lemma handleTraditional_not405 (handler : Handler) (r : Request)
      (locationOnly : bool) :
  allCalls not405 (handleTraditional handler r locationOnly).
Proof.
  unfold handleTraditional. apply allCalls_bind.
  - apply (allCalls_weaken decoderCall); [now intros []|].
    apply parseRequestPath_calls.
  - intros [raw parsed].
    unfold servePrefix, handleUplinkErr, closeProject.
    calls_of ltac:(cbn [not405]).
Qed.

End RouterFacts.

Section RouterExtras.

Context {ext : Externals}.

(** A request whose [Host], or the base URL's host, cannot be split into
    host and port for another reason than a missing port gets no answer
    from the handler: the error is returned, and nothing is written to
    the response or to the log, and nothing else called. *)
Theorem serveHTTP_unreadable_host
        (handler : Handler) (r : Request) (t : list Event)
        (out : Outcome (option error)) (e : error) :
  exec (serveHTTP handler r) t out ->
  effectiveHost (Host r) = Err e
  \/ ((exists h, effectiveHost (Host r) = Ok h)
      /\ effectiveHost (url_Host (urlBase handler)) = Err e) ->
  t = [] /\ out = Done (Some e).
Proof.
  intros E H. unfold serveHTTP in E. rewrite compareHosts_effective in E.
  destruct H as [H|[(h & H1) H2]].
  - rewrite H in E. cbn in E. tauto.
  - rewrite H1, H2 in E. cbn in E. tauto.
Qed.

(** A request for another host than the base host begins with the lookup
    of that host, without its port, in the TXT records.  So the hosting
    service's own answer to a host it cannot split is never given: such a
    request does not reach it. *)
Theorem serveHTTP_custom_domain_lookup
        (handler : Handler) (r : Request) (t : list Event)
        (out : Outcome (option error)) :
  exec (serveHTTP handler r) t out ->
  compareHosts (Host r) (url_Host (urlBase handler)) = (false, None) ->
  exists host x t',
    effectiveHost (Host r) = Ok host
    /\ t = event (FetchAccessForHost host) x :: t'.
Proof.
  intros E C. unfold serveHTTP in E. rewrite C in E. cbn [negb] in E.
  rewrite compareHosts_effective in C.
  unfold handleHostingService in E. unfold effectiveHost in *.
  destruct (net.SplitHostPort (Host r)) as [[h port] [e|]].
  - destruct (strings.Contains (Error e) "missing port in address");
      [|discriminate C].
    cbn [bind call exec] in E. destruct E as (x & t' & -> & _).
    now exists (Host r), x, t'.
  - cbn [bind call exec] in E. destruct E as (x & t' & -> & _).
    now exists h, x, t'.
Qed.

(** The answer 405 is given exactly to a request for the base host whose
    method is neither GET nor HEAD, and then it is all the handler does:
    "method not allowed" is written and returned, and nothing else is
    called, the path is not even parsed. *)
Theorem serveHTTP_method_not_allowed
        (handler : Handler) (r : Request) (t : list Event)
        (out : Outcome (option error)) :
  exec (serveHTTP handler r) t out ->
  ((exists msg, In (HttpError msg 405) (calls t))
   <-> (compareHosts (Host r) (url_Host (urlBase handler)) = (true, None)
        /\ Method r <> "GET" /\ Method r <> "HEAD"))
  /\ ((exists msg, In (HttpError msg 405) (calls t)) ->
      t = [event (HttpError "method not allowed" 405) tt]
      /\ out = Done (Some (New "method not allowed"))).
Proof.
  intros E. unfold serveHTTP in E.
  destruct (compareHosts (Host r) (url_Host (urlBase handler)))
    as [equal [e|]].
  { cbn in E. destruct E as [-> ->]. split; [split|].
    - now intros (msg & []).
    - now intros [Q _].
    - now intros (msg & []). }
  destruct equal; cbn [negb] in E.
  2:{ assert (N : ~ exists msg, In (HttpError msg 405) (calls t)).
      { intros (msg & I).
        now apply (allCalls_In _ _ _ _ _ (handleHostingService_not405 handler r) E I). }
      split; [split|]; [tauto|now intros [Q _]|tauto]. }
  destruct (Method r =? "HEAD") eqn:MH.
  { apply String.eqb_eq in MH.
    assert (N : ~ exists msg, In (HttpError msg 405) (calls t)).
    { intros (msg & I).
      now apply (allCalls_In _ _ _ _ _ (handleTraditional_not405 handler r true) E I). }
    split; [split|]; [tauto|now intros (_ & _ & Q)|tauto]. }
  destruct (Method r =? "GET") eqn:MG.
  { apply String.eqb_eq in MG.
    assert (N : ~ exists msg, In (HttpError msg 405) (calls t)).
    { intros (msg & I).
      now apply (allCalls_In _ _ _ _ _ (handleTraditional_not405 handler r false) E I). }
    split; [split|]; [tauto|now intros (_ & Q & _)|tauto]. }
  apply String.eqb_neq in MH, MG.
  cbn in E. destruct E as ([] & t' & -> & -> & ->).
  split; [split|].
  - now intros _.
  - intros _. exists "method not allowed". now left.
  - now intros _.
Qed.

End RouterExtras.

(* ================================================================== *)
(** * Unresolved custom domains                                      *)
(* ================================================================== *)

Section HostingExtras.

Context {ext : Externals}.

(** A custom domain that the TXT records do not resolve is answered 500
    with a fixed text: the reason is logged and returned, but not sent to
    the client, and no project is opened. *)
Theorem handleHostingService_unresolved
        (handler : Handler) (r : Request) (t : list Event)
        (out : Outcome (option error)) (host : string) (e : error) :
  exec (handleHostingService handler r) t out ->
  In (FetchAccessForHost host, Failed e) (observed t) ->
  calls t = [FetchAccessForHost host;
             Log LevelError "unable to handle request" [zap_Error e];
             HttpError "unable to handle request" 500]
  /\ out = Done (Some e).
Proof.
  intros E I. unfold handleHostingService in E.
  destruct (net.SplitHostPort (Host r)) as [[h port] err].
  match type of E with
  | exec (match ?x with _ => _ end) _ _ => destruct x as [host0|e0]
  end.
  2:{ cbn in E. destruct E as ([] & t1 & -> & [] & t2 & -> & -> & _).
      cbn in I. destruct I as [I|[I|[]]]; discriminate I. }
  cbn [bind call exec] in E. destruct E as (x & t1 & -> & E).
  destruct x as [[access root]|e'].
  - exfalso. destruct I as [I|I]; [discriminate I|].
    apply observed_In_calls in I.
    refine (allCalls_In notFetch _ _ _ _ _ E I).
    unfold servePrefix, handleUplinkErr, closeProject.
    calls_of ltac:(cbn [notFetch]).
  - cbn in E. destruct E as ([] & t2 & -> & [] & t3 & -> & -> & ->).
    cbn in I. destruct I as [I|[I|[I|[]]]]; try discriminate I.
    injection I as <- <-. now split.
Qed.

End HostingExtras.

Section HostingWitness.

#[local] Existing Instance demo.

Lemma handleHostingService_unresolved_witness :
  calls (fst (run strangerWorld
                (handleHostingService demoHandler
                   (demoRequest "GET" "other.test" "/x")) tt))
  = [FetchAccessForHost "other.test";
     Log LevelError "unable to handle request"
       [zap_Error (New "no TXT record for other.test")];
     HttpError "unable to handle request" 500]
  /\ snd (run strangerWorld
            (handleHostingService demoHandler
               (demoRequest "GET" "other.test" "/x")) tt)
     = Done (Some (New "no TXT record for other.test")).
Proof.
  apply (@handleHostingService_unresolved demo demoHandler
           (demoRequest "GET" "other.test" "/x")).
  - apply run_exec.
  - left. reflexivity.
Defined.

End HostingWitness.

(* ================================================================== *)
(** * Instances of the further properties                            *)
(* ================================================================== *)

Lemma determineBucketAndObjectKey_empty_key_witness :
  snd (determineBucketAndObjectKey "bucket" "/") = "".
Proof.
  apply (determineBucketAndObjectKey_empty_key "bucket" "/").
  split; [reflexivity|now right].
Defined.

Section ExtraWitnesses.

#[local] Existing Instance demo.

Lemma parseAccess_success_witness :
  exists payload version,
    CheckDecode "1key" = (payload, version, None)
    /\ ((version = Byte.x00
         /\ fst (run happyWorld (parseAccess "1key") tt)
            = [event (ParseAccess "1key") (Ok "grant-of-1key")])
        \/ (version = versionAccessKeyID
            /\ exists authResp,
                Public authResp = true
                /\ fst (run happyWorld (parseAccess "1key") tt)
                   = [event (Resolve "1key") (Ok authResp);
                      event (ParseAccess (AccessGrant authResp))
                        (Ok "grant-of-1key")])).
Proof.
  exact (@parseAccess_success demo "1key" _ "grant-of-1key"
           (run_exec happyWorld (parseAccess "1key") tt)).
Defined.

Lemma parseAccess_calls_made_witness :
  "1key" = "1key"
  /\ exists payload, CheckDecode "1key" = (payload, versionAccessKeyID, None).
Proof.
  destruct (@parseAccess_calls_made demo "1key" _ _
              (run_exec happyWorld (parseAccess "1key") tt)) as (R & _ & _).
  apply (R "1key"). left. reflexivity.
Defined.

Lemma parseRequestPath_rawRequest_witness :
  true = rawPath "/raw/ACCESS/bucket/a/b.jpg".
Proof.
  exact (@parseRequestPath_rawRequest demo "/raw/ACCESS/bucket/a/b.jpg" _ true _
           (run_exec happyWorld (parseRequestPath "/raw/ACCESS/bucket/a/b.jpg") tt)).
Defined.

Lemma parseRequestPath_reassembles_witness :
  hasByte "/" "ACCESS" = false
  /\ hasByte "/" "bucket" = false
  /\ (strings.TrimPrefix "/raw/ACCESS/bucket/a/b.jpg" "/"
      = "raw/" ++ "ACCESS" ++ "/" ++ "bucket" ++ "/" ++ "a/b.jpg"
      \/ (true = false /\ "a/b.jpg" = ""
          /\ strings.TrimPrefix "/raw/ACCESS/bucket/a/b.jpg" "/"
             = "ACCESS" ++ "/" ++ "bucket")).
Proof.
  exact (@parseRequestPath_reassembles demo "/raw/ACCESS/bucket/a/b.jpg" _ true
           {| access := "ACCESS"; serializedAccess := "ACCESS";
              bucket := "bucket"; key := "a/b.jpg" |}
           (run_exec happyWorld (parseRequestPath "/raw/ACCESS/bucket/a/b.jpg") tt)).
Defined.

Lemma serveHTTP_opens_with_granted_access_witness :
  (exists s, In (event (ParseAccess s) (Ok "ACCESS"))
                [event (ParseAccess "ACCESS") (Ok "ACCESS")])
  \/ (exists host root,
         In (event (FetchAccessForHost host) (Ok ("ACCESS", root)))
            [event (ParseAccess "ACCESS") (Ok "ACCESS")]).
Proof.
  exact (@serveHTTP_opens_with_granted_access demo demoHandler demoDownload
           (demoTrace demoDownload) (demoOutcome demoDownload)
           (firstn 1 (demoTrace demoDownload))
           (nth 1 (demoTrace demoDownload) (event (WriteHeader 0) tt))
           (skipn 2 (demoTrace demoDownload)) "ACCESS"
           (run_exec happyWorld (serveHTTP demoHandler demoDownload) tt)
           eq_refl eq_refl).
Defined.

Lemma serveHTTP_project_lifecycle_witness :
  (exists a, In (event (OpenProject a) (Ok tt)) (firstn 4 (demoTrace demoDownload)))
  /\ ~ In (@CloseProject demo tt) (calls (firstn 4 (demoTrace demoDownload))).
Proof.
  destruct (@serveHTTP_project_lifecycle demo demoHandler demoDownload
              (demoTrace demoDownload) (demoOutcome demoDownload)
              (firstn 4 (demoTrace demoDownload))
              (nth 4 (demoTrace demoDownload) (event (WriteHeader 0) tt))
              (skipn 5 (demoTrace demoDownload))
              (run_exec happyWorld (serveHTTP demoHandler demoDownload) tt)
              eq_refl) as [L _].
  apply (L tt). reflexivity.
Defined.

Lemma serveHTTP_serves_found_object_witness :
  In (event (@StatObject demo tt "bucket" "a/b.jpg") (Ok demoObject))
     (firstn 4 (demoTrace demoDownload))
  /\ tt = obj_Created demoObject.
Proof.
  destruct (@serveHTTP_serves_found_object demo demoHandler demoDownload
              (demoTrace demoDownload) (demoOutcome demoDownload)
              (firstn 4 (demoTrace demoDownload))
              (nth 4 (demoTrace demoDownload) (event (WriteHeader 0) tt))
              (skipn 5 (demoTrace demoDownload))
              (run_exec happyWorld (serveHTTP demoHandler demoDownload) tt)
              eq_refl) as [S _].
  apply (S "a/b.jpg" tt tt demoObject "bucket"). reflexivity.
Defined.

Lemma serveHTTP_closes_opened_project_witness :
  In (@CloseProject demo tt) (calls (demoTrace demoDownload)).
Proof.
  apply (@serveHTTP_closes_opened_project demo demoHandler demoDownload
           (demoTrace demoDownload) (demoOutcome demoDownload)
           (nth 1 (demoTrace demoDownload) (event (WriteHeader 0) tt)) "ACCESS" tt
           (run_exec happyWorld (serveHTTP demoHandler demoDownload) tt)).
  - right. left. reflexivity.
  - reflexivity.
Defined.

Lemma handleUplinkErr_answers_witness :
  snd (run happyWorld
         (handleUplinkErr "stat object" (Wraps ErrObjectNotFound "no such key")) tt)
  = Done tt.
Proof.
  apply (@handleUplinkErr_answers demo "stat object"
           (Wraps ErrObjectNotFound "no such key") _ _
           (run_exec happyWorld
              (handleUplinkErr "stat object"
                 (Wraps ErrObjectNotFound "no such key")) tt)).
Defined.

Lemma servePrefix_listing_witness :
  exists items iterErr t',
    fst (run happyWorld
           (@servePrefix demo tt {| Prefix := "bucket"; crumb_URL := "/ACCESS/bucket/" |}
              "bucket" "bucket" "dir/sub/" "dir/sub/") tt)
    = event (@ListObjects demo tt "bucket" "dir/sub/") (items, iterErr) :: t'.
Proof.
  destruct (@servePrefix_listing demo tt
              {| Prefix := "bucket"; crumb_URL := "/ACCESS/bucket/" |}
              "bucket" "bucket" "dir/sub/" "dir/sub/" _ _
              (run_exec happyWorld
                 (@servePrefix demo tt
                    {| Prefix := "bucket"; crumb_URL := "/ACCESS/bucket/" |}
                    "bucket" "bucket" "dir/sub/" "dir/sub/") tt))
    as (items & iterErr & t' & E & _).
  now exists items, iterErr, t'.
Defined.

Lemma locate_never_fails_witness :
  exists answers,
    map fst answers = ["10.0.0.1"; "10.0.0.2"]
    /\ fst (run mappedWorld (@locate demo tt ["10.0.0.1"; "10.0.0.2"] []) tt)
       = @locateSteps demo tt answers
    /\ snd (run mappedWorld (@locate demo tt ["10.0.0.1"; "10.0.0.2"] []) tt)
       = Done ([] ++ @locationsOf demo answers)%list.
Proof.
  exact (@locate_never_fails demo tt ["10.0.0.1"; "10.0.0.2"] [] _ _
           (run_exec mappedWorld (@locate demo tt ["10.0.0.1"; "10.0.0.2"] []) tt)).
Defined.

Lemma servePrefix_breadcrumbs_witness :
  crumb_URL
    (last [ {| Prefix := "bucket"; crumb_URL := "/ACCESS/bucket/" |};
            {| Prefix := "dir"; crumb_URL := "/ACCESS/bucket/dir/" |};
            {| Prefix := "sub"; crumb_URL := "/ACCESS/bucket/dir/sub/" |} ]
          {| Prefix := "bucket"; crumb_URL := "/ACCESS/bucket/" |})
  = "/ACCESS/bucket/" ++ strings.TrimRight "dir/sub/" "/" ++ "/".
Proof.
  destruct (@servePrefix_breadcrumbs demo tt
              {| Prefix := "bucket"; crumb_URL := "/ACCESS/bucket/" |}
              "bucket" "bucket" "dir/sub/" "dir/sub/" _ _
              "prefix-listing.html" "bucket"
              [ {| Prefix := "bucket"; crumb_URL := "/ACCESS/bucket/" |};
                {| Prefix := "dir"; crumb_URL := "/ACCESS/bucket/dir/" |};
                {| Prefix := "sub"; crumb_URL := "/ACCESS/bucket/dir/sub/" |} ]
              []
              (run_exec happyWorld
                 (@servePrefix demo tt
                    {| Prefix := "bucket"; crumb_URL := "/ACCESS/bucket/" |}
                    "bucket" "bucket" "dir/sub/" "dir/sub/") tt)
              (or_intror (or_introl eq_refl)))
    as (_ & rest & _ & _ & _ & U).
  exact U.
Defined.

Lemma serveHTTP_download_filename_witness :
  "Content-Disposition" = "Content-Disposition"
  /\ exists (p : unit) b o dir obj,
       In (event (StatObject p b (dir ++ obj)) (Ok o))
          (firstn 3 (demoTrace demoDownload))
       /\ hasByte "/" obj = false
       /\ (dir = "" \/ endsInSlash dir = true)
       /\ "attachment; filename=" ++ dquote ++ "b.jpg" ++ dquote
          = "attachment; filename=" ++ dquote ++ obj ++ dquote.
Proof.
  exact (@serveHTTP_download_filename demo demoHandler demoDownload
           (demoTrace demoDownload) (demoOutcome demoDownload)
           (firstn 3 (demoTrace demoDownload))
           (nth 3 (demoTrace demoDownload) (event (WriteHeader 0) tt))
           (skipn 4 (demoTrace demoDownload))
           "Content-Disposition"
           ("attachment; filename=" ++ dquote ++ "b.jpg" ++ dquote)
           (run_exec happyWorld (serveHTTP demoHandler demoDownload) tt)
           eq_refl eq_refl).
Defined.

Lemma handleTraditional_invalid_request_witness :
  (exists tm rawRequest e,
      exec (parseRequestPath "/x") tm (Done (rawRequest, Err e))
      /\ fst (run happyWorld
                (handleTraditional demoHandler
                   (demoRequest "GET" "link.test" "/x") false) tt)
         = (tm ++ [event (HttpError "invalid request: missing bucket" 400) tt])%list
      /\ "invalid request: missing bucket" = "invalid request: " ++ Error e)
  /\ response (fst (run happyWorld
                      (handleTraditional demoHandler
                         (demoRequest "GET" "link.test" "/x") false) tt))
     = [HttpError "invalid request: missing bucket" 400].
Proof.
  destruct (@handleTraditional_invalid_request demo demoHandler
              (demoRequest "GET" "link.test" "/x") false _ _
              (run_exec happyWorld
                 (handleTraditional demoHandler
                    (demoRequest "GET" "link.test" "/x") false) tt))
    as (_ & A).
  destruct (A "invalid request: missing bucket" (or_introl eq_refl))
    as (P & R & _).
  split; [exact P|exact R].
Defined.

Lemma handleTraditional_redirects_bucket_root_witness :
  "/ACCESS/bucket/" = "/ACCESS/bucket" ++ "/"
  /\ response (fst (run happyWorld
                      (handleTraditional demoHandler
                         (demoRequest "GET" "link.test" "/ACCESS/bucket") false) tt))
     = [HttpRedirect "/ACCESS/bucket/" 301].
Proof.
  destruct (@handleTraditional_redirects_bucket_root demo demoHandler
              (demoRequest "GET" "link.test" "/ACCESS/bucket") false _ _
              "/ACCESS/bucket/"
              (run_exec happyWorld
                 (handleTraditional demoHandler
                    (demoRequest "GET" "link.test" "/ACCESS/bucket") false) tt)
              (or_intror (or_intror (or_introl eq_refl))))
    as (U & R & _).
  split; [exact U|exact R].
Defined.

Lemma handleTraditional_get_object_witness :
  ((exists o,
       In (event (@StatObject demo tt "bucket" "a/b.jpg") (Ok o))
          (fst (run happyWorld (handleTraditional demoHandler demoDownload false) tt))
       /\ response (fst (run happyWorld
                           (handleTraditional demoHandler demoDownload false) tt))
          = [SetHeader "Content-Disposition"
               ("attachment; filename=" ++ dquote ++ lastSegment "a/b.jpg" ++ dquote);
             @ServeContent demo "a/b.jpg" (obj_Created o) tt o "bucket"])
   /\ snd (run happyWorld (handleTraditional demoHandler demoDownload false) tt)
      = Done None
   /\ Forall directCall
             (calls (fst (run happyWorld
                            (handleTraditional demoHandler demoDownload false) tt))))
  /\ Forall pageCall
            (calls (fst (run mappedWorld
                           (handleTraditional mappedHandler
                              (demoRequest "GET" "link.test" "/ACCESS/bucket/a/b.jpg")
                              false) tt))).
Proof.
  split.
  - exact (@handleTraditional_get_object demo demoHandler demoDownload _ _
             tt "bucket" "a/b.jpg"
             (run_exec happyWorld (handleTraditional demoHandler demoDownload false) tt)
             (or_intror (or_intror (or_introl eq_refl)))).
  - destruct (@handleTraditional_get_object demo mappedHandler
                (demoRequest "GET" "link.test" "/ACCESS/bucket/a/b.jpg") _ _
                tt "bucket" "a/b.jpg"
                (run_exec mappedWorld
                   (handleTraditional mappedHandler
                      (demoRequest "GET" "link.test" "/ACCESS/bucket/a/b.jpg")
                      false) tt)
                (or_intror (or_intror (or_introl eq_refl)))) as [F _].
    exact F.
Defined.

Lemma serveHTTP_unreadable_host_witness :
  demoTrace (demoRequest "GET" "a:b:c" "/x") = []
  /\ demoOutcome (demoRequest "GET" "a:b:c" "/x")
     = Done (Some (AddrError "too many colons in address" "a:b:c")).
Proof.
  apply (@serveHTTP_unreadable_host demo demoHandler (demoRequest "GET" "a:b:c" "/x")).
  - apply run_exec.
  - left. reflexivity.
Defined.

Lemma serveHTTP_custom_domain_lookup_witness :
  exists host x t',
    effectiveHost "other.test:8080" = Ok host
    /\ demoTrace (demoRequest "POST" "other.test:8080" "/x")
       = event (FetchAccessForHost host) x :: t'.
Proof.
  apply (@serveHTTP_custom_domain_lookup demo demoHandler
           (demoRequest "POST" "other.test:8080" "/x") _
           (demoOutcome (demoRequest "POST" "other.test:8080" "/x"))).
  - apply run_exec.
  - reflexivity.
Defined.

Lemma serveHTTP_method_not_allowed_witness :
  demoTrace (demoRequest "POST" "link.test:443" "/ACCESS/bucket/a/b.jpg")
  = [event (HttpError "method not allowed" 405) tt]
  /\ demoOutcome (demoRequest "POST" "link.test:443" "/ACCESS/bucket/a/b.jpg")
     = Done (Some (New "method not allowed")).
Proof.
  destruct (@serveHTTP_method_not_allowed demo demoHandler
              (demoRequest "POST" "link.test:443" "/ACCESS/bucket/a/b.jpg") _ _
              (run_exec happyWorld
                 (serveHTTP demoHandler
                    (demoRequest "POST" "link.test:443" "/ACCESS/bucket/a/b.jpg")) tt))
    as (_ & A).
  apply A. exists "method not allowed". left. reflexivity.
Defined.

End ExtraWitnesses.
